(** * datalad-gooey: file-system browser, command executor, item store

    A shallow embedding of [datalad_gooey/datalad_cmd.py],
    [datalad_gooey/fsbrowser_item.py] and [datalad_gooey/fsbrowser.py],
    of the widget lookup of [datalad_gooey/app.py] and of the constraints
    of [datalad_gooey/constraints.py], and the properties established on
    it.

    Python objects live in an explicit store and are referred to by handle;
    methods are computations in a state-and-exception monad, in which the
    state reached when an exception is raised is kept (Python does not roll
    back).  Qt signals connected inside one thread are direct calls of the
    connected slot. *)

From Stdlib Require Import String Ascii List ZArith Lia.
From stdpp Require Import base option list gmap sets strings.

Local Open Scope string_scope.
Local Open Scope list_scope.

(** ** Python values, exceptions, and the computation monad *)

Module Py.

(** The exceptions the modelled code raises or lets through. *)
Inductive exn : Type :=
| ValueError
| TypeError
| KeyError
| AttributeError
| NotImplementedError
| RuntimeError
| BackendError (msg : string)   (* whatever a backend command raises *)
| DanglingHandle                (* a handle outside the store: no Python
                                   counterpart, references never dangle *)
| OutOfFuel.                    (* a loop of the model ran out of its step
                                   bound: no Python counterpart *)

#[global] Instance exn_eq_dec : EqDecision exn.
Proof. solve_decision. Defined.

Inductive res (A : Type) : Type :=
| Ok (a : A)
| Raise (e : exn).
Arguments Ok {A} a.
Arguments Raise {A} e.

(** A computation over a state [S]: the outcome together with the state
    in which it ended. *)
Definition M (S A : Type) : Type := S -> res A * S.

Definition ret {S A} (a : A) : M S A := fun s => (Ok a, s).

Definition bind {S A B} (m : M S A) (k : A -> M S B) : M S B :=
  fun s => match m s with
           | (Ok a, s') => k a s'
           | (Raise e, s') => (Raise e, s')
           end.

Definition raise {S A} (e : exn) : M S A := fun s => (Raise e, s).
Definition get {S} : M S S := fun s => (Ok s, s).
Definition gets {S A} (f : S -> A) : M S A := fun s => (Ok (f s), s).
Definition modify {S} (f : S -> S) : M S unit := fun s => (Ok tt, f s).

(** [try: m except e: h] for a single exception class. *)
Definition try_except {S A} (m : M S A) (e : exn) (h : M S A) : M S A :=
  fun s => match m s with
           | (Raise e', s') => if decide (e' = e) then h s' else (Raise e', s')
           | r => r
           end.

(** Run a computation on a component of the state. *)
Definition zoom {S T A} (proj : S -> T) (upd : T -> S -> S) (m : M T A)
  : M S A :=
  fun s => let '(r, t) := m (proj s) in (r, upd t s).

#[global] Instance M_ret {S} : MRet (M S) := fun A a => ret a.
#[global] Instance M_bind {S} : MBind (M S) := fun A B k m => bind m k.

(** [for x in l: f x] *)
Fixpoint for_each {S A} (l : list A) (f : A -> M S unit) : M S unit :=
  match l with
  | [] => ret tt
  | x :: l' => bind (f x) (fun _ => for_each l' f)
  end.

(** The values found in result records and in the data columns of an
    item: [None] or a string. *)
Inductive pyval : Type :=
| VNone
| VStr (s : string).

#[global] Instance pyval_eq_dec : EqDecision pyval.
Proof. solve_decision. Defined.

(** Python truthiness: [None] and the empty string are false. *)
Definition truthy (v : pyval) : bool :=
  match v with
  | VNone => false
  | VStr s => negb (String.eqb s "")
  end.

(** A result record of the backend or of a directory listing: a [dict]. *)
Abbreviation result := (gmap string pyval).

(** [d.get(k)]: a missing key reads as [None]. *)
Definition dict_get (d : result) (k : string) : pyval :=
  default VNone (d !! k).

(** [d[k]]: a missing key raises [KeyError]. *)
Definition dict_item {S} (d : result) (k : string) : M S pyval :=
  match d !! k with
  | Some v => ret v
  | None => raise KeyError
  end.

End Py.
Export Py.

(** ** Paths ([pathlib.Path]) *)

Module PathLib.

(** A path is its tuple of [parts]; an absolute path starts with its
    anchor, ["/"] or, for a string with exactly two leading slashes,
    ["//"]. *)
Definition path : Type := list string.

Fixpoint split_slash (s : string) (cur : string) : list string :=
  match s with
  | EmptyString => [cur]
  | String c s' =>
      if Ascii.eqb c "/"%char
      then cur :: split_slash s' ""
      else split_slash s' (String.append cur (String c ""))
  end.

Definition is_component (c : string) : bool :=
  negb (String.eqb c "") && negb (String.eqb c ".").

Fixpoint leading_slashes (s : string) : nat :=
  match s with
  | String c s' =>
      if Ascii.eqb c "/"%char then S (leading_slashes s') else 0
  | EmptyString => 0
  end.

(** [Path(s)] for a POSIX path string: empty and ["."] components are
    dropped, [".."] is kept; two leading slashes are kept as they are,
    any other number of them counts as one. *)
Definition Path (s : string) : path :=
  let comps := List.filter is_component (split_slash s "") in
  match leading_slashes s with
  | 0 => comps
  | 2 => "//" :: comps
  | _ => "/" :: comps
  end.

Fixpoint join_slash (l : list string) : string :=
  match l with
  | [] => ""
  | [x] => x
  | x :: l' => String.append x (String.append "/" (join_slash l'))
  end.

(** [str(p)] *)
Definition path_str (p : path) : string :=
  match p with
  | [] => "."
  | a :: rest =>
      if String.eqb a "/" || String.eqb a "//"
      then String.append a (join_slash rest)
      else join_slash p
  end.

(** [p.name]: the last part, empty for the anchor alone. *)
Definition path_name (p : path) : string :=
  match rev p with
  | [] => ""
  | x :: rest => match rest with
                 | [] => if String.eqb x "/" || String.eqb x "//"
                         then "" else x
                 | _ => x
                 end
  end.

Fixpoint strip_prefix (base p : path) : option path :=
  match base, p with
  | [], _ => Some p
  | b :: base', x :: p' =>
      if String.eqb b x then strip_prefix base' p' else None
  | _ :: _, [] => None
  end.

(** [p.relative_to(base)]: raises [ValueError] unless [base] is a prefix
    of [p]. *)
Definition relative_to {S} (p base : path) : M S path :=
  match strip_prefix base p with
  | Some r => ret r
  | None => raise ValueError
  end.

End PathLib.
Export PathLib.

(** ** The command executor ([datalad_cmd.py]) *)

Module CmdExec.

(** Argument values of a command call. *)
Inductive argval : Type :=
| APath (p : path)
| APaths (l : list path)
| AStr (s : string).

#[global] Instance argval_eq_dec : EqDecision argval.
Proof. solve_decision. Defined.

Abbreviation kwargs := (gmap string argval).

(** What a backend command returns in generator mode: the records it
    yields, ended by exhaustion or by an exception. *)
Inductive gen : Type :=
| GStop
| GYield (r : result) (g : gen)
| GRaise (e : exn).

Fixpoint yields (g : gen) : list result :=
  match g with
  | GYield r g' => r :: yields g'
  | _ => []
  end.

Fixpoint gen_outcome (g : gen) : option exn :=
  match g with
  | GStop => None
  | GYield _ g' => gen_outcome g'
  | GRaise e => Some e
  end.

(** How the iteration over a generator ends. *)
Definition outcome_of (g : gen) : res unit :=
  match gen_outcome g with
  | None => Ok tt
  | Some e => Raise e
  end.

(** The object passed as second signal argument: the command name the
    caller gave, or the API callable found under that name. *)
Inductive cmdref : Type :=
| CmdName (name : string)
| CmdCallable (attr : string).

#[global] Instance cmdref_eq_dec : EqDecision cmdref.
Proof. solve_decision. Defined.

(** The three signals of [GooeyDataladCmdExec].  An event holds the
    arguments as they are when the signal is emitted. *)
Inductive event : Type :=
| ExecutionStarted (thread_id : string) (cmd : cmdref)
                   (args : list argval) (kw : kwargs)
| ResultReceived (r : result)
| ExecutionFinished (thread_id : string) (cmd : cmdref)
                    (args : list argval) (kw : kwargs).

Definition is_finished (ev : event) : bool :=
  match ev with ExecutionFinished _ _ _ _ => true | _ => false end.

Definition is_error_result (ev : event) : bool :=
  match ev with
  | ResultReceived r => bool_decide (r !! "status" = Some (VStr "error"))
  | _ => false
  end.

(** Signals are recorded in emission order. *)
Definition emit (ev : event) : M (list event) unit :=
  modify (fun evs => evs ++ [ev]).

(** [for res in <generator>: self.result_received.emit(res)] *)
Fixpoint emit_results (g : gen) : M (list event) unit :=
  match g with
  | GStop => ret tt
  | GYield r g' => emit (ResultReceived r) ;; emit_results g'
  | GRaise e => raise e
  end.

(** [kwargs['return_type'] = 'generator'] *)
Definition generator_kwargs (kw : kwargs) : kwargs :=
  <["return_type" := AStr "generator"]> kw.

Record task : Type := Task {
  task_cmd : string;
  task_args : list argval;
  task_kwargs : kwargs;
}.

Section Worker.

(** The backend API module: [getattr(dlapi, name)]. *)
Variable dlapi : string -> option (list argval -> kwargs -> gen).
(** [str(threading.get_ident())] of the single worker thread. *)
Variable thread_ident : string.

Definition getattr_dlapi (name : string)
  : M (list event) (cmdref * (list argval -> kwargs -> gen)) :=
  match dlapi name with
  | Some f => ret (CmdCallable name, f)
  | None => raise AttributeError
  end.

(** [GooeyDataladCmdExec._cmdexec_thread].  The local [cmd] is rebound
    to the callable before the call, and it is this binding that the
    final emit reads. *)
Definition _cmdexec_thread (cmd : string) (args : list argval)
    (kw : kwargs) : M (list event) unit :=
  let thread_id := thread_ident in
  emit (ExecutionStarted thread_id (CmdName cmd) args kw) ;;
  '(cmd, call) ← getattr_dlapi cmd;
  let kw := generator_kwargs kw in
  emit_results (call args kw) ;;
  emit (ExecutionFinished thread_id cmd args kw).

(** [GooeyDataladCmdExec.execute]: default the arguments and queue the
    call on the pool; the future is dropped. *)
Definition execute (cmd : string) (args : option (list argval))
    (kw : option kwargs) : M (list task) unit :=
  let args := default [] args in
  let kw := default ∅ kw in
  modify (fun q => q ++ [Task cmd args kw]).





End Worker.

End CmdExec.

(** ** Tree items ([fsbrowser_item.py]) *)

Module Item.

(** Items are referred to by handle. *)
Definition handle : Type := nat.

(** [QTreeWidgetItem.ChildIndicatorPolicy] *)
Inductive indicator_policy : Type :=
| ShowIndicator
| DontShowIndicator
| DontShowIndicatorWhenChildless.

(** The [parent] argument of the constructor. *)
Inductive parent_arg : Type :=
| NoParent
| TreeWidget
| ParentItem (p : handle).

(** One [FSBrowserItem]: the data the Qt base class holds for it (roles
    and columns the code uses, icons by name, flags, child list, parent)
    and the Python attribute [_child_lookup]. *)
Record FSBrowserItem : Type := MkItem {
  pathobj : path;                               (* data(0, PathObjRole) *)
  col_type : pyval;                             (* data(1, EditRole) *)
  col_state : pyval;                            (* data(2, EditRole) *)
  icon0 : option string;
  icon2 : option string;
  disabled : bool;          (* what [setDisabled] was last called with *)
  indicator : indicator_policy;
  children : list handle;
  parent : option handle;
  _child_lookup : option (gmap string handle);
}.

Definition with_type (v : pyval) (it : FSBrowserItem) : FSBrowserItem :=
  MkItem (pathobj it) v (col_state it) (icon0 it) (icon2 it) (disabled it)
         (indicator it) (children it) (parent it) (_child_lookup it).
Definition with_state (v : pyval) (it : FSBrowserItem) : FSBrowserItem :=
  MkItem (pathobj it) (col_type it) v (icon0 it) (icon2 it) (disabled it)
         (indicator it) (children it) (parent it) (_child_lookup it).
Definition with_icon0 (v : option string) (it : FSBrowserItem) :=
  MkItem (pathobj it) (col_type it) (col_state it) v (icon2 it) (disabled it)
         (indicator it) (children it) (parent it) (_child_lookup it).
Definition with_icon2 (v : option string) (it : FSBrowserItem) :=
  MkItem (pathobj it) (col_type it) (col_state it) (icon0 it) v (disabled it)
         (indicator it) (children it) (parent it) (_child_lookup it).
Definition with_disabled (v : bool) (it : FSBrowserItem) :=
  MkItem (pathobj it) (col_type it) (col_state it) (icon0 it) (icon2 it) v
         (indicator it) (children it) (parent it) (_child_lookup it).
Definition with_indicator (v : indicator_policy) (it : FSBrowserItem) :=
  MkItem (pathobj it) (col_type it) (col_state it) (icon0 it) (icon2 it)
         (disabled it) v (children it) (parent it) (_child_lookup it).
Definition with_children (v : list handle) (it : FSBrowserItem) :=
  MkItem (pathobj it) (col_type it) (col_state it) (icon0 it) (icon2 it)
         (disabled it) (indicator it) v (parent it) (_child_lookup it).
Definition with_parent (v : option handle) (it : FSBrowserItem) :=
  MkItem (pathobj it) (col_type it) (col_state it) (icon0 it) (icon2 it)
         (disabled it) (indicator it) (children it) v (_child_lookup it).
Definition with_lookup (v : option (gmap string handle))
    (it : FSBrowserItem) :=
  MkItem (pathobj it) (col_type it) (col_state it) (icon0 it) (icon2 it)
         (disabled it) (indicator it) (children it) (parent it) v.

(** The object store: the items, the next free handle, and the items
    for which [emitDataChanged()] was called, oldest first. *)
Record store : Type := MkStore {
  objs : gmap handle FSBrowserItem;
  next_handle : handle;
  data_changed : list handle;
}.

Definition with_objs (o : gmap handle FSBrowserItem) (st : store) : store :=
  MkStore o (next_handle st) (data_changed st).

Definition load (i : handle) : M store FSBrowserItem :=
  fun st => match objs st !! i with
            | Some it => (Ok it, st)
            | None => (Raise DanglingHandle, st)
            end.

Definition update (i : handle) (f : FSBrowserItem -> FSBrowserItem)
  : M store unit :=
  load i ;; modify (fun st => with_objs (alter f i (objs st)) st).

(** *** The parts of [QTreeWidgetItem] the code relies on *)

Definition childCount (self : handle) : M store nat :=
  it ← load self; ret (length (children it)).

Definition parent_of (self : handle) : M store (option handle) :=
  it ← load self; ret (parent it).

Definition setIcon (self : handle) (column : nat) (icon : option string)
  : M store unit :=
  match column with
  | 0 => update self (with_icon0 icon)
  | 2 => update self (with_icon2 icon)
  | _ => load self ;; ret tt
  end.

(** [setDisabled] records the flag of the item itself.  What
    [isDisabled()] answers depends in Qt on the ancestors of the item as
    well (an item under a disabled parent shows as disabled whatever its
    own flag); the code never asks, and it is not modelled. *)
Definition setDisabled (self : handle) (b : bool) : M store unit :=
  update self (with_disabled b).

Definition setChildIndicatorPolicy (self : handle) (p : indicator_policy)
  : M store unit :=
  update self (with_indicator p).

(** [setData(column, Qt.EditRole, value)] for the type and state
    columns. *)
Definition setData (self : handle) (column : nat) (v : pyval)
  : M store unit :=
  match column with
  | 1 => update self (with_type v)
  | 2 => update self (with_state v)
  | _ => load self ;; ret tt
  end.

Definition emitDataChanged (self : handle) : M store unit :=
  load self ;;
  modify (fun st => MkStore (objs st) (next_handle st)
                            (data_changed st ++ [self])).

(** [QTreeWidgetItem.removeChild]: takes the child out of the child list
    and clears its parent link; nothing happens when it is not a child. *)
Definition qt_removeChild (self item : handle) : M store unit :=
  it ← load self;
  if bool_decide (item ∈ children it)
  then update self (with_children
                      (List.filter (fun c => negb (Nat.eqb c item))
                                   (children it))) ;;
       update item (with_parent None)
  else ret tt.

(** *** [FSBrowserItem] *)

(** [FSBrowserItem(path, parent=...)]: a new item; under a parent item it
    is appended to that item's children. *)
Definition new_item (p : path) (par : parent_arg) : M store handle :=
  match par with ParentItem q => load q ;; ret tt | _ => ret tt end ;;
  st ← get;
  let i := next_handle st in
  let it := MkItem p VNone VNone None None false
                   DontShowIndicatorWhenChildless []
                   (match par with ParentItem q => Some q | _ => None end)
                   None in
  modify (fun st => MkStore (<[i := it]> (objs st)) (S i) (data_changed st)) ;;
  match par with
  | ParentItem q =>
      update q (fun pit => with_children (children pit ++ [i]) pit)
  | _ => ret tt
  end ;;
  ret i.

(** [self.data(column, Qt.EditRole)]: column 0 is the name of the path,
    the others are what the base class stores. *)
Definition data (self : handle) (column : nat) : M store pyval :=
  it ← load self;
  ret (match column with
       | 0 => VStr (path_name (pathobj it))
       | 1 => col_type it
       | 2 => col_state it
       | _ => VNone
       end).

Definition datalad_type (self : handle) : M store pyval := data self 1.

Definition get_pathobj (self : handle) : M store path :=
  it ← load self; ret (pathobj it).

(** [children_()]: the child handles, all taken before the first is
    handed out. *)
Definition children_ (self : handle) : M store (list handle) :=
  it ← load self; ret (children it).

(** The dict comprehension of [__getitem__]: later children win. *)
Fixpoint build_lookup (cs : list handle) (acc : gmap string handle)
  : M store (gmap string handle) :=
  match cs with
  | [] => ret acc
  | c :: cs' =>
      it ← load c;
      build_lookup cs' (<[path_name (pathobj it) := c]> acc)
  end.

(** [self[name]] *)
Definition getitem (self : handle) (name : string)
  : M store (option handle) :=
  it ← load self;
  match _child_lookup it with
  | None =>
      cs ← children_ self;
      lk ← build_lookup cs ∅;
      update self (with_lookup (Some lk)) ;;
      ret (lk !! name)
  | Some lk => ret (lk !! name)
  end.

Definition _register_child (self : handle) (name : string) (item : handle)
  : M store unit :=
  it ← load self;
  let lk := default ∅ (_child_lookup it) in
  update self (with_lookup (Some (<[name := item]> lk))).

(** [removeChild]: the base-class removal runs first, then the name is
    deleted from [_child_lookup]; [del] on [None] is a [TypeError], on a
    missing key a [KeyError]. *)
Definition removeChild (self item : handle) : M store unit :=
  qt_removeChild self item ;;
  p ← get_pathobj item;
  it ← load self;
  match _child_lookup it with
  | None => raise TypeError
  | Some lk =>
      match lk !! path_name p with
      | None => raise KeyError
      | Some _ => update self (with_lookup (Some (delete (path_name p) lk)))
      end
  end.

(** [_getIcon]: the icon is identified by its resource name. *)
Definition icon_mapping (item_type : string) : option string :=
  if String.eqb item_type "dataset" then Some "dataset-closed"
  else if String.eqb item_type "directory" then Some "directory-closed"
  else if String.eqb item_type "file" then Some "file"
  else if String.eqb item_type "file-annex" then Some "file-annex"
  else if String.eqb item_type "file-git" then Some "file-git"
  else if String.eqb item_type "symlink" then Some "file-annex"
  else if String.eqb item_type "untracked" then Some "untracked"
  else if String.eqb item_type "clean" then Some "clean"
  else if String.eqb item_type "modified" then Some "modified"
  else if String.eqb item_type "deleted" then Some "untracked"
  else if String.eqb item_type "unknown" then Some "untracked"
  else if String.eqb item_type "added" then Some "modified"
  else None.

Definition _getIcon (item_type : pyval) : option string :=
  match item_type with
  | VStr s => icon_mapping s
  | VNone => None
  end.

Definition when {S} (b : bool) (m : M S unit) : M S unit :=
  if b then m else ret tt.

(** [update_from_status_result] *)
Definition update_from_status_result (self : handle) (res : result)
  : M store unit :=
  let state := dict_get res "state" in
  let state :=
    if bool_decide (dict_get res "status" = VStr "error")
       && bool_decide (is_Some (res !! "message"))
       && bool_decide (state = VNone)
    then dict_get res "message"
    else state in
  let state_icon :=
    if truthy (dict_get res "key") then "file-git" else "file-annex" in
  when (truthy state)
    (setData self 2 state ;;
     match _getIcon state with
     | Some icon => setIcon self 2 (Some icon)
     | None => ret tt
     end) ;;
  let type_ := dict_get res "type" in
  when (bool_decide (type_ = VStr "file"))
    (setIcon self 0 (_getIcon (VStr state_icon))) ;;
  when (truthy type_) (setData self 1 type_).

Definition _setItemIcons (self : handle) (res : result) : M store unit :=
  item_type ← dict_item res "type";
  if bool_decide (item_type ≠ VStr "file")
  then match _getIcon item_type with
       | Some icon => setIcon self 0 (Some icon)
       | None => ret tt
       end
  else ret tt.

(** [update_from_lsdir_result] *)
Definition update_from_lsdir_result (self : handle) (res : result)
  : M store unit :=
  path_type ← dict_item res "type";
  setData self 1 path_type ;;
  _setItemIcons self res ;;
  if bool_decide (dict_get res "status" = VStr "error")
     && bool_decide (dict_get res "message" = VStr "Permissions denied")
  then
    setDisabled self true ;;
    n ← childCount self;
    when (Nat.eqb n 0) (setChildIndicatorPolicy self DontShowIndicator)
  else
    setDisabled self false ;;
    when (bool_decide (path_type = VStr "directory")
          || bool_decide (path_type = VStr "dataset"))
      (setChildIndicatorPolicy self ShowIndicator) ;;
    when (bool_decide (path_type = VStr "directory"))
      (setData self 2 (VStr "")).

(** [from_lsdir_result]; only a parent that is an [FSBrowserItem] has
    [_register_child]. *)
Definition from_lsdir_result (res : result) (par : parent_arg)
  : M store handle :=
  v ← dict_item res "path";
  p ← match v with
      | VStr s => ret (Path s)
      | VNone => raise TypeError
      end;
  item ← new_item p par;
  match par with
  | ParentItem q => _register_child q (path_name p) item
  | _ => ret tt
  end ;;
  update_from_lsdir_result item res ;;
  ret item.

End Item.

(** ** The file-system browser ([fsbrowser.py]) *)

Module Browser.
Import Item CmdExec.

(** [set.pop()] removes and returns a member.  Which one is the business
    of the set implementation.  Here the choice is a function of the
    members; in CPython it follows the layout of the hash table, which
    the order of arrival shapes where hashes collide, and the place the
    last [pop] stopped at.  Within one drain of the queue the sets met
    are pairwise different, so the pops a real set makes there are those
    of some choice function, and what is proved for every [SetPop]
    holds for them; nothing is said on how the pops of two ticks
    relate. *)
Class SetPop : Type := {
  set_pick : gset handle -> option handle;
  set_pick_elem : forall s x, set_pick s = Some x -> x ∈ s;
  set_pick_nonempty : forall s, set_pick s = None -> s = ∅;
}.

(** What the browser takes from outside this code: the repository
    lookup of [datalad.utils], the file system, and the two
    [FSBrowserItem] methods it calls that [fsbrowser_item.py] does not
    define ([from_path], [update_from]); they act on items only. *)
Class Collaborators : Type := {
  get_dataset_root : path -> option path;
  fs_exists : string -> bool;
  from_path : path -> option bool -> bool -> option bool -> parent_arg
              -> M store handle;
  update_from : handle -> handle -> M store unit;
}.

(** Steps of the browser that leave no mark of their own in its state,
    in the order taken. *)
Inductive action : Type :=
| Drained (item : handle)                  (* taken from the queue *)
| Submitted (cmd : string) (kw : kwargs)   (* execute_dataladcmd.emit *)
| CalledFromPath (p : path) (par : parent_arg)
| CalledUpdateFrom (item newitem : handle).

Definition drained_of (a : action) : option handle :=
  match a with Drained i => Some i | _ => None end.

Record browser : Type := MkBrowser {
  items : store;
  _root_item : handle;
  _annotation_queue : gset handle;
  timer_active : bool;                      (* _annotation_timer *)
  _fswatcher : gset string;                 (* directories of the watcher *)
  expanded : gset handle;                   (* expanded items of the tree *)
  result_received_conns : nat;              (* receivers connected *)
  execution_finished_conns : nat;
  log : list action;
}.

Definition with_items (v : store) (b : browser) : browser :=
  MkBrowser v (_root_item b) (_annotation_queue b) (timer_active b)
            (_fswatcher b) (expanded b) (result_received_conns b)
            (execution_finished_conns b) (log b).
Definition with_queue (v : gset handle) (b : browser) : browser :=
  MkBrowser (items b) (_root_item b) v (timer_active b)
            (_fswatcher b) (expanded b) (result_received_conns b)
            (execution_finished_conns b) (log b).
Definition with_timer (v : bool) (b : browser) : browser :=
  MkBrowser (items b) (_root_item b) (_annotation_queue b) v
            (_fswatcher b) (expanded b) (result_received_conns b)
            (execution_finished_conns b) (log b).
Definition with_watcher (v : gset string) (b : browser) : browser :=
  MkBrowser (items b) (_root_item b) (_annotation_queue b) (timer_active b)
            v (expanded b) (result_received_conns b)
            (execution_finished_conns b) (log b).
Definition with_expanded (v : gset handle) (b : browser) : browser :=
  MkBrowser (items b) (_root_item b) (_annotation_queue b) (timer_active b)
            (_fswatcher b) v (result_received_conns b)
            (execution_finished_conns b) (log b).
Definition with_conns (r f : nat) (b : browser) : browser :=
  MkBrowser (items b) (_root_item b) (_annotation_queue b) (timer_active b)
            (_fswatcher b) (expanded b) r f (log b).
Definition with_log (v : list action) (b : browser) : browser :=
  MkBrowser (items b) (_root_item b) (_annotation_queue b) (timer_active b)
            (_fswatcher b) (expanded b) (result_received_conns b)
            (execution_finished_conns b) v.

(** The browser as [__init__] leaves it, around a root item: empty
    queue, running timer, nothing watched, nothing expanded. *)
Definition new_browser (root : handle) (st : store) : browser :=
  MkBrowser st root ∅ true ∅ ∅ 0 0 [].

(** An item method, run from the browser. *)
Definition on_items {A} (m : M store A) : M browser A :=
  zoom items with_items m.

Definition record (a : action) : M browser unit :=
  modify (fun b => with_log (log b ++ [a]) b).

(** A slot run by a signal: what it raises is reported by the binding
    and goes no further. *)
Definition slot {S A} (m : M S A) : M S unit :=
  fun s => (Ok tt, snd (m s)).

(** [QFileSystemWatcher.addPath]: the path is added when it exists and
    is not watched yet. *)
Definition addPath `{Collaborators} (p : string) : M browser bool :=
  w ← gets _fswatcher;
  if fs_exists p && negb (bool_decide (p ∈ w))
  then modify (with_watcher ({[p]} ∪ w)) ;; ret true
  else ret false.

Definition removePath (p : string) : M browser bool :=
  w ← gets _fswatcher;
  if bool_decide (p ∈ w)
  then modify (with_watcher (w ∖ {[p]})) ;; ret true
  else ret false.

Section Methods.
Context `{Collaborators} `{SetPop}.

Definition call_from_path (p : path) (root : option bool) (children : bool)
    (include_files : option bool) (par : parent_arg) : M browser handle :=
  record (CalledFromPath p par) ;;
  on_items (from_path p root children include_files par).

Definition call_update_from (item newitem : handle) : M browser unit :=
  record (CalledUpdateFrom item newitem) ;;
  on_items (update_from item newitem).

(** [__init__]: the root item comes from [from_path], with the tree
    widget as parent. *)
Definition init (p : path) (st : store) : res browser :=
  match from_path p None false None TreeWidget st with
  | (Ok root, st') => Ok (new_browser root st')
  | (Raise e, _) => Raise e
  end.

Definition _queue_item_for_annotation (item : handle) : M browser unit :=
  modify (fun b => with_queue ({[item]} ∪ _annotation_queue b) b).

Definition _populate_item (item : handle) : M browser unit :=
  n ← on_items (childCount item);
  if Nat.eqb n 0
  then p ← on_items (get_pathobj item);
       call_from_path p (Some false) true (Some true) (ParentItem item) ;;
       _queue_item_for_annotation item
  else ret tt.

(** The inner loop of [_get_item_from_path]: the first child whose name
    is [p]. *)
Fixpoint find_child (p : string) (cs : list handle)
  : M store (option handle) :=
  match cs with
  | [] => ret None
  | child :: cs' =>
      d ← data child 0;
      if bool_decide (VStr p = d) then ret (Some child)
      else find_child p cs'
  end.

(** The outer loop: one level down per part. *)
Fixpoint descend (item : handle) (parts : list string) : M store handle :=
  match parts with
  | [] => ret item
  | p :: parts' =>
      cs ← children_ item;
      found ← find_child p cs;
      match found with
      | Some child => descend child parts'
      | None => raise ValueError
      end
  end.

Definition _get_item_from_path (p : path) : M browser handle :=
  item ← gets _root_item;
  rp ← on_items (get_pathobj item);
  if bool_decide (p = rp) then ret item
  else parts ← relative_to p rp;
       on_items (descend item parts).

Definition _annotate_item (item : handle) (props : result)
  : M browser unit :=
  match props !! "state" with
  | Some state =>
      prev_state ← on_items (data item 2);
      if bool_decide (state ≠ prev_state)
      then on_items (setData item 2 state) ;;
           on_items (emitDataChanged item)
      else ret tt
  | None => ret tt
  end.

(** [item_annotation_available.emit]: the signal is connected to
    [_annotate_item] in [__init__]. *)
Definition emit_item_annotation_available (item : handle) (props : result)
  : M browser unit :=
  slot (_annotate_item item props).

(** The list comprehension [paths_to_investigate]. *)
Fixpoint paths_to_investigate (dsroot : path) (cs : list handle)
  : M store (list path) :=
  match cs with
  | [] => ret []
  | c :: cs' =>
      t ← datalad_type c;
      if bool_decide (t ≠ VStr "directory")
      then p ← get_pathobj c;
           r ← relative_to p dsroot;
           rest ← paths_to_investigate dsroot cs';
           ret (r :: rest)
      else paths_to_investigate dsroot cs'
  end.

(** The body of the [for] loop taken when there is no dataset: only
    items that are not directories are annotated. *)
Definition annotate_untracked (child : handle) : M browser unit :=
  t ← on_items (datalad_type child);
  when (bool_decide (t ≠ VStr "directory"))
    (emit_item_annotation_available child {["state" := VStr "untracked"]}).

(** The body of the [while] loop of [_process_item_annotation_queue],
    for the item just taken from the queue. *)
Definition annotate_queued (item : handle) : M browser unit :=
  ipath ← on_items (get_pathobj item);
  match get_dataset_root ipath with
  | None =>
      cs ← on_items (children_ item);
      for_each cs annotate_untracked
  | Some dsroot =>
      modify (fun b => with_conns (S (result_received_conns b))
                                  (execution_finished_conns b) b) ;;
      modify (fun b => with_conns (result_received_conns b)
                                  (S (execution_finished_conns b)) b) ;;
      cs ← on_items (children_ item);
      paths ← on_items (paths_to_investigate dsroot cs);
      match paths with
      | [] => ret tt
      | _ => record (Submitted "status"
                       (<["dataset" := APath dsroot]>
                          {["path" := APaths paths]}))
      end
  end.

(** [self._annotation_queue.pop()] *)
Definition queue_pop : M browser handle :=
  q ← gets _annotation_queue;
  match set_pick q with
  | Some item => modify (with_queue (q ∖ {[item]})) ;;
                 record (Drained item) ;;
                 ret item
  | None => raise KeyError
  end.

(** The [while] loop, bounded by a number of rounds. *)
Fixpoint drain_queue (fuel : nat) : M browser unit :=
  q ← gets _annotation_queue;
  if bool_decide (q = ∅) then ret tt
  else match fuel with
       | 0 => raise OutOfFuel
       | S fuel' =>
           item ← queue_pop;
           annotate_queued item ;;
           drain_queue fuel'
       end.

Definition _process_item_annotation_queue : M browser unit :=
  q ← gets _annotation_queue;
  if bool_decide (q = ∅) then ret tt
  else modify (with_timer false) ;;
       drain_queue (size q) ;;
       modify (with_timer true).

Definition _status_result_receiver (res : result) : M browser unit :=
  if bool_decide (dict_get res "action" ≠ VStr "status") then ret tt
  else
    match dict_get res "path" with
    | VNone => ret tt
    | VStr path =>
        match dict_get res "state" with
        | VNone => ret tt
        | state =>
            item ← _get_item_from_path (Path path);
            emit_item_annotation_available item {["state" := state]}
        end
    end.

(** [_disconnect_status_result_receiver]: both ways out leave every
    connection in place. *)
Definition _disconnect_status_result_receiver (thread : string)
    (cmdname : cmdref) (args : list argval) : M browser unit :=
  if bool_decide (cmdname ≠ CmdName "status") then ret tt
  else ret tt.

Definition _watch_dir (item : handle) : M browser unit :=
  p ← on_items (get_pathobj item);
  addPath (path_str p) ;; ret tt.

Definition _unwatch_dir (item : handle) : M browser unit :=
  p ← on_items (get_pathobj item);
  removePath (path_str p) ;; ret tt.

Definition _inspect_changed_dir (path : string) : M browser unit :=
  let pathobj := Path path in
  found ← try_except (item ← _get_item_from_path pathobj; ret (Some item))
                     ValueError
                     (removePath path ;; ret None);
  match found with
  | None => ret tt
  | Some item =>
      parent ← on_items (parent_of item);
      when (negb (fs_exists (path_str pathobj)))
        (match parent with
         | None => raise NotImplementedError
         | Some par => on_items (removeChild par item)
         end) ;;
      newitem ← call_from_path pathobj (Some true) true (Some true) NoParent;
      call_update_from item newitem
  end.

(** *** The tree widget

    [itemExpanded] and [itemCollapsed] fire when an item of the tree
    changes between collapsed and expanded; the slots run in the order
    they were connected. *)
Definition tree_expand (item : handle) : M browser unit :=
  on_items (load item) ;;
  e ← gets expanded;
  if bool_decide (item ∈ e) then ret tt
  else modify (with_expanded ({[item]} ∪ e)) ;;
       slot (_watch_dir item) ;;
       slot (_populate_item item).

Definition tree_collapse (item : handle) : M browser unit :=
  on_items (load item) ;;
  e ← gets expanded;
  if bool_decide (item ∈ e)
  then modify (with_expanded (e ∖ {[item]})) ;;
       slot (_unwatch_dir item)
  else ret tt.

Inductive tree_op : Type :=
| Expand (item : handle)
| Collapse (item : handle).

Definition tree_step (op : tree_op) : M browser unit :=
  match op with
  | Expand i => slot (tree_expand i)
  | Collapse i => slot (tree_collapse i)
  end.

Definition tree_run (ops : list tree_op) : M browser unit :=
  for_each ops tree_step.

End Methods.

(** *** One set implementation

    A hash table scanned from its first slot: of the members, the one
    whose hash falls in the lowest of the eight slots comes out first.
    Items hash by identity.  Members that fall in one slot are not told
    apart by their order of arrival, as a real table would; the
    examples have none. *)
Fixpoint least_by (key : handle -> nat) (l : list handle) : option handle :=
  match l with
  | [] => None
  | x :: l' =>
      match least_by key l' with
      | Some y => if Nat.leb (key x) (key y) then Some x else Some y
      | None => Some x
      end
  end.

Definition table_pick (hash : handle -> nat) (s : gset handle)
  : option handle :=
  least_by (fun x => hash x mod 8) (elements s).

End Browser.

(** ** The application ([app.py]) *)

Module App.

(** The widget classes named in [_main_window_widgets]. *)
Inductive widget_class : Type :=
| QAction
| QTreeView
| QPlainTextEdit.

(** [GooeyApp._main_window_widgets.get(name)] *)
Definition _main_window_widgets (name : string) : option widget_class :=
  if String.eqb name "actionRun_stuff" then Some QAction
  else if String.eqb name "filesystemViewer" then Some QTreeView
  else if String.eqb name "logViewer" then Some QPlainTextEdit
  else None.

Section Ui.

(** What comes from Qt: the window [load_ui] builds from a UI
    declaration, and [findChild] on it. *)
Variables window widget : Type.
Variable load_ui : string -> window.
Variable findChild : window -> widget_class -> string -> option widget.

(** The attribute [_main_window] of the application, and the number of
    windows built so far. *)
Record app : Type := MkApp {
  _main_window : option window;
  ui_loads : nat;
}.

(** The property [main_window]. *)
Definition main_window : M app window :=
  a ← get;
  match _main_window a with
  | Some w => ret w
  | None =>
      modify (fun a => MkApp (Some (load_ui "main_window"))
                             (S (ui_loads a))) ;;
      ret (load_ui "main_window")
  end.

Definition get_widget (name : string) : M app widget :=
  match _main_window_widgets name with
  | None => raise ValueError
  | Some wgt_cls =>
      wgt ← (mw ← main_window; ret (findChild mw wgt_cls name));
      match wgt with
      | Some w => ret w
      | None => raise RuntimeError
      end
  end.

End Ui.

End App.

(** ** Constraints ([constraints.py]) *)

Module Constraints.

(** The Python values a constraint is applied to. *)
#[local] Unset Elimination Schemes.
Inductive pyv : Type :=
| PNone
| PBool (b : bool)
| PInt (n : Z)
| PStr (s : string)
| PList (l : list pyv)
| PTuple (l : list pyv)
| PDict (d : list (pyv * pyv)).   (* the items, oldest first *)
#[local] Set Elimination Schemes.

Inductive error : Type :=
| ValueError
| TypeError
| UnboundLocalError
| AttributeError.

Inductive outcome (A : Type) : Type :=
| Returns (a : A)
| Raises (e : error).
Arguments Returns {A} a.
Arguments Raises {A} e.

#[global] Instance outcome_ret : MRet outcome := fun A a => Returns a.
#[global] Instance outcome_bind : MBind outcome :=
  fun A B k m => match m with
                 | Returns a => k a
                 | Raises e => Raises e
                 end.

(** Python truthiness. *)
Definition truthy (v : pyv) : bool :=
  match v with
  | PNone => false
  | PBool b => b
  | PInt n => negb (Z.eqb n 0)
  | PStr s => negb (String.eqb s "")
  | PList l | PTuple l => negb (Nat.eqb (length l) 0)
  | PDict d => negb (Nat.eqb (length d) 0)
  end.

(** [v == s] for a string literal [s]. *)
Definition is_str (v : pyv) (s : string) : bool :=
  match v with
  | PStr t => String.eqb t s
  | _ => false
  end.

(** Lists and dicts cannot be keys of a dict; a tuple can when its
    members can. *)
Fixpoint hashable (v : pyv) : bool :=
  match v with
  | PList _ | PDict _ => false
  | PTuple l =>
      (fix all (l : list pyv) : bool :=
         match l with
         | [] => true
         | x :: l' => hashable x && all l'
         end) l
  | _ => true
  end.

(** [s] without the prefix [p], when it starts with it. *)
Fixpoint drop_prefix (p s : string) : option string :=
  match p, s with
  | EmptyString, _ => Some s
  | String a p', String b s' =>
      if Ascii.eqb a b then drop_prefix p' s' else None
  | String _ _, EmptyString => None
  end.

(** The parts of [s] before and after the first occurrence of [sep]. *)
Fixpoint split_first (sep s : string) : option (string * string) :=
  match drop_prefix sep s with
  | Some rest => Some ("", rest)
  | None =>
      match s with
      | EmptyString => None
      | String c s' =>
          match split_first sep s' with
          | Some (k, v) => Some (String c k, v)
          | None => None
          end
      end
  end.

(** [s.split(sep=sep, maxsplit=1)]; an empty separator is an error. *)
Definition str_split_once (sep s : string) : outcome (list pyv) :=
  if String.eqb sep "" then Raises ValueError
  else match split_first sep s with
       | Some (k, v) => Returns [PStr k; PStr v]
       | None => Returns [PStr s]
       end.

(** [key, val = seq] *)
Definition unpack_pair (l : list pyv) : outcome (pyv * pyv) :=
  match l with
  | [a; b] => Returns (a, b)
  | _ => Raises ValueError
  end.

(** [{key: val}] *)
Definition dict_of (key val : pyv) : outcome pyv :=
  if hashable key then Returns (PDict [(key, val)]) else Raises TypeError.

(** [s[n:]] *)
Fixpoint str_from (n : nat) (s : string) : string :=
  match n, s with
  | 0, _ => s
  | S n', String _ s' => str_from n' s'
  | S _, EmptyString => EmptyString
  end.

(** A result record of a datalad command: a [dict] with string keys. *)
Abbreviation record := (gmap string pyv).

(** [r.get(k)] *)
Definition rget (r : record) (k : string) : pyv := default PNone (r !! k).

(** What the constraints see of a [Dataset]: whether it is installed and
    the records its [siblings] query yields. *)
Record Dataset : Type := MkDataset {
  is_installed : bool;
  siblings : list record;
}.

(** What [constraints.py] takes from datalad and the file system: the
    [__call__] of the two constraint classes it derives from, directory
    tests, and procedure discovery. *)
Class DataladCore : Type := {
  EnsureStr_call : nat -> pyv -> outcome pyv;          (* by [min_len] *)
  EnsureChoice_call : list pyv -> pyv -> outcome pyv;  (* by the choices *)
  is_dir : string -> bool;                             (* [Path(s).is_dir()] *)
  discover_procedures : option Dataset -> list record;
}.

(** The constraint classes: the two of datalad the code builds or
    derives from, and those of [constraints.py], each with the
    attributes its instances hold. *)
Inductive constraint : Type :=
| EnsureStr (min_len : nat)
| EnsureChoice (allowed : list pyv)
| NoConstraint
| EnsureMapping (key value : constraint) (delimiter : string)
| EnsureStrOrNoneWithEmptyIsNone (min_len : nat)
| EnsureDatasetSiblingName (allow_none : bool)
| EnsureConfigProcedureName (allow_none : bool) (allowed : list pyv)
| EnsureExistingDirectory (allow_none : bool).

(** The first part of [EnsureMapping.__call__]: key and value from the
    kinds of input it knows.  For any other kind no branch is taken and
    the names stay unbound. *)
Definition key_and_value (delimiter : string) (value : pyv)
  : outcome (pyv * pyv) :=
  match value with
  | PStr s => parts ← str_split_once delimiter s; unpack_pair parts
  | PDict d =>
      match d with
      | [] => Raises ValueError
      | [item] => Returns item
      | _ => Raises ValueError
      end
  | PList l | PTuple l =>
      if negb (Nat.eqb (length l) 2) then Raises ValueError
      else unpack_pair l
  | _ => Raises UnboundLocalError
  end.

Section Calls.
Context `{DataladCore}.

(** [EnsureStrOrNoneWithEmptyIsNone.__call__] *)
Definition str_or_none (min_len : nat) (value : pyv) : outcome pyv :=
  match value with
  | PNone => Returns PNone
  | _ =>
      v ← EnsureStr_call min_len value;
      Returns (if truthy v then v else PNone)
  end.

(** [EnsureExistingDirectory.__call__]; [Path(value)] takes a string. *)
Definition existing_directory (allow_none : bool) (value : pyv)
  : outcome pyv :=
  match value with
  | PNone => if allow_none then Returns PNone else Raises TypeError
  | PStr s => if is_dir s then Returns value else Raises ValueError
  | _ => Raises TypeError
  end.

(** [c(value)] *)
Fixpoint call (c : constraint) (value : pyv) : outcome pyv :=
  match c with
  | EnsureStr min_len => EnsureStr_call min_len value
  | EnsureChoice allowed => EnsureChoice_call allowed value
  | NoConstraint => Returns value
  | EnsureMapping kc vc delimiter =>
      '(key, val) ← key_and_value delimiter value;
      key ← call kc key;
      val ← call vc val;
      dict_of key val
  | EnsureStrOrNoneWithEmptyIsNone min_len => str_or_none min_len value
  | EnsureDatasetSiblingName allow_none =>
      if allow_none then str_or_none 0 value
      else Raises TypeError     (* [super()(value)]: not callable *)
  | EnsureConfigProcedureName _ allowed => EnsureChoice_call allowed value
  | EnsureExistingDirectory allow_none => existing_directory allow_none value
  end.

(** The generator expression in [EnsureDatasetSiblingName.for_dataset]. *)
Definition sibling_choices (d : Dataset) : list pyv :=
  omap (fun r : record =>
          match r !! "name" with
          | Some name =>
              if is_str (rget r "status") "ok"
                 && is_str (rget r "type") "sibling"
                 && negb (is_str name "here")
              then Some name else None
          | None => None
          end) (siblings d).

(** The loop of [_get_procs_] over the discovered procedures;
    [startswith] is a method of strings only. *)
Fixpoint procedure_names (rs : list record) : outcome (list pyv) :=
  match rs with
  | [] => Returns []
  | r :: rs' =>
      if negb (is_str (rget r "status") "ok") then procedure_names rs'
      else match default (PStr "") (r !! "procedure_name") with
           | PStr name =>
               if String.prefix "cfg_" name
               then rest ← procedure_names rs';
                    Returns (PStr (str_from 4 name) :: rest)
               else procedure_names rs'
           | _ => Raises AttributeError
           end
  end.

Definition _get_procs_ (allow_none : bool) (dataset : option Dataset)
  : outcome (list pyv) :=
  names ← procedure_names (discover_procedures dataset);
  Returns (names ++ if allow_none then [PNone] else []).

(** [EnsureConfigProcedureName(allow_none)] *)
Definition new_EnsureConfigProcedureName (allow_none : bool)
  : outcome constraint :=
  procs ← _get_procs_ allow_none None;
  Returns (EnsureConfigProcedureName allow_none procs).

(** [c.for_dataset(dataset)]; the method patched into [Constraint]
    returns the constraint itself. *)
Fixpoint for_dataset (c : constraint) (dataset : Dataset)
  : outcome constraint :=
  match c with
  | EnsureMapping kc vc delimiter =>
      kc' ← for_dataset kc dataset;
      vc' ← for_dataset vc dataset;
      Returns (EnsureMapping kc' vc' delimiter)
  | EnsureDatasetSiblingName allow_none =>
      if negb (is_installed dataset) then Returns c
      else if allow_none
           then Returns (EnsureChoice (PNone :: sibling_choices dataset))
           else Returns (EnsureChoice (sibling_choices dataset))
  | EnsureConfigProcedureName allow_none _ =>
      if negb (is_installed dataset) then Returns c
      else procs ← _get_procs_ allow_none (Some dataset);
           Returns (EnsureChoice procs)
  | _ => Returns c
  end.

End Calls.

End Constraints.

(** ** Concrete scenes

    Stores built with the constructors of the code, and collaborators
    to run the browser with. *)

Module Scenes.
Import Item CmdExec Browser.

(** A backend whose [status] fails at once. *)
Definition failing_api (name : string)
  : option (list argval -> kwargs -> gen) :=
  if String.eqb name "status"
  then Some (fun _ _ => GRaise (BackendError "boom"))
  else None.

(** A backend whose [status] reports one clean file. *)
Definition clean_api (name : string)
  : option (list argval -> kwargs -> gen) :=
  if String.eqb name "status"
  then Some (fun _ _ =>
         GYield (<["action" := VStr "status"]>
                   (<["path" := VStr "/ds/a.txt"]>
                      {["state" := VStr "clean"]})) GStop)
  else None.

Definition empty_store : store := MkStore ∅ 0 [].

Definition lsdir_result (p t : string) : result :=
  <["path" := VStr p]> {["type" := VStr t]}.

(** [/ds] holding the file [a.txt] and the directory [sub], every item
    made by [from_lsdir_result]: handles 0, 1 and 2. *)
Definition ds_store : store :=
  snd ((root ← from_lsdir_result (lsdir_result "/ds" "directory") TreeWidget;
        from_lsdir_result (lsdir_result "/ds/a.txt" "file") (ParentItem root) ;;
        from_lsdir_result (lsdir_result "/ds/sub" "directory")
                          (ParentItem root)) empty_store).

(** The items of [ds_store]. *)
Definition ds_root : FSBrowserItem :=
  MkItem ["/"; "ds"] (VStr "directory") (VStr "")
         (Some "directory-closed") None false ShowIndicator [1; 2] None
         (Some (<["a.txt" := 1]> {["sub" := 2]})).
Definition ds_file : FSBrowserItem :=
  MkItem ["/"; "ds"; "a.txt"] (VStr "file") VNone None None false
         DontShowIndicatorWhenChildless [] (Some 0) None.
Definition ds_sub : FSBrowserItem :=
  MkItem ["/"; "ds"; "sub"] (VStr "directory") (VStr "")
         (Some "directory-closed") None false ShowIndicator [] (Some 0) None.

(** [/ds] and a child [a.txt] made with the constructor alone: no name
    was ever registered with the parent. *)
Definition bare_store : store :=
  snd ((root ← new_item (Path "/ds") TreeWidget;
        new_item (Path "/ds/a.txt") (ParentItem root)) empty_store).

(** Collaborators of a browser on a tree outside every dataset, all of
    whose paths exist; the two methods [FSBrowserItem] lacks fail as a
    missing attribute does. *)
Definition outside_datasets : Collaborators := {|
  get_dataset_root := fun _ => None;
  fs_exists := fun _ => true;
  from_path := fun _ _ _ _ _ => raise AttributeError;
  update_from := fun _ _ => raise AttributeError;
|}.

(** Collaborators for [ds_store] after [/ds/sub] was deleted on disk.
    The two missing methods are stood in for: [from_path] makes a bare
    item for the path, [update_from] does nothing. *)
Definition sub_deleted : Collaborators := {|
  get_dataset_root := fun _ => None;
  fs_exists := fun p => negb (String.eqb p "/ds/sub");
  from_path := fun p _ _ _ par => new_item p par;
  update_from := fun _ _ => ret tt;
|}.

(** [/ds] holding the directories [A], [B] and [C]: handles 1, 2, 3. *)
Definition abc_store : store :=
  snd ((root ← from_lsdir_result (lsdir_result "/ds" "directory") TreeWidget;
        from_lsdir_result (lsdir_result "/ds/A" "directory")
                          (ParentItem root) ;;
        from_lsdir_result (lsdir_result "/ds/B" "directory")
                          (ParentItem root) ;;
        from_lsdir_result (lsdir_result "/ds/C" "directory")
                          (ParentItem root)) empty_store).

(** The browser on [abc_store] after [x], [y] and [z] were queued, in
    this order. *)
Definition queued (x y z : handle) : browser :=
  snd ((_queue_item_for_annotation x ;;
        _queue_item_for_annotation y ;;
        _queue_item_for_annotation z) (new_browser 0 abc_store)).

End Scenes.

(** ** More scenes

    What the constraints and the tick are run with in the examples. *)

Module MoreScenes.
Import Item CmdExec Browser Constraints Scenes.

(** Stand-ins for the two constraints of datalad: [EnsureStr] accepts
    the strings of at least the minimal length, [EnsureChoice] accepts
    every value; the one directory is [/ds]; one configuration
    procedure and one other procedure are installed. *)
Definition plain_core : DataladCore := {|
  EnsureStr_call := fun min_len v =>
    match v with
    | PStr s => if Nat.leb min_len (String.length s) then Returns v
                else Raises Constraints.ValueError
    | _ => Raises Constraints.ValueError
    end;
  EnsureChoice_call := fun _ v => Returns v;
  is_dir := fun s => String.eqb s "/ds";
  discover_procedures := fun _ =>
    [ <["status" := PStr "ok"]> {["procedure_name" := PStr "cfg_yoda"]};
      <["status" := PStr "ok"]> {["procedure_name" := PStr "setup"]} ];
|}.

Definition sibling (name : string) : Constraints.record :=
  <["name" := PStr name]>
    (<["status" := PStr "ok"]> {["type" := PStr "sibling"]}).

(** An installed dataset with the siblings [origin] and [backup], and
    the dataset itself under the name [here]. *)
Definition sample_dataset : Dataset :=
  MkDataset true [sibling "here"; sibling "origin"; sibling "backup"].

(** Collaborators of a browser on a tree inside the dataset [/ds]. *)
Definition inside_ds : Collaborators := {|
  get_dataset_root := fun _ => Some ["/"; "ds"];
  fs_exists := fun _ => true;
  from_path := fun _ _ _ _ _ => raise Py.AttributeError;
  update_from := fun _ _ => raise Py.AttributeError;
|}.

(** Collaborators for which the dataset root is reported under another
    name than the one the tree was listed under, as happens when the
    root is resolved through a symbolic link. *)
Definition resolved_elsewhere : Collaborators := {|
  get_dataset_root := fun _ => Some ["/"; "real"; "ds"];
  fs_exists := fun _ => true;
  from_path := fun _ _ _ _ _ => raise Py.AttributeError;
  update_from := fun _ _ => raise Py.AttributeError;
|}.

(** Collaborators for [ds_store] after [/ds/sub] was deleted on disk,
    with a listing method that fails as a missing attribute does. *)
Definition sub_vanished : Collaborators := {|
  get_dataset_root := fun _ => None;
  fs_exists := fun p => negb (String.eqb p "/ds/sub");
  from_path := fun _ _ _ _ _ => raise Py.AttributeError;
  update_from := fun _ _ => raise Py.AttributeError;
|}.

(** The browser on [ds_store] with the root queued for annotation. *)
Definition root_queued : browser :=
  snd (_queue_item_for_annotation 0 (new_browser 0 ds_store)).

(** A status record for [/ds/a.txt]. *)
Definition clean_record : Py.result :=
  <["action" := VStr "status"]>
    (<["path" := VStr "/ds/a.txt"]> {["state" := VStr "clean"]}).

End MoreScenes.

(** * Properties *)

(** ** The monad *)

Section MonadFacts.
Context {S : Type}.

Lemma bind_ok {A B} (m : M S A) (k : A -> M S B) s a s' :
  m s = (Ok a, s') -> (x ← m; k x) s = k a s'.
Proof. intros E. unfold mbind, M_bind, bind. by rewrite E. Qed.

Lemma bind_raise {A B} (m : M S A) (k : A -> M S B) s e s' :
  m s = (Raise e, s') -> (x ← m; k x) s = (Raise e, s').
Proof. intros E. unfold mbind, M_bind, bind. by rewrite E. Qed.

Lemma bind_assoc {A B C} (m : M S A) (k : A -> M S B) (h : B -> M S C) s :
  (y ← (x ← m; k x); h y) s = (x ← m; y ← k x; h y) s.
Proof.
  unfold mbind, M_bind, bind. by destruct (m s) as [[a|e] s1].
Qed.

(** Computations that leave one view [f] of the state as it is. *)
Definition keeps {X A} (f : S -> X) (m : M S A) : Prop :=
  forall s, f (snd (m s)) = f s.

Lemma keeps_ret {X A} (f : S -> X) (a : A) : keeps f (ret a).
Proof. by intros s. Qed.

Lemma keeps_raise {X A} (f : S -> X) e : keeps f (raise e : M S A).
Proof. by intros s. Qed.

Lemma keeps_gets {X A} (f : S -> X) (g : S -> A) : keeps f (gets g).
Proof. by intros s. Qed.

Lemma keeps_bind {X A B} (f : S -> X) (m : M S A) (k : A -> M S B) :
  keeps f m -> (forall a, keeps f (k a)) -> keeps f (x ← m; k x).
Proof.
  intros Hm Hk s. unfold mbind, M_bind, bind.
  specialize (Hm s). destruct (m s) as [[a|e] s1]; cbn in Hm.
  - by rewrite Hk.
  - done.
Qed.

Lemma keeps_for_each {X A} (f : S -> X) (l : list A) (g : A -> M S unit) :
  (forall x, keeps f (g x)) -> keeps f (for_each l g).
Proof.
  intros Hg. induction l as [|x l IH]; cbn [for_each].
  - apply keeps_ret.
  - apply (keeps_bind f (g x) (fun _ => for_each l g)); auto.
Qed.

(** Computations that never end with the exception [e]. *)
Definition never_raises {A} (e : exn) (m : M S A) : Prop :=
  forall s, fst (m s) <> Raise e.

Lemma never_raises_ret {A} e (a : A) : never_raises e (ret a).
Proof. by intros s. Qed.

Lemma never_raises_raise {A} e e' :
  e' <> e -> never_raises e (raise e' : M S A).
Proof. intros Hne s. cbn. congruence. Qed.

Lemma never_raises_gets {A} e (g : S -> A) : never_raises e (gets g).
Proof. by intros s. Qed.

Lemma never_raises_modify e (g : S -> S) : never_raises e (modify g).
Proof. by intros s. Qed.

Lemma never_raises_bind {A B} e (m : M S A) (k : A -> M S B) :
  never_raises e m -> (forall a, never_raises e (k a)) ->
  never_raises e (x ← m; k x).
Proof.
  intros Hm Hk s. unfold mbind, M_bind, bind.
  specialize (Hm s). destruct (m s) as [[a|e'] s1]; cbn in Hm.
  - apply Hk.
  - cbn. intros [= ->]. by apply Hm.
Qed.

Lemma never_raises_for_each {A} e (l : list A) (g : A -> M S unit) :
  (forall x, never_raises e (g x)) -> never_raises e (for_each l g).
Proof.
  intros Hg. induction l as [|x l IH]; cbn [for_each].
  - apply never_raises_ret.
  - apply (never_raises_bind e (g x) (fun _ => for_each l g)); auto.
Qed.

(** Computations that leave the state as it is, whatever they return. *)
Definition read_only {A} (m : M S A) : Prop := forall s, snd (m s) = s.

Lemma read_only_ret {A} (a : A) : read_only (ret a).
Proof. by intros s. Qed.

Lemma read_only_raise {A} e : read_only (raise e : M S A).
Proof. by intros s. Qed.

Lemma read_only_gets {A} (f : S -> A) : read_only (gets f).
Proof. by intros s. Qed.

Lemma read_only_bind {A B} (m : M S A) (k : A -> M S B) :
  read_only m -> (forall a, read_only (k a)) -> read_only (x ← m; k x).
Proof.
  intros Hm Hk s. unfold mbind, M_bind, bind.
  specialize (Hm s). destruct (m s) as [[a|e] s1]; cbn in Hm; subst s1.
  - apply Hk.
  - reflexivity.
Qed.

Lemma read_only_run {A} (m : M S A) s :
  read_only m -> m s = (fst (m s), s).
Proof. intros Hm. specialize (Hm s). destruct (m s); cbn in *. by subst. Qed.

End MonadFacts.

(** ** The command executor *)

Module CmdExecFacts.
Import CmdExec Scenes.

(** Iterating the generator emits its records in order and ends as the
    generator ends. *)
Lemma emit_results_run g evs :
  emit_results g evs = (outcome_of g, evs ++ map ResultReceived (yields g)).
Proof.
  revert evs. induction g as [|r g IH|e]; intros evs; simpl.
  - by rewrite app_nil_r.
  - unfold mbind, M_bind, bind, emit, modify. rewrite IH.
    by rewrite <- app_assoc.
  - by rewrite app_nil_r.
Qed.

Section Run.
Variable dlapi : string -> option (list argval -> kwargs -> gen).
Variable tid : string.

(** The run of the worker function for a command the API has. *)
Lemma cmdexec_thread_run cmd args kw call evs :
  dlapi cmd = Some call ->
  _cmdexec_thread dlapi tid cmd args kw evs
  = let g := call args (generator_kwargs kw) in
    let started := ExecutionStarted tid (CmdName cmd) args kw in
    let results := map ResultReceived (yields g) in
    match gen_outcome g with
    | None =>
        (Ok tt,
         evs ++ started :: results
             ++ [ExecutionFinished tid (CmdCallable cmd) args
                                   (generator_kwargs kw)])
    | Some e => (Raise e, evs ++ started :: results)
    end.
Proof.
  intros Hcmd. unfold _cmdexec_thread, getattr_dlapi. rewrite Hcmd.
  unfold mbind, M_bind, bind, emit, modify, ret. cbn.
  rewrite emit_results_run. unfold outcome_of, generator_kwargs.
  destruct (gen_outcome _); cbn.
  - by rewrite <- app_assoc.
  - by rewrite <- !app_assoc.
Qed.

Lemma existsb_finished_results l :
  existsb is_finished (map ResultReceived l) = false.
Proof. induction l; simpl; auto. Qed.

(** C1 (as the code has it): when the backend command raises, the
    worker function ends with that exception; what it has emitted by
    then is the Started signal followed by the records the backend
    itself produced before failing.  No record is made up for the
    failure and no Finished signal is emitted. *)
Theorem raising_backend_ends_without_finished cmd args kw call e evs :
  dlapi cmd = Some call ->
  gen_outcome (call args (generator_kwargs kw)) = Some e ->
  let emitted :=
    ExecutionStarted tid (CmdName cmd) args kw
      :: map ResultReceived (yields (call args (generator_kwargs kw))) in
  _cmdexec_thread dlapi tid cmd args kw evs = (Raise e, evs ++ emitted)
  /\ existsb is_finished emitted = false.
Proof.
  intros Hcmd Hg. split.
  - rewrite (cmdexec_thread_run _ _ _ _ _ Hcmd). cbn zeta. by rewrite Hg.
  - cbn. apply existsb_finished_results.
Qed.

(** C5 (what the code does): when the backend command runs to its end,
    the Finished signal has the thread id of the Started signal, but
    its command argument is the API callable, not the name the Started
    signal carried; the two are different objects. *)
Theorem finished_carries_callable cmd args kw call evs :
  dlapi cmd = Some call ->
  gen_outcome (call args (generator_kwargs kw)) = None ->
  exists results,
    snd (_cmdexec_thread dlapi tid cmd args kw evs)
    = evs ++ ExecutionStarted tid (CmdName cmd) args kw
          :: map ResultReceived results
          ++ [ExecutionFinished tid (CmdCallable cmd) args
                                (generator_kwargs kw)]
    /\ CmdCallable cmd <> CmdName cmd.
Proof.
  intros Hcmd Hg. exists (yields (call args (generator_kwargs kw))).
  split; [|discriminate].
  rewrite (cmdexec_thread_run _ _ _ _ _ Hcmd). cbn zeta. by rewrite Hg.
Qed.

End Run.

Lemma raising_backend_ends_without_finished_witness :
  failing_api "status" = Some (fun _ _ => GRaise (BackendError "boom"))
  /\ _cmdexec_thread failing_api "7" "status" [] ∅ []
     = (Raise (BackendError "boom"),
        [ExecutionStarted "7" (CmdName "status") [] ∅]).
Proof.
  split; [reflexivity|].
  apply (raising_backend_ends_without_finished failing_api "7" "status"
           [] ∅ (fun _ _ => GRaise (BackendError "boom"))
           (BackendError "boom") []); reflexivity.
Defined.

(** C1 (as stated) fails: with a backend that raises, the signals of
    the submission hold neither an error record nor Finished. *)
Lemma raising_backend_counterexample :
  let evs := snd (_cmdexec_thread failing_api "7" "status" [] ∅ []) in
  ~ (existsb is_error_result evs = true /\ existsb is_finished evs = true).
Proof. vm_compute. intros [? _]. discriminate. Qed.

Lemma finished_carries_callable_witness :
  clean_api "status" <> None
  /\ exists results,
       snd (_cmdexec_thread clean_api "7" "status" []
              {["dataset" := APath ["/"; "ds"]]} [])
       = [] ++ ExecutionStarted "7" (CmdName "status") []
                 {["dataset" := APath ["/"; "ds"]]}
          :: map ResultReceived results
          ++ [ExecutionFinished "7" (CmdCallable "status") []
                (generator_kwargs {["dataset" := APath ["/"; "ds"]]})]
       /\ CmdCallable "status" <> CmdName "status".
Proof.
  split; [discriminate|].
  eapply (finished_carries_callable clean_api "7" "status"); reflexivity.
Defined.

End CmdExecFacts.

(** ** Tree items *)

Module ItemFacts.
Import Item Scenes.

Lemma load_ok i it st :
  objs st !! i = Some it -> load i st = (Ok it, st).
Proof. intros E. unfold load. by rewrite E. Qed.

Lemma load_dangling i st :
  objs st !! i = None -> load i st = (Raise DanglingHandle, st).
Proof. intros E. unfold load. by rewrite E. Qed.

Lemma update_ok i f it st :
  objs st !! i = Some it ->
  update i f st = (Ok tt, with_objs (alter f i (objs st)) st).
Proof.
  intros E. unfold update. by rewrite (bind_ok _ _ _ _ _ (load_ok _ _ _ E)).
Qed.

Lemma get_pathobj_ok i it st :
  objs st !! i = Some it -> get_pathobj i st = (Ok (pathobj it), st).
Proof.
  intros E. unfold get_pathobj.
  by rewrite (bind_ok _ _ _ _ _ (load_ok _ _ _ E)).
Qed.

Lemma not_elem_of_filter_out (item : handle) (l : list handle) :
  item ∉ (List.filter (fun c => negb (Nat.eqb c item)) l).
Proof.
  rewrite list_elem_of_In, filter_In. intros [_ Hn].
  by rewrite Nat.eqb_refl in Hn.
Qed.

(** The base-class removal never fails on live items; afterwards the
    item is not among the children, and paths and lookup are as
    before. *)
Lemma qt_removeChild_run self item st pit cit :
  objs st !! self = Some pit ->
  objs st !! item = Some cit ->
  exists st' pit' cit',
    qt_removeChild self item st = (Ok tt, st')
    /\ objs st' !! self = Some pit'
    /\ (item ∉ children pit')
    /\ _child_lookup pit' = _child_lookup pit
    /\ objs st' !! item = Some cit'
    /\ pathobj cit' = pathobj cit.
Proof.
  intros Hs Hi. unfold qt_removeChild.
  rewrite (bind_ok _ _ _ _ _ (load_ok _ _ _ Hs)).
  case_bool_decide as Hin.
  - set (f := with_children _).
    rewrite (bind_ok _ _ _ _ _ (update_ok _ f _ _ Hs)).
    assert (Hi1 : objs (with_objs (alter f self (objs st)) st) !! item
                  = Some (if decide (self = item) then f cit else cit)).
    { cbn. rewrite lookup_alter. destruct (decide (self = item)) as [->|].
      - by rewrite Hi.
      - done. }
    rewrite (update_ok _ _ _ _ Hi1).
    destruct (decide (self = item)) as [->|Hne].
    + assert (pit = cit) as -> by congruence.
      exists (with_objs (alter (with_parent None) item
                           (alter f item (objs st))) st),
             (with_parent None (f cit)), (with_parent None (f cit)).
      cbn. rewrite !lookup_alter_eq, Hi. cbn.
      repeat split; auto using not_elem_of_filter_out.
    + exists (with_objs (alter (with_parent None) item
                           (alter f self (objs st))) st),
             (f pit), (with_parent None cit).
      cbn. rewrite lookup_alter_ne, !lookup_alter_eq, lookup_alter_ne by done.
      rewrite Hs, Hi. cbn.
      repeat split; auto using not_elem_of_filter_out.
  - exists st, pit, cit. repeat split; auto.
Qed.

(** C10 (as the code has it): [removeChild] ends without an exception
    exactly when the name of the child is a key of the parent's
    [_child_lookup]; on a lookup that was never built it raises
    [TypeError], on one without the name [KeyError].  In all three
    cases the child has been taken out of the parent's child list by
    then: the exception comes after the detaching, not in its place. *)
Theorem removeChild_raises_after_detaching self item st pit cit :
  objs st !! self = Some pit ->
  objs st !! item = Some cit ->
  let name := path_name (pathobj cit) in
  exists st' pit',
    objs st' !! self = Some pit'
    /\ (item ∉ children pit')
    /\ match _child_lookup pit with
       | None =>
           removeChild self item st = (Raise TypeError, st')
           /\ _child_lookup pit' = None
       | Some lk =>
           match lk !! name with
           | None =>
               removeChild self item st = (Raise KeyError, st')
               /\ _child_lookup pit' = Some lk
           | Some _ =>
               removeChild self item st = (Ok tt, st')
               /\ _child_lookup pit' = Some (delete name lk)
           end
       end.
Proof.
  intros Hs Hi name.
  destruct (qt_removeChild_run _ _ _ _ _ Hs Hi)
    as (st1 & pit1 & cit1 & Hrun & Hs1 & Hout & Hlk & Hi1 & Hp).
  unfold removeChild.
  rewrite (bind_ok _ _ _ _ _ Hrun).
  rewrite (bind_ok _ _ _ _ _ (get_pathobj_ok _ _ _ Hi1)).
  rewrite (bind_ok _ _ _ _ _ (load_ok _ _ _ Hs1)).
  rewrite Hlk, Hp. fold name.
  destruct (_child_lookup pit) as [lk|] eqn:Elk.
  - destruct (lk !! name) eqn:En.
    + rewrite (update_ok _ _ _ _ Hs1).
      eexists _, _. split; [|split; [|split; [reflexivity|]]].
      * cbn. rewrite lookup_alter_eq, Hs1. reflexivity.
      * exact Hout.
      * reflexivity.
    + exists st1, pit1. auto.
  - exists st1, pit1. auto.
Qed.

Lemma removeChild_raises_after_detaching_witness :
  exists st' pit',
    objs st' !! 0 = Some pit'
    /\ (1 ∉ children pit')
    /\ removeChild 0 1 bare_store = (Raise TypeError, st')
    /\ _child_lookup pit' = None.
Proof.
  exact (removeChild_raises_after_detaching 0 1 bare_store
           (MkItem ["/"; "ds"] VNone VNone None None false
                   DontShowIndicatorWhenChildless [1] None None)
           (MkItem ["/"; "ds"; "a.txt"] VNone VNone None None false
                   DontShowIndicatorWhenChildless [] (Some 0) None)
           eq_refl eq_refl).
Defined.

(** C10 (as stated) fails: on a parent whose lookup was never built,
    [removeChild] raises, but the child is gone from the parent's child
    list all the same. *)
Lemma removeChild_counterexample :
  fst (removeChild 0 1 bare_store) = Raise TypeError
  /\ (children <$> objs bare_store !! 0) = Some [1]
  /\ ~ (exists pit, objs (snd (removeChild 0 1 bare_store)) !! 0 = Some pit
                    /\ 1 ∈ children pit).
Proof.
  split; [reflexivity|]. split; [reflexivity|].
  intros (pit & Hpit & Hin).
  vm_compute in Hpit. injection Hpit as <-. cbn in Hin.
  by apply elem_of_nil in Hin.
Qed.

End ItemFacts.

(** ** The browser *)

Module BrowserFacts.
Import Item CmdExec Browser Scenes ItemFacts.

Lemma with_items_id b : with_items (items b) b = b.
Proof. by destruct b. Qed.

Lemma with_state_id it : with_state (col_state it) it = it.
Proof. by destruct it. Qed.

Lemma on_items_run {A} (m : M store A) b r st' :
  m (items b) = (r, st') -> on_items m b = (r, with_items st' b).
Proof. unfold on_items, zoom. by intros ->. Qed.

Lemma data_ok i it column st :
  objs st !! i = Some it ->
  data i column st
  = (Ok (match column with
         | 0 => VStr (path_name (pathobj it))
         | 1 => col_type it
         | 2 => col_state it
         | _ => VNone
         end), st).
Proof.
  intros E. unfold data. by rewrite (bind_ok _ _ _ _ _ (load_ok _ _ _ E)).
Qed.

Lemma children_ok i it st :
  objs st !! i = Some it -> children_ i st = (Ok (children it), st).
Proof.
  intros E. unfold children_.
  by rewrite (bind_ok _ _ _ _ _ (load_ok _ _ _ E)).
Qed.

Lemma emitDataChanged_ok i it st :
  objs st !! i = Some it ->
  emitDataChanged i st
  = (Ok tt, MkStore (objs st) (next_handle st) (data_changed st ++ [i])).
Proof.
  intros E. unfold emitDataChanged.
  by rewrite (bind_ok _ _ _ _ _ (load_ok _ _ _ E)).
Qed.

(** One run of [_annotate_item] with a [state] property, on a live
    item. *)
Lemma annotate_item_run item it state b :
  objs (items b) !! item = Some it ->
  _annotate_item item {["state" := state]} b
  = (Ok tt,
     if decide (state = col_state it) then b
     else with_items
            (MkStore (alter (with_state state) item (objs (items b)))
                     (next_handle (items b))
                     (data_changed (items b) ++ [item])) b).
Proof.
  intros E. unfold _annotate_item. rewrite lookup_singleton_eq.
  rewrite (bind_ok _ _ _ _ _ (on_items_run _ _ _ _ (data_ok _ _ 2 _ E))).
  rewrite with_items_id.
  case_bool_decide as Hne; destruct (decide (state = col_state it)); try done.
  rewrite (bind_ok _ _ _ _ _
             (on_items_run _ _ _ _ (update_ok _ (with_state state) _ _ E))).
  assert (E' : objs (items (with_items
                 (with_objs (alter (with_state state) item (objs (items b)))
                            (items b)) b)) !! item
               = Some (with_state state it)).
  { cbn. by rewrite lookup_alter_eq, E. }
  rewrite (on_items_run _ _ _ _ (emitDataChanged_ok _ _ _ E')).
  reflexivity.
Qed.

(** C7: applying a status to a live item always returns; when the new
    state differs from the one shown, the item takes it and exactly one
    change is signalled for it, otherwise nothing at all changes; and
    applying the same properties once more changes nothing and signals
    nothing. *)
Theorem annotate_item_only_on_change item it state b :
  objs (items b) !! item = Some it ->
  let props : result := {["state" := state]} in
  let b1 := snd (_annotate_item item props b) in
  fst (_annotate_item item props b) = Ok tt
  /\ (state <> col_state it ->
        objs (items b1) !! item = Some (with_state state it)
        /\ data_changed (items b1) = data_changed (items b) ++ [item])
  /\ (state = col_state it -> b1 = b)
  /\ _annotate_item item props b1 = (Ok tt, b1).
Proof.
  intros E props b1. subst props b1.
  rewrite (annotate_item_run _ _ _ _ E). cbn [fst snd].
  split; [reflexivity|].
  destruct (decide (state = col_state it)) as [Heq|Hne].
  - split; [done|]. split; [done|].
    rewrite (annotate_item_run _ _ _ _ E). by rewrite decide_True.
  - split.
    { intros _. cbn. by rewrite lookup_alter_eq, E. }
    split; [done|].
    erewrite annotate_item_run
      by (cbn; rewrite lookup_alter_eq, E; reflexivity).
    by rewrite decide_True.
Qed.

Lemma annotate_item_only_on_change_witness :
  let b := new_browser 0 ds_store in
  let props : result := {["state" := VStr "clean"]} in
  let b1 := snd (_annotate_item 1 props b) in
  objs (items b) !! 1 = Some ds_file
  /\ fst (_annotate_item 1 props b) = Ok tt
  /\ (VStr "clean" <> col_state ds_file ->
        objs (items b1) !! 1 = Some (with_state (VStr "clean") ds_file)
        /\ data_changed (items b1) = data_changed (items b) ++ [1])
  /\ (VStr "clean" = col_state ds_file -> b1 = b)
  /\ _annotate_item 1 props b1 = (Ok tt, b1).
Proof.
  intros b props b1. split; [vm_compute; reflexivity|].
  apply (annotate_item_only_on_change 1 ds_file (VStr "clean") b).
  vm_compute; reflexivity.
Defined.

(** What the no-dataset branch does to one item. *)
Definition untracked_unless_directory (it : FSBrowserItem) : FSBrowserItem :=
  if decide (col_type it = VStr "directory") then it
  else with_state (VStr "untracked") it.

Lemma untracked_unless_directory_idemp it :
  untracked_unless_directory (untracked_unless_directory it)
  = untracked_unless_directory it.
Proof.
  unfold untracked_unless_directory.
  destruct (decide (col_type it = _)) as [Hd|Hd].
  - by rewrite decide_True.
  - cbn. by rewrite decide_False.
Qed.

Lemma annotate_untracked_run c cit b :
  objs (items b) !! c = Some cit ->
  exists st',
    annotate_untracked c b = (Ok tt, with_items st' b)
    /\ forall i,
         objs st' !! i
         = (fun it => if decide (i = c) then untracked_unless_directory it
                      else it) <$> objs (items b) !! i.
Proof.
  intros E. unfold annotate_untracked, datalad_type.
  rewrite (bind_ok _ _ _ _ _ (on_items_run _ _ _ _ (data_ok _ _ 1 _ E))).
  rewrite with_items_id.
  assert (Hsame : forall f : FSBrowserItem -> FSBrowserItem,
             f cit = cit ->
             forall i, objs (items b) !! i
                       = (fun it => if decide (i = c) then f it else it)
                           <$> objs (items b) !! i).
  { intros f Hf i. destruct (decide (i = c)) as [->|].
    - rewrite E. cbn. by rewrite Hf.
    - by destruct (objs (items b) !! i). }
  case_bool_decide as Ht; cbn [when].
  - unfold emit_item_annotation_available, slot.
    rewrite (annotate_item_run _ _ _ _ E). cbn [snd].
    destruct (decide (VStr "untracked" = col_state cit)) as [Hs|Hs].
    + exists (items b). rewrite with_items_id. split; [done|].
      apply Hsame. unfold untracked_unless_directory.
      rewrite decide_False by done. rewrite Hs. apply with_state_id.
    + eexists. split; [reflexivity|]. intros i. cbn [objs items with_items].
      rewrite lookup_alter. destruct (decide (c = i)) as [->|Hne].
      * rewrite E. cbn [fmap option_fmap option_map].
        rewrite decide_True by done.
        unfold untracked_unless_directory. by rewrite decide_False.
      * destruct (objs (items b) !! i); cbn [fmap option_fmap option_map];
          [rewrite decide_False by done|]; done.
  - exists (items b). rewrite with_items_id. split; [done|].
    apply Hsame. unfold untracked_unless_directory.
    by rewrite decide_True.
Qed.

Lemma annotate_untracked_loop cs : forall b,
  (forall c, c ∈ cs -> is_Some (objs (items b) !! c)) ->
  exists st',
    for_each cs annotate_untracked b = (Ok tt, with_items st' b)
    /\ forall i,
         objs st' !! i
         = (fun it => if decide (i ∈ cs) then untracked_unless_directory it
                      else it) <$> objs (items b) !! i.
Proof.
  induction cs as [|c cs IH]; intros b Hlive.
  - exists (items b). rewrite with_items_id. split; [done|].
    intros i. destruct (objs (items b) !! i); [cbn|done].
    by rewrite decide_False by apply not_elem_of_nil.
  - destruct (Hlive c) as [cit E]; [by left|].
    destruct (annotate_untracked_run _ _ _ E) as (st1 & Hrun & Hst1).
    destruct (IH (with_items st1 b)) as (st2 & Hrest & Hst2).
    { intros c' Hc'. cbn. rewrite Hst1.
      apply fmap_is_Some, Hlive. by right. }
    exists st2. split.
    + cbn [for_each]. unfold bind. rewrite Hrun. exact Hrest.
    + intros i. rewrite Hst2. cbn. rewrite Hst1.
      destruct (objs (items b) !! i) as [it|]; [cbn|done]. f_equal.
      destruct (decide (i = c)) as [->|Hne].
      * rewrite (decide_True (P := c ∈ c :: cs)) by left.
        destruct (decide (c ∈ cs));
          auto using untracked_unless_directory_idemp.
      * destruct (decide (i ∈ cs)) as [Hin|Hin].
        -- rewrite decide_True by (by right). done.
        -- rewrite decide_False; [done|].
           intros [?|?]%elem_of_cons; done.
Qed.

Section Annotation.
Context `{Collaborators}.

(** C6: for a queued item outside every dataset, whose children are
    live, the loop body returns; it changes nothing but the items, so
    no command is submitted and nothing is connected; every child that
    is not a directory ends with state [untracked], and every directory
    child is exactly as before. *)
Theorem no_dataset_marks_children_untracked item it b :
  objs (items b) !! item = Some it ->
  get_dataset_root (pathobj it) = None ->
  (forall c, c ∈ children it -> is_Some (objs (items b) !! c)) ->
  exists st',
    annotate_queued item b = (Ok tt, with_items st' b)
    /\ log (with_items st' b) = log b
    /\ forall c cit,
         c ∈ children it ->
         objs (items b) !! c = Some cit ->
         objs st' !! c
         = Some (if decide (col_type cit = VStr "directory") then cit
                 else with_state (VStr "untracked") cit).
Proof.
  intros E Hroot Hlive. unfold annotate_queued.
  rewrite (bind_ok _ _ _ _ _ (on_items_run _ _ _ _ (get_pathobj_ok _ _ _ E))).
  rewrite with_items_id, Hroot.
  rewrite (bind_ok _ _ _ _ _ (on_items_run _ _ _ _ (children_ok _ _ _ E))).
  rewrite with_items_id.
  destruct (annotate_untracked_loop _ _ Hlive) as (st' & Hrun & Hst').
  exists st'. split; [exact Hrun|]. split; [reflexivity|].
  intros c cit Hc Ec. rewrite Hst', Ec. cbn.
  by rewrite decide_True.
Qed.

End Annotation.

Lemma no_dataset_marks_children_untracked_witness :
  let b := new_browser 0 ds_store in
  objs (items b) !! 0 = Some ds_root
  /\ exists st',
       annotate_queued (H := outside_datasets) 0 b
       = (Ok tt, with_items st' b)
       /\ log (with_items st' b) = log b
       /\ forall c cit,
            c ∈ children ds_root ->
            objs (items b) !! c = Some cit ->
            objs st' !! c
            = Some (if decide (col_type cit = VStr "directory") then cit
                    else with_state (VStr "untracked") cit).
Proof.
  intros b. split; [vm_compute; reflexivity|].
  apply (no_dataset_marks_children_untracked (H := outside_datasets)
           0 ds_root b).
  - vm_compute; reflexivity.
  - reflexivity.
  - intros c Hc. cbn in Hc. set_unfold.
    destruct Hc as [->|[->|[]]]; eexists; vm_compute; reflexivity.
Defined.

(** *** Looking up an item by path reads and never writes *)

Lemma read_only_load i : read_only (load i).
Proof. intros st. unfold load. by destruct (objs st !! i). Qed.

Lemma read_only_data i column : read_only (data i column).
Proof.
  apply read_only_bind; [apply read_only_load|].
  intros it. apply read_only_ret.
Qed.

Lemma read_only_children_ i : read_only (children_ i).
Proof.
  apply read_only_bind; [apply read_only_load|].
  intros it. apply read_only_ret.
Qed.

Lemma read_only_get_pathobj i : read_only (get_pathobj i).
Proof.
  apply read_only_bind; [apply read_only_load|].
  intros it. apply read_only_ret.
Qed.

Lemma read_only_childCount i : read_only (childCount i).
Proof.
  apply read_only_bind; [apply read_only_load|].
  intros it. apply read_only_ret.
Qed.

Lemma read_only_find_child p cs : read_only (find_child p cs).
Proof.
  induction cs as [|c cs IH]; cbn [find_child].
  - apply read_only_ret.
  - apply read_only_bind; [apply read_only_data|].
    intros d. case_bool_decide; [apply read_only_ret|apply IH].
Qed.

Lemma read_only_descend parts : forall item, read_only (descend item parts).
Proof.
  induction parts as [|p parts IH]; intros item; cbn [descend].
  - apply read_only_ret.
  - apply read_only_bind; [apply read_only_children_|]. intros cs.
    apply read_only_bind; [apply read_only_find_child|].
    intros [child|]; [apply IH|apply read_only_raise].
Qed.

Lemma read_only_on_items {A} (m : M store A) :
  read_only m -> read_only (on_items m).
Proof.
  intros Hm b. unfold on_items, zoom. specialize (Hm (items b)).
  destruct (m (items b)) as [r st]. cbn in *. subst. apply with_items_id.
Qed.

Lemma read_only_relative_to {S} (p base : path) :
  read_only (relative_to p base : M S path).
Proof.
  unfold relative_to. destruct (strip_prefix base p);
    [apply read_only_ret|apply read_only_raise].
Qed.

Lemma read_only_get_item_from_path p : read_only (_get_item_from_path p).
Proof.
  apply read_only_bind; [apply read_only_gets|]. intros item.
  apply read_only_bind;
    [apply read_only_on_items, read_only_get_pathobj|]. intros rp.
  case_bool_decide; [apply read_only_ret|].
  apply read_only_bind; [apply read_only_relative_to|]. intros parts.
  apply read_only_on_items, read_only_descend.
Qed.

(** C2 (what the code does): a status record with a path and a state
    whose path has no item in the tree makes the receiver end with the
    [ValueError] of the lookup; no item is touched, but the exception
    is not caught. *)
Theorem status_receiver_raises_on_lost_node res p state b :
  dict_get res "action" = VStr "status" ->
  dict_get res "path" = VStr p ->
  dict_get res "state" = VStr state ->
  fst (_get_item_from_path (Path p) b) = Raise ValueError ->
  _status_result_receiver res b = (Raise ValueError, b).
Proof.
  intros Ha Hp Hs Hlost. unfold _status_result_receiver.
  rewrite Ha, Hp, Hs. rewrite bool_decide_false by (intros Hne; by apply Hne).
  apply bind_raise.
  rewrite (read_only_run _ _ (read_only_get_item_from_path (Path p))).
  by rewrite Hlost.
Qed.

Lemma status_receiver_raises_on_lost_node_witness :
  let res : result :=
    <["action" := VStr "status"]>
      (<["path" := VStr "/ds/gone.txt"]> {["state" := VStr "clean"]}) in
  let b := new_browser 0 ds_store in
  fst (_get_item_from_path (Path "/ds/gone.txt") b) = Raise ValueError
  /\ _status_result_receiver res b = (Raise ValueError, b).
Proof.
  intros res b. split; [vm_compute; reflexivity|].
  apply (status_receiver_raises_on_lost_node res "/ds/gone.txt" "clean" b);
    vm_compute; reflexivity.
Defined.

(** A record whose path has an item is applied to that item. *)
Lemma status_receiver_applies_on_found_node res p state item b :
  dict_get res "action" = VStr "status" ->
  dict_get res "path" = VStr p ->
  dict_get res "state" = VStr state ->
  fst (_get_item_from_path (Path p) b) = Ok item ->
  _status_result_receiver res b
  = emit_item_annotation_available item {["state" := VStr state]} b.
Proof.
  intros Ha Hp Hs Hfound. unfold _status_result_receiver.
  rewrite Ha, Hp, Hs. rewrite bool_decide_false by (intros Hne; by apply Hne).
  rewrite (bind_ok (_get_item_from_path (Path p)) _ b item b);
    [reflexivity|].
  rewrite (read_only_run _ _ (read_only_get_item_from_path (Path p))).
  by rewrite Hfound.
Qed.

(** *** Status records without a state *)

(** Item methods that return and leave the state column of [i] as it
    was. *)
Definition keeps_state (i : handle) (m : M store unit) : Prop :=
  forall st it,
    objs st !! i = Some it ->
    exists st' it',
      m st = (Ok tt, st')
      /\ objs st' !! i = Some it'
      /\ col_state it' = col_state it.

Lemma keeps_state_ret i : keeps_state i (ret tt).
Proof. intros st it E. by exists st, it. Qed.

Lemma keeps_state_seq i (m1 m2 : M store unit) :
  keeps_state i m1 -> keeps_state i m2 -> keeps_state i (m1 ;; m2).
Proof.
  intros H1 H2 st it E.
  destruct (H1 _ _ E) as (st1 & it1 & R1 & E1 & S1).
  destruct (H2 _ _ E1) as (st2 & it2 & R2 & E2 & S2).
  exists st2, it2. rewrite (bind_ok _ _ _ _ _ R1). by rewrite S2.
Qed.

Lemma keeps_state_when i c m :
  keeps_state i m -> keeps_state i (when c m).
Proof. destruct c; [done|]. intros _. apply keeps_state_ret. Qed.

Lemma keeps_state_update i f :
  (forall it, col_state (f it) = col_state it) ->
  keeps_state i (update i f).
Proof.
  intros Hf st it E. eexists _, (f it).
  rewrite (update_ok _ _ _ _ E). split; [reflexivity|]. split; [|apply Hf].
  cbn. by rewrite lookup_alter_eq, E.
Qed.

Lemma keeps_state_setIcon i column icon :
  keeps_state i (setIcon i column icon).
Proof.
  destruct column as [|[|[|n]]]; cbn [setIcon];
    try (by apply keeps_state_update);
    intros st it E; exists st, it;
    by rewrite (bind_ok _ _ _ _ _ (load_ok _ _ _ E)).
Qed.

Lemma keeps_state_setData_type i v : keeps_state i (setData i 1 v).
Proof. by apply keeps_state_update. Qed.

(** C8 (as the code has it): [update_from_status_result], given a
    record without state whose status is [error] and whose message is a
    non-empty text, makes that text the state of the item.  The
    receiver of status results does not come that far: a record without
    state is dropped there and the browser stays as it is. *)
Theorem error_message_is_state_label_outside_receiver
    self it res msg st b :
  objs st !! self = Some it ->
  dict_get res "state" = VNone ->
  dict_get res "status" = VStr "error" ->
  res !! "message" = Some (VStr msg) ->
  msg <> "" ->
  (exists st' it',
     update_from_status_result self res st = (Ok tt, st')
     /\ objs st' !! self = Some it'
     /\ col_state it' = VStr msg)
  /\ _status_result_receiver res b = (Ok tt, b).
Proof.
  intros E Hstate Hstatus Hmsg Hne. split.
  - unfold update_from_status_result.
    rewrite Hstate, Hstatus.
    rewrite (bool_decide_true (VStr "error" = VStr "error")) by done.
    rewrite (bool_decide_true (is_Some (res !! "message")))
      by (rewrite Hmsg; eauto).
    rewrite (bool_decide_true (VNone = VNone)) by done.
    assert (Hget : dict_get res "message" = VStr msg).
    { unfold dict_get. by rewrite Hmsg. }
    cbn [andb]. rewrite Hget. cbn [truthy].
    assert (negb (String.eqb msg "") = true) as ->.
    { apply negb_true_iff, String.eqb_neq, Hne. }
    cbn [when].
    assert (E1 : objs (with_objs (alter (with_state (VStr msg)) self
                                    (objs st)) st) !! self
                 = Some (with_state (VStr msg) it)).
    { cbn. by rewrite lookup_alter_eq, E. }
    assert (Hrest : forall m : M store unit,
               keeps_state self m ->
               exists st' it',
                 (setData self 2 (VStr msg) ;; m) st = (Ok tt, st')
                 /\ objs st' !! self = Some it'
                 /\ col_state it' = VStr msg).
    { intros m Hm. destruct (Hm _ _ E1) as (st' & it' & R & E' & S').
      exists st', it'. cbn [setData].
      by rewrite (bind_ok _ _ _ _ _ (update_ok _ _ _ _ E)). }
    rewrite bind_assoc. apply Hrest.
    apply keeps_state_seq.
    { destruct (_getIcon (VStr msg));
        [apply keeps_state_setIcon|apply keeps_state_ret]. }
    apply keeps_state_seq; apply keeps_state_when.
    + apply keeps_state_setIcon.
    + apply keeps_state_setData_type.
  - unfold _status_result_receiver. rewrite Hstate.
    case_bool_decide; [done|].
    by destruct (dict_get res "path").
Qed.

Lemma error_message_is_state_label_outside_receiver_witness :
  let res : result :=
    <["action" := VStr "status"]>
      (<["path" := VStr "/ds/a.txt"]>
         (<["status" := VStr "error"]> {["message" := VStr "boom"]})) in
  let b := new_browser 0 ds_store in
  objs ds_store !! 1 = Some ds_file
  /\ (exists st' it',
        update_from_status_result 1 res ds_store = (Ok tt, st')
        /\ objs st' !! 1 = Some it'
        /\ col_state it' = VStr "boom")
  /\ _status_result_receiver res b = (Ok tt, b).
Proof.
  intros res b. split; [vm_compute; reflexivity|].
  apply (error_message_is_state_label_outside_receiver
           1 ds_file res "boom" ds_store b);
    try (vm_compute; reflexivity).
  discriminate.
Defined.

(** C8 (as stated) fails twice.  A status record without state, with
    status [error] and a message, for a path that has an item, goes
    through the receiver without the item taking the message as state;
    and [update_from_status_result] leaves the state alone when the
    message is the empty text. *)
Lemma error_message_counterexample :
  let res : result :=
    <["action" := VStr "status"]>
      (<["path" := VStr "/ds/a.txt"]>
         (<["status" := VStr "error"]> {["message" := VStr "boom"]})) in
  let b := new_browser 0 ds_store in
  fst (_get_item_from_path (Path "/ds/a.txt") b) = Ok 1
  /\ (col_state <$> objs (items (snd (_status_result_receiver res b))) !! 1)
     <> Some (VStr "boom")
  /\ (col_state <$>
        objs (snd (update_from_status_result 1
                     (<["status" := VStr "error"]> {["message" := VStr ""]})
                     ds_store)) !! 1)
     <> Some (VStr "").
Proof.
  intros res b. split; [vm_compute; reflexivity|].
  split; vm_compute; discriminate.
Qed.

(** *** Changed directories *)

Lemma parent_of_ok i it st :
  objs st !! i = Some it -> parent_of i st = (Ok (parent it), st).
Proof.
  intros E. unfold parent_of.
  by rewrite (bind_ok _ _ _ _ _ (load_ok _ _ _ E)).
Qed.

Section Reconcile.
Context `{Collaborators}.

(** The first step of [_inspect_changed_dir] when the path has an
    item. *)
Lemma inspect_finds_item path item b :
  fst (_get_item_from_path (Path path) b) = Ok item ->
  try_except (item ← _get_item_from_path (Path path); ret (Some item))
             ValueError (removePath path ;; ret None) b
  = (Ok (Some item), b).
Proof.
  intros Hfound. unfold try_except.
  erewrite bind_ok; [reflexivity|].
  rewrite (read_only_run _ _ (read_only_get_item_from_path (Path path))).
  by rewrite Hfound.
Qed.

(** C4 (what the code does): for a change notification whose path has
    an item but no longer exists on disk, the root case ends with
    [NotImplementedError] and an untouched browser; for any other item,
    once it is removed from its parent, the code goes on: it lists the
    path again with [from_path], on the store the removal left, and,
    when that returns an item, updates the removed item from it. *)
Theorem vanished_dir_is_relisted_after_removal path item it b :
  fst (_get_item_from_path (Path path) b) = Ok item ->
  objs (items b) !! item = Some it ->
  fs_exists (path_str (Path path)) = false ->
  (parent it = None ->
   _inspect_changed_dir path b = (Raise NotImplementedError, b))
  /\ (forall par st1,
        parent it = Some par ->
        removeChild par item (items b) = (Ok tt, st1) ->
        log (snd (_inspect_changed_dir path b))
        = log b ++ CalledFromPath (Path path) NoParent
            :: match fst (from_path (Path path) (Some true) true (Some true)
                                    NoParent st1) with
               | Ok newitem => [CalledUpdateFrom item newitem]
               | Raise _ => []
               end).
Proof.
  intros Hfound E Hgone. split.
  - intros Hroot. unfold _inspect_changed_dir.
    rewrite (bind_ok _ _ _ _ _ (inspect_finds_item _ _ _ Hfound)).
    rewrite (bind_ok _ _ _ _ _ (on_items_run _ _ _ _ (parent_of_ok _ _ _ E))).
    rewrite with_items_id, Hgone, Hroot. reflexivity.
  - intros par st1 Hpar Hrm. unfold _inspect_changed_dir.
    rewrite (bind_ok _ _ _ _ _ (inspect_finds_item _ _ _ Hfound)).
    rewrite (bind_ok _ _ _ _ _ (on_items_run _ _ _ _ (parent_of_ok _ _ _ E))).
    rewrite with_items_id, Hgone, Hpar. cbn [negb when].
    rewrite (bind_ok _ _ _ _ _ (on_items_run _ _ _ _ Hrm)).
    unfold call_from_path, call_update_from, record, on_items, zoom, modify.
    unfold mbind, M_bind, bind. cbn [items with_items with_log log].
    destruct (from_path _ _ _ _ _ st1) as [[newitem|e] st2];
      cbn [fst snd items with_items with_log log].
    + destruct (update_from item newitem st2) as [r st3]. cbn.
      by rewrite <- app_assoc.
    + reflexivity.
Qed.

End Reconcile.

Lemma vanished_dir_is_relisted_after_removal_witness :
  let b := new_browser 0 ds_store in
  fst (_get_item_from_path (Path "/ds/sub") b) = Ok 2
  /\ objs (items b) !! 2 = Some ds_sub
  /\ fs_exists (Collaborators := sub_deleted) (path_str (Path "/ds/sub"))
     = false
  /\ fst (removeChild 0 2 (items b)) = Ok tt
  /\ (children <$> objs (snd (removeChild 0 2 (items b))) !! 0) = Some [1]
  /\ log (snd (_inspect_changed_dir (H := sub_deleted) "/ds/sub" b))
     = [CalledFromPath ["/"; "ds"; "sub"] NoParent; CalledUpdateFrom 2 3].
Proof.
  intros b.
  assert (Hfound : fst (_get_item_from_path (Path "/ds/sub") b) = Ok 2)
    by (vm_compute; reflexivity).
  assert (E : objs (items b) !! 2 = Some ds_sub) by (vm_compute; reflexivity).
  assert (Hgone : fs_exists (Collaborators := sub_deleted)
                    (path_str (Path "/ds/sub")) = false)
    by (vm_compute; reflexivity).
  assert (Hrm : removeChild 0 2 (items b)
                = (Ok tt, snd (removeChild 0 2 (items b))))
    by (vm_compute; reflexivity).
  repeat (split; [assumption || (vm_compute; reflexivity)|]).
  destruct (vanished_dir_is_relisted_after_removal (H := sub_deleted)
              "/ds/sub" 2 ds_sub b Hfound E Hgone) as [_ Hrelist].
  rewrite (Hrelist 0 _ eq_refl Hrm). vm_compute. reflexivity.
Defined.

(** *** The annotation queue *)

Lemma least_by_elem key l x : least_by key l = Some x -> x ∈ l.
Proof.
  revert x. induction l as [|y l IH]; intros x; cbn [least_by]; [done|].
  destruct (least_by key l) as [z|].
  - destruct (Nat.leb (key y) (key z)); intros [= <-].
    + by left.
    + right. by apply IH.
  - intros [= <-]. by left.
Qed.

Lemma least_by_none key l : least_by key l = None -> l = [].
Proof.
  destruct l as [|y l]; cbn [least_by]; [done|].
  destruct (least_by key l) as [z|]; [|done].
  by destruct (Nat.leb (key y) (key z)).
Qed.

Lemma table_pick_elem hash s x : table_pick hash s = Some x -> x ∈ s.
Proof. intros Hp. by apply elem_of_elements, (least_by_elem _ _ _ Hp). Qed.

Lemma table_pick_nonempty hash s : table_pick hash s = None -> s = ∅.
Proof.
  intros Hp. apply leibniz_equiv, elements_empty_inv.
  exact (least_by_none _ _ Hp).
Qed.

(** The table order is a lawful [pop]. *)
Definition table_pop (hash : handle -> nat) : SetPop := {|
  set_pick := table_pick hash;
  set_pick_elem := table_pick_elem hash;
  set_pick_nonempty := table_pick_nonempty hash;
|}.

Lemma keeps_on_items {X A} (f : browser -> X) (m : M store A) :
  (forall st b, f (with_items st b) = f b) -> keeps f (on_items m).
Proof.
  intros Hf b. unfold on_items, zoom. destruct (m (items b)). apply Hf.
Qed.

Lemma keeps_slot {S X A} (f : S -> X) (m : M S A) :
  keeps f m -> keeps f (slot m).
Proof. intros Hm s. apply Hm. Qed.

Lemma keeps_modify {S X} (f : S -> X) (g : S -> S) :
  (forall s, f (g s) = f s) -> keeps f (modify g).
Proof. intros Hg s. apply Hg. Qed.

Lemma keeps_when {S X} (f : S -> X) c (m : M S unit) :
  keeps f m -> keeps f (when c m).
Proof. destruct c; [done|]. intros _. apply keeps_ret. Qed.

Lemma never_raises_slot {S A} e (m : M S A) : never_raises e (slot m).
Proof. by intros s. Qed.

Lemma never_raises_when {S} e c (m : M S unit) :
  never_raises e m -> never_raises e (when c m).
Proof. destruct c; [done|]. intros _. apply never_raises_ret. Qed.

Lemma never_raises_on_items {A} e (m : M store A) :
  never_raises e m -> never_raises e (on_items m).
Proof.
  intros Hm b. unfold on_items, zoom. specialize (Hm (items b)).
  by destruct (m (items b)).
Qed.

Lemma load_fuel i : never_raises OutOfFuel (load i).
Proof. intros st. unfold load. by destruct (objs st !! i). Qed.

Lemma data_fuel i column : never_raises OutOfFuel (data i column).
Proof.
  apply never_raises_bind; [apply load_fuel|].
  intros it. apply never_raises_ret.
Qed.

Lemma children_fuel i : never_raises OutOfFuel (children_ i).
Proof.
  apply never_raises_bind; [apply load_fuel|].
  intros it. apply never_raises_ret.
Qed.

Lemma get_pathobj_fuel i : never_raises OutOfFuel (get_pathobj i).
Proof.
  apply never_raises_bind; [apply load_fuel|].
  intros it. apply never_raises_ret.
Qed.

Lemma paths_to_investigate_fuel dsroot cs :
  never_raises OutOfFuel (paths_to_investigate dsroot cs).
Proof.
  induction cs as [|c cs IH]; cbn [paths_to_investigate].
  - apply never_raises_ret.
  - apply never_raises_bind; [apply data_fuel|]. intros t.
    case_bool_decide; [|apply IH].
    apply never_raises_bind; [apply get_pathobj_fuel|]. intros p.
    apply never_raises_bind.
    { unfold relative_to. destruct (strip_prefix dsroot p);
        [apply never_raises_ret|by apply never_raises_raise]. }
    intros r. apply never_raises_bind; [apply IH|].
    intros rest. apply never_raises_ret.
Qed.

Section Queue.
Context `{Collaborators} `{SetPop}.

(** Views of the browser that item methods and signals to the executor
    cannot reach. *)
Definition drained (b : browser) : list handle := omap drained_of (log b).

Lemma annotate_item_keeps {X} (f : browser -> X) item props :
  (forall st b, f (with_items st b) = f b) ->
  keeps f (_annotate_item item props).
Proof.
  intros Hf. unfold _annotate_item. destruct (props !! "state"); 
    [|apply keeps_ret].
  apply keeps_bind; [by apply keeps_on_items|]. intros prev.
  case_bool_decide; [|apply keeps_ret].
  apply keeps_bind; [by apply keeps_on_items|]. intros _.
  by apply keeps_on_items.
Qed.

Lemma annotate_queued_keeps {X} (f : browser -> X) item :
  (forall st b, f (with_items st b) = f b) ->
  (forall r c b, f (with_conns r c b) = f b) ->
  (forall cmd kw b, f (with_log (log b ++ [Submitted cmd kw]) b) = f b) ->
  keeps f (annotate_queued item).
Proof.
  intros Hitems Hconns Hlog. unfold annotate_queued.
  apply keeps_bind; [by apply keeps_on_items|]. intros ipath.
  destruct (get_dataset_root ipath) as [dsroot|].
  - apply keeps_bind; [by apply keeps_modify|]. intros _.
    apply keeps_bind; [by apply keeps_modify|]. intros _.
    apply keeps_bind; [by apply keeps_on_items|]. intros cs.
    apply keeps_bind; [by apply keeps_on_items|]. intros [|p paths].
    + apply keeps_ret.
    + apply keeps_modify. intros b. apply Hlog.
  - apply keeps_bind; [by apply keeps_on_items|]. intros cs.
    apply keeps_for_each. intros child. unfold annotate_untracked.
    apply keeps_bind; [by apply keeps_on_items|]. intros t.
    apply keeps_when, keeps_slot. by apply annotate_item_keeps.
Qed.

Lemma annotate_queued_keeps_queue item :
  keeps _annotation_queue (annotate_queued item).
Proof. by apply annotate_queued_keeps. Qed.

Lemma annotate_queued_keeps_drained item :
  keeps drained (annotate_queued item).
Proof.
  apply annotate_queued_keeps; try done.
  intros cmd kw b. unfold drained. cbn [log with_log].
  rewrite omap_app. cbn. apply app_nil_r.
Qed.

Lemma annotate_queued_fuel item :
  never_raises OutOfFuel (annotate_queued item).
Proof.
  unfold annotate_queued.
  apply never_raises_bind;
    [apply never_raises_on_items, get_pathobj_fuel|]. intros ipath.
  destruct (get_dataset_root ipath) as [dsroot|].
  - apply never_raises_bind; [apply never_raises_modify|]. intros _.
    apply never_raises_bind; [apply never_raises_modify|]. intros _.
    apply never_raises_bind;
      [apply never_raises_on_items, children_fuel|]. intros cs.
    apply never_raises_bind;
      [apply never_raises_on_items, paths_to_investigate_fuel|].
    intros [|p paths]; [apply never_raises_ret|apply never_raises_modify].
  - apply never_raises_bind;
      [apply never_raises_on_items, children_fuel|]. intros cs.
    apply never_raises_for_each. intros child. unfold annotate_untracked.
    apply never_raises_bind;
      [apply never_raises_on_items, data_fuel|]. intros t.
    apply never_raises_when, never_raises_slot.
Qed.

(** [pop] on a queue that is not empty. *)
Lemma queue_pop_run b :
  _annotation_queue b <> ∅ ->
  exists item,
    item ∈ _annotation_queue b
    /\ queue_pop b
       = (Ok item,
          with_log (log b ++ [Drained item])
                   (with_queue (_annotation_queue b ∖ {[item]}) b)).
Proof.
  intros Hne. unfold queue_pop, gets, mbind, M_bind, bind.
  destruct (set_pick (_annotation_queue b)) as [item|] eqn:Hp.
  - exists item. split; [by apply set_pick_elem|]. reflexivity.
  - by apply set_pick_nonempty in Hp.
Qed.

Lemma drain_queue_empty fuel b :
  _annotation_queue b = ∅ -> drain_queue fuel b = (Ok tt, b).
Proof.
  intros Hq. destruct fuel; cbn [drain_queue];
    unfold gets, mbind, M_bind, bind; by rewrite bool_decide_true.
Qed.

Lemma drain_queue_step fuel b :
  _annotation_queue b <> ∅ ->
  drain_queue (S fuel) b
  = (item ← queue_pop; annotate_queued item ;; drain_queue fuel) b.
Proof.
  intros Hq. cbn [drain_queue].
  unfold gets. unfold mbind at 1, M_bind at 1, bind at 1.
  by rewrite bool_decide_false.
Qed.

(** The loop with enough rounds: it does not run out of them; and when
    it returns the queue is empty and every item that was queued has
    been taken out once, none else. *)
Lemma drain_queue_run fuel : forall b,
  size (_annotation_queue b) <= fuel ->
  fst (drain_queue fuel b) <> Raise OutOfFuel
  /\ (fst (drain_queue fuel b) = Ok tt ->
      _annotation_queue (snd (drain_queue fuel b)) = ∅
      /\ exists l, drained (snd (drain_queue fuel b)) = drained b ++ l
                   /\ l ≡ₚ elements (_annotation_queue b)).
Proof.
  assert (Hdone : forall fuel b,
             _annotation_queue b = ∅ ->
             fst (drain_queue fuel b) <> Raise OutOfFuel
             /\ (fst (drain_queue fuel b) = Ok tt ->
                 _annotation_queue (snd (drain_queue fuel b)) = ∅
                 /\ exists l,
                      drained (snd (drain_queue fuel b)) = drained b ++ l
                      /\ l ≡ₚ elements (_annotation_queue b))).
  { intros n b Hq. rewrite (drain_queue_empty _ _ Hq). cbn [fst snd].
    split; [done|]. intros _. split; [done|].
    exists []. rewrite app_nil_r, Hq, elements_empty. done. }
  induction fuel as [|fuel IH]; intros b Hsize.
  - apply Hdone, leibniz_equiv, size_empty_inv. lia.
  - destruct (decide (_annotation_queue b = ∅)) as [Hq|Hq];
      [by apply Hdone|].
    rewrite (drain_queue_step _ _ Hq).
    destruct (queue_pop_run b Hq) as (item & Hin & Hpop).
    rewrite (bind_ok _ _ _ _ _ Hpop).
    set (b1 := with_log _ _).
    pose proof (annotate_queued_keeps_queue item b1) as Hkq.
    pose proof (annotate_queued_keeps_drained item b1) as Hkd.
    pose proof (annotate_queued_fuel item b1) as Hfuel.
    unfold mbind, M_bind, bind.
    destruct (annotate_queued item b1) as [[[]|e] b2]; cbn in Hkq, Hkd, Hfuel.
    + assert (Hq2 : _annotation_queue b2 = _annotation_queue b ∖ {[item]})
        by (rewrite Hkq; reflexivity).
      assert (Hout : item ∉ _annotation_queue b ∖ {[item]}).
      { intros [_ Hn]%elem_of_difference. apply Hn.
        by apply elem_of_singleton. }
      assert (Hsz : size (_annotation_queue b)
                    = S (size (_annotation_queue b ∖ {[item]}))).
      { rewrite (union_difference_singleton_L item (_annotation_queue b))
          at 1 by done.
        rewrite size_union by (by apply disjoint_singleton_l, Hout).
        by rewrite size_singleton. }
      destruct (IH b2) as [Hnf Hok]; [rewrite Hq2; lia|].
      split; [exact Hnf|]. intros Hr.
      destruct (Hok Hr) as (Hempty & l & Hl & Hperm).
      split; [exact Hempty|]. exists (item :: l). split.
      * rewrite Hl, Hkd. unfold drained, b1. cbn [log with_log with_queue].
        rewrite omap_app. cbn. by rewrite <- app_assoc.
      * rewrite Hq2 in Hperm. rewrite Hperm.
        rewrite (union_difference_singleton_L item (_annotation_queue b))
          at 2 by done.
        symmetry. apply elements_union_singleton, Hout.
    + split; [cbn; congruence|]. done.
Qed.

Lemma process_queue_empty b :
  _annotation_queue b = ∅ -> _process_item_annotation_queue b = (Ok tt, b).
Proof.
  intros Hq. unfold _process_item_annotation_queue, gets, mbind, M_bind, bind.
  by rewrite bool_decide_true.
Qed.

Lemma process_queue_nonempty b :
  _annotation_queue b <> ∅ ->
  _process_item_annotation_queue b
  = match drain_queue (size (_annotation_queue b)) (with_timer false b) with
    | (Ok _, b') => (Ok tt, with_timer true b')
    | (Raise e, b') => (Raise e, b')
    end.
Proof.
  intros Hq. unfold _process_item_annotation_queue, gets.
  unfold mbind at 1, M_bind at 1, bind at 1.
  rewrite bool_decide_false by done.
  unfold modify, mbind, M_bind, bind.
  by destruct (drain_queue _ _) as [[[]|e] b'].
Qed.

(** One scheduler tick never runs out of rounds; when it returns, the
    queue is empty, the timer runs again, and the items taken out are
    those that were queued, each once. *)
Lemma process_queue_run b :
  fst (_process_item_annotation_queue b) <> Raise OutOfFuel
  /\ (fst (_process_item_annotation_queue b) = Ok tt ->
      _annotation_queue (snd (_process_item_annotation_queue b)) = ∅
      /\ exists l,
           drained (snd (_process_item_annotation_queue b)) = drained b ++ l
           /\ l ≡ₚ elements (_annotation_queue b)).
Proof.
  destruct (decide (_annotation_queue b = ∅)) as [Hq|Hq].
  { rewrite (process_queue_empty _ Hq). cbn [fst snd].
    split; [done|]. intros _. split; [done|].
    exists []. rewrite app_nil_r, Hq, elements_empty. done. }
  rewrite (process_queue_nonempty _ Hq).
  destruct (drain_queue_run (size (_annotation_queue b))
              (with_timer false b)) as [Hnf Hok]; [done|].
  destruct (drain_queue _ (with_timer false b)) as [[[]|e] b'];
    cbn [fst snd] in Hnf, Hok |- *.
  - split; [done|]. intros _. exact (Hok eq_refl).
  - split; [congruence|done].
Qed.

End Queue.

(** C3 (what the code does): with the members of the set handed out in
    table order, three directories queued in the order 1, 2, 3 are
    taken from the queue in the order 1, 2, 3 by the next tick, which
    returns with the queue empty; the last queued is not the first
    out. *)
Theorem queue_drains_in_table_order :
  let tick := _process_item_annotation_queue (H := outside_datasets)
                (H0 := table_pop (fun i => i)) in
  _annotation_queue (queued 1 2 3) = {[1; 2; 3]}
  /\ fst (tick (queued 1 2 3)) = Ok tt
  /\ omap drained_of (log (snd (tick (queued 1 2 3)))) = [1; 2; 3]
  /\ _annotation_queue (snd (tick (queued 1 2 3))) = ∅.
Proof. vm_compute. repeat split; reflexivity. Qed.

(** With another hash the same queue comes out in another order. *)
Lemma queue_drain_follows_hash :
  let tick := _process_item_annotation_queue (H := outside_datasets)
                (H0 := table_pop (fun i => 7 - i)) in
  omap drained_of (log (snd (tick (queued 1 2 3)))) = [3; 2; 1].
Proof. vm_compute. reflexivity. Qed.

(** *** The watcher *)

(** [str(item.pathobj)] of a live item. *)
Definition item_path (st : store) (i : handle) : option string :=
  (fun it => path_str (pathobj it)) <$> objs st !! i.

(** The paths of the items that are expanded. *)
Definition expanded_paths (b : browser) : gset string :=
  set_omap (item_path (items b)) (expanded b).

(** A path [QFileSystemWatcher.addPath] accepts. *)
Definition on_disk `{Collaborators} (p : string) : Prop := fs_exists p = true.

#[global] Instance on_disk_dec `{Collaborators} (p : string)
  : Decision (on_disk p).
Proof. unfold on_disk. apply _. Defined.

(** The watcher holds the paths of the expanded items that exist on disk
    and no other, and the expanded items are items of the store. *)
Definition watch_inv `{Collaborators} (b : browser) : Prop :=
  _fswatcher b = filter on_disk (expanded_paths b)
  /\ forall i, i ∈ expanded b -> is_Some (objs (items b) !! i).

Lemma set_omap_agree (f g : handle -> option string) (X : gset handle) :
  (forall i, i ∈ X -> f i = g i) ->
  set_omap f X =@{gset string} set_omap g X.
Proof.
  intros Hfg. apply set_eq. intros p. rewrite !elem_of_set_omap.
  split; intros (i & Hi & Hp); exists i; split; auto.
  - by rewrite <- Hfg.
  - by rewrite Hfg.
Qed.

Lemma set_omap_add (f : handle -> option string) (X : gset handle) i p :
  f i = Some p ->
  set_omap f ({[i]} ∪ X) =@{gset string} {[p]} ∪ set_omap f X.
Proof.
  intros Hi. apply set_eq. intros q.
  rewrite elem_of_union, elem_of_singleton, !elem_of_set_omap. split.
  - intros (j & [Hj|Hj]%elem_of_union & Hq).
    + apply elem_of_singleton in Hj. subst j. left. congruence.
    + right. eauto.
  - intros [->|(j & Hj & Hq)].
    + exists i. split; [|done]. apply elem_of_union. left.
      by apply elem_of_singleton.
    + exists j. split; [|done]. apply elem_of_union. by right.
Qed.

Lemma set_omap_remove (f : handle -> option string) (X : gset handle) i p :
  f i = Some p ->
  (forall j, j ∈ X -> f j = Some p -> j = i) ->
  set_omap f (X ∖ {[i]}) =@{gset string} set_omap f X ∖ {[p]}.
Proof.
  intros Hi Hinj. apply set_eq. intros q.
  rewrite elem_of_difference, elem_of_singleton, !elem_of_set_omap. split.
  - intros (j & [Hj Hne]%elem_of_difference & Hq). split; [eauto|].
    intros ->. apply Hne, elem_of_singleton. by apply Hinj.
  - intros [(j & Hj & Hq) Hne]. exists j. split; [|done].
    apply elem_of_difference. split; [done|].
    intros ->%elem_of_singleton. congruence.
Qed.

Section Watch.
Context `{Collaborators}.

(** No two items of the tree have the same path. *)
Definition paths_distinct (st : store) : Prop :=
  forall i j p, item_path st i = Some p -> item_path st j = Some p -> i = j.

(** What is asked of the listing method, for the one way the browser
    calls it on expansion (for a live item without children, with the
    path of that item, the item as parent): on stores that meet an
    invariant [Inv] of trees without double paths, it leaves the items
    there are their paths, and it keeps the invariant.  Nothing is asked
    of the file system, but that it stays as it is while the signals
    come in. *)
Variable Inv : store -> Prop.
Hypothesis Inv_paths_distinct : forall st, Inv st -> paths_distinct st.

Definition populate_call (item : handle) (it : FSBrowserItem) (st : store)
  : store :=
  snd (from_path (pathobj it) (Some false) true (Some true)
                 (ParentItem item) st).

Hypothesis populate_keeps_paths :
  forall st item it i q,
    Inv st -> objs st !! item = Some it -> children it = [] ->
    item_path st i = Some q ->
    item_path (populate_call item it st) i = Some q.
Hypothesis populate_keeps_Inv :
  forall st item it,
    Inv st -> objs st !! item = Some it -> children it = [] ->
    Inv (populate_call item it st).

(** The store after a slot ran: as before, or as that call left it. *)
Definition listed (st st' : store) : Prop :=
  st' = st
  \/ exists item it,
       objs st !! item = Some it /\ children it = []
       /\ st' = populate_call item it st.

Lemma listed_keeps_paths st st' i q :
  Inv st -> listed st st' ->
  item_path st i = Some q -> item_path st' i = Some q.
Proof. intros Hinv [->|(item & it & E & Hc & ->)]; eauto. Qed.

Lemma listed_Inv st st' : listed st st' -> Inv st -> Inv st'.
Proof. intros [->|(item & it & E & Hc & ->)]; eauto. Qed.

Lemma populate_item_run item b :
  exists st' q l,
    snd (_populate_item item b) = with_log l (with_queue q (with_items st' b))
    /\ listed (items b) st'.
Proof.
  assert (Hsame : exists st' q l,
             b = with_log l (with_queue q (with_items st' b))
             /\ listed (items b) st').
  { exists (items b), (_annotation_queue b), (log b).
    split; [by destruct b|by left]. }
  unfold _populate_item.
  destruct (objs (items b) !! item) as [it|] eqn:E.
  - unfold childCount.
    rewrite (bind_ok _ _ _ _ _
               (on_items_run _ _ _ _
                  (bind_ok _ _ _ _ _ (load_ok _ _ _ E)))).
    rewrite with_items_id. unfold ret at 1.
    destruct (children it) as [|c cs] eqn:Hc; cbn [length Nat.eqb];
      [|exact Hsame].
    rewrite (bind_ok _ _ _ _ _
               (on_items_run _ _ _ _ (get_pathobj_ok _ _ _ E))).
    rewrite with_items_id.
    unfold call_from_path, record, _queue_item_for_annotation, on_items, zoom,
      modify, mbind, M_bind, bind.
    cbn [items with_log].
    destruct (from_path (pathobj it) (Some false) true (Some true)
                (ParentItem item) (items b)) as [[newitem|e] st'] eqn:Hfp;
      cbn [snd].
    + exists st', ({[item]} ∪ _annotation_queue b),
        (log b ++ [CalledFromPath (pathobj it) (ParentItem item)]).
      split; [reflexivity|]. right. exists item, it.
      unfold populate_call. by rewrite Hfp.
    + exists st', (_annotation_queue b),
        (log b ++ [CalledFromPath (pathobj it) (ParentItem item)]).
      split; [reflexivity|]. right. exists item, it.
      unfold populate_call. by rewrite Hfp.
  - unfold childCount.
    rewrite (bind_raise _ _ _ _ _
               (on_items_run _ _ _ _
                  (bind_raise _ _ _ _ _ (load_dangling _ _ E)))).
    by rewrite with_items_id.
Qed.

Lemma watch_dir_run item it b :
  objs (items b) !! item = Some it ->
  snd (_watch_dir item b)
  = if fs_exists (path_str (pathobj it))
    then with_watcher ({[path_str (pathobj it)]} ∪ _fswatcher b) b
    else b.
Proof.
  intros E. unfold _watch_dir.
  rewrite (bind_ok _ _ _ _ _ (on_items_run _ _ _ _ (get_pathobj_ok _ _ _ E))).
  rewrite with_items_id. unfold addPath, gets, modify, mbind, M_bind, bind.
  destruct (fs_exists (path_str (pathobj it))); cbn [andb]; [|done].
  case_bool_decide as Hin; cbn [negb snd].
  - assert ({[path_str (pathobj it)]} ∪ _fswatcher b = _fswatcher b) as ->.
    { apply set_eq. intros q. rewrite elem_of_union, elem_of_singleton.
      split; [intros [->|]; done|by right]. }
    by destruct b.
  - reflexivity.
Qed.

Lemma unwatch_dir_run item it b :
  objs (items b) !! item = Some it ->
  snd (_unwatch_dir item b)
  = with_watcher (_fswatcher b ∖ {[path_str (pathobj it)]}) b.
Proof.
  intros E. unfold _unwatch_dir.
  rewrite (bind_ok _ _ _ _ _ (on_items_run _ _ _ _ (get_pathobj_ok _ _ _ E))).
  rewrite with_items_id.
  unfold removePath, gets, modify, mbind, M_bind, bind.
  case_bool_decide as Hin; cbn [snd]; [reflexivity|].
  assert (_fswatcher b ∖ {[path_str (pathobj it)]} = _fswatcher b) as ->.
  { apply set_eq. intros q. rewrite elem_of_difference, elem_of_singleton.
    split; [by intros [? _]|]. intros Hq. split; [done|]. by intros ->. }
  by destruct b.
Qed.

Lemma expanded_paths_listed b st' q l :
  Inv (items b) ->
  listed (items b) st' ->
  (forall i, i ∈ expanded b -> is_Some (objs (items b) !! i)) ->
  expanded_paths (with_log l (with_queue q (with_items st' b)))
  = expanded_paths b.
Proof.
  intros Hinv Hl Hlive. unfold expanded_paths. cbn [items expanded with_log
    with_queue with_items].
  apply set_omap_agree. intros i Hi.
  destruct (Hlive i Hi) as [it E].
  assert (Hp : item_path (items b) i = Some (path_str (pathobj it)))
    by (unfold item_path; by rewrite E).
  by rewrite Hp, (listed_keeps_paths _ _ _ _ Hinv Hl Hp).
Qed.

Lemma is_Some_item_path st i :
  is_Some (objs st !! i) <-> is_Some (item_path st i).
Proof. unfold item_path. by rewrite fmap_is_Some. Qed.

Lemma tree_expand_run item b :
  snd (tree_expand item b)
  = match objs (items b) !! item with
    | None => b
    | Some _ =>
        if bool_decide (item ∈ expanded b) then b
        else snd (_populate_item item
                    (snd (_watch_dir item
                            (with_expanded ({[item]} ∪ expanded b) b))))
    end.
Proof.
  unfold tree_expand.
  unfold mbind at 1, M_bind at 1, bind at 1.
  rewrite (read_only_run _ b (read_only_on_items _ (read_only_load item))).
  unfold on_items at 1, zoom, load.
  destruct (objs (items b) !! item) as [it|]; cbn [fst snd]; [|done].
  unfold gets, mbind, M_bind, bind.
  case_bool_decide; [done|].
  unfold modify, slot. reflexivity.
Qed.

Lemma tree_collapse_run item b :
  snd (tree_collapse item b)
  = match objs (items b) !! item with
    | None => b
    | Some _ =>
        if bool_decide (item ∈ expanded b)
        then snd (_unwatch_dir item
                    (with_expanded (expanded b ∖ {[item]}) b))
        else b
    end.
Proof.
  unfold tree_collapse.
  unfold mbind at 1, M_bind at 1, bind at 1.
  rewrite (read_only_run _ b (read_only_on_items _ (read_only_load item))).
  unfold on_items at 1, zoom, load.
  destruct (objs (items b) !! item) as [it|]; cbn [fst snd]; [|done].
  unfold gets, mbind, M_bind, bind.
  case_bool_decide; [|done].
  unfold modify, slot. reflexivity.
Qed.

(** One expansion or collapse keeps the invariant of the tree and the
    watcher in step with the expanded items that exist on disk. *)
Lemma tree_step_inv op b :
  Inv (items b) -> watch_inv b ->
  Inv (items (snd (tree_step op b)))
  /\ watch_inv (snd (tree_step op b)).
Proof.
  intros Hinv [Hw Hlive]. pose proof (Inv_paths_distinct _ Hinv) as Hok.
  destruct op as [item|item]; cbn [tree_step];
    unfold slot; cbn [snd].
  - (* itemExpanded *)
    rewrite tree_expand_run.
    destruct (objs (items b) !! item) as [it|] eqn:E; [|by split].
    case_bool_decide as Hin; [by split|].
    set (b1 := with_expanded ({[item]} ∪ expanded b) b).
    assert (Hp : item_path (items b) item = Some (path_str (pathobj it)))
      by (unfold item_path; by rewrite E).
    set (b2 := snd (_watch_dir item b1)).
    assert (Hb2 : items b2 = items b /\ expanded b2 = {[item]} ∪ expanded b
                  /\ _fswatcher b2
                     = filter on_disk ({[path_str (pathobj it)]}
                                       ∪ expanded_paths b)).
    { unfold b2. rewrite (watch_dir_run item it b1 E).
      assert (Hfilter : forall X : gset string,
                filter on_disk ({[path_str (pathobj it)]} ∪ X)
                = (if fs_exists (path_str (pathobj it))
                   then {[path_str (pathobj it)]} ∪ filter on_disk X
                   else filter on_disk X)).
      { intros X. apply set_eq. intros q.
        destruct (fs_exists (path_str (pathobj it))) eqn:Hex;
          rewrite ?elem_of_union, !elem_of_filter, elem_of_union,
            elem_of_singleton; unfold on_disk.
        - split; [intros [Hq [->|Hx]]; auto|].
          intros [->|[Hq Hx]]; auto.
        - split; [intros [Hq [->|Hx]]; [congruence|auto]|].
          intros [Hq Hx]; auto. }
      rewrite Hfilter.
      destruct (fs_exists (path_str (pathobj it)));
        cbn [items expanded _fswatcher with_watcher with_expanded b1];
        by rewrite Hw. }
    destruct Hb2 as (Hit2 & Hex2 & Hw2).
    destruct (populate_item_run item b2) as (st' & q & l & -> & Hl).
    assert (Hlive2 : forall i, i ∈ expanded b2 ->
                               is_Some (objs (items b2) !! i)).
    { intros i. rewrite Hex2, Hit2.
      intros [->%elem_of_singleton|Hi]%elem_of_union; [by exists it|].
      by apply Hlive. }
    pose proof Hl as Hl2. rewrite Hit2 in Hl.
    assert (Hinv2 : Inv (items b2)) by (by rewrite Hit2).
    split; [exact (listed_Inv _ _ Hl Hinv)|]. split.
    + rewrite (expanded_paths_listed b2 st' q l Hinv2 Hl2 Hlive2).
      cbn [_fswatcher with_log with_queue with_items]. rewrite Hw2.
      f_equal. unfold expanded_paths. rewrite Hit2, Hex2.
      symmetry. by apply set_omap_add.
    + intros i Hi. cbn [items with_log with_queue with_items].
      cbn [expanded with_log with_queue with_items] in Hi.
      apply is_Some_item_path.
      destruct (Hlive2 i Hi) as [it' E'].
      exists (path_str (pathobj it')).
      apply (listed_keeps_paths _ _ _ _ Hinv Hl). unfold item_path.
      rewrite Hit2 in E'. by rewrite E'.
  - (* itemCollapsed *)
    rewrite tree_collapse_run.
    destruct (objs (items b) !! item) as [it|] eqn:E; [|by split].
    case_bool_decide as Hin; [|by split].
    set (b1 := with_expanded (expanded b ∖ {[item]}) b).
    rewrite (unwatch_dir_run item it b1 E).
    split; [exact Hinv|]. split.
    + cbn [_fswatcher with_watcher]. unfold b1.
      cbn [_fswatcher with_expanded]. rewrite Hw. unfold expanded_paths.
      cbn [items expanded with_watcher with_expanded].
      assert (Hp : item_path (items b) item = Some (path_str (pathobj it)))
        by (unfold item_path; by rewrite E).
      rewrite (set_omap_remove _ _ item (path_str (pathobj it)) Hp
                 (fun j _ Hj => Hok _ _ _ Hj Hp)).
      apply set_eq. intros q.
      rewrite elem_of_difference, !elem_of_filter, elem_of_difference.
      tauto.
    + intros i [Hi _]%elem_of_difference. by apply Hlive.
Qed.

(** C9 (as the code has it): on a tree without double paths, starting
    with the watcher in step with the expanded items (as [__init__]
    leaves it: nothing expanded, nothing watched), after any sequence
    of expansions and collapses the watcher holds exactly the paths of
    the expanded items that exist on disk.  So nothing is watched but
    paths of expanded items; and every expanded item is watched exactly
    when the paths of all of them exist. *)
Theorem watcher_follows_expanded_items_on_disk ops : forall b,
  Inv (items b) ->
  watch_inv b ->
  let b' := snd (tree_run ops b) in
  _fswatcher b' = filter on_disk (expanded_paths b')
  /\ _fswatcher b' ⊆ expanded_paths b'
  /\ (_fswatcher b' = expanded_paths b' <->
      forall p, p ∈ expanded_paths b' -> fs_exists p = true).
Proof.
  assert (Hrun : forall b, Inv (items b) -> watch_inv b ->
                           Inv (items (snd (tree_run ops b)))
                           /\ watch_inv (snd (tree_run ops b))).
  { unfold tree_run. induction ops as [|op ops IH]; intros b Hinv Hw.
    - by split.
    - cbn [for_each]. unfold bind.
      destruct (tree_step_inv op b Hinv Hw) as [Hinv1 Hw1].
      destruct (tree_step op b) as [[[]|e] b1] eqn:Hstep; cbn [snd] in *.
      + by apply IH.
      + by split. }
  intros b Hinv Hw. cbn zeta.
  destruct (Hrun b Hinv Hw) as [_ [Hw' _]].
  split; [exact Hw'|]. rewrite Hw'. split.
  - intros p [_ Hp]%elem_of_filter. exact Hp.
  - split.
    + intros Heq p Hp. rewrite <- Heq in Hp.
      by apply elem_of_filter in Hp as [Hd _].
    + intros Hall. apply set_eq. intros p. rewrite elem_of_filter.
      split; [by intros [_ ?]|]. intros Hp. split; [by apply Hall|done].
Qed.

End Watch.

Lemma ds_store_objs :
  objs ds_store = <[0 := ds_root]> (<[1 := ds_file]> (<[2 := ds_sub]> ∅)).
Proof. vm_compute. reflexivity. Qed.

Lemma ds_store_item_path i p :
  item_path ds_store i = Some p ->
  (i = 0 /\ p = "/ds") \/ (i = 1 /\ p = "/ds/a.txt")
  \/ (i = 2 /\ p = "/ds/sub").
Proof.
  unfold item_path. rewrite ds_store_objs.
  destruct (decide (i = 0)) as [->|H0];
    [rewrite lookup_insert_eq; cbn; intros [= <-]; auto|].
  rewrite lookup_insert_ne by done.
  destruct (decide (i = 1)) as [->|H1];
    [rewrite lookup_insert_eq; cbn; intros [= <-]; auto|].
  rewrite lookup_insert_ne by done.
  destruct (decide (i = 2)) as [->|H2];
    [rewrite lookup_insert_eq; cbn; intros [= <-]; auto|].
  rewrite lookup_insert_ne by done. by rewrite lookup_empty.
Qed.

Lemma ds_store_paths_distinct : paths_distinct ds_store.
Proof.
  intros i j p Hi Hj.
  destruct (ds_store_item_path _ _ Hi) as [[-> ->]|[[-> ->]|[-> ->]]];
    destruct (ds_store_item_path _ _ Hj) as [[-> ?]|[[-> ?]|[-> ?]]];
    done.
Qed.

Lemma watcher_follows_expanded_items_on_disk_witness :
  let b' := snd (tree_run (H := MoreScenes.sub_vanished)
                   [Expand 0; Expand 2; Collapse 0]
                   (new_browser 0 ds_store)) in
  expanded b' = {[2]}
  /\ _fswatcher b' = ∅
  /\ _fswatcher b'
     = filter (on_disk (H := MoreScenes.sub_vanished)) (expanded_paths b')
  /\ _fswatcher b' ⊆ expanded_paths b'
  /\ (_fswatcher b' = expanded_paths b' <->
      forall p, p ∈ expanded_paths b' ->
                fs_exists (Collaborators := MoreScenes.sub_vanished) p = true).
Proof.
  intros b'. split; [vm_compute; reflexivity|].
  split; [vm_compute; reflexivity|].
  apply (watcher_follows_expanded_items_on_disk
           (H := MoreScenes.sub_vanished) paths_distinct).
  - intros st Hok. exact Hok.
  - intros st item it i q _ _ _ Hq. exact Hq.
  - intros st item it Hok _ _. exact Hok.
  - exact ds_store_paths_distinct.
  - split; [|intros i Hi; by apply elem_of_empty in Hi].
    apply set_eq. intros q. rewrite elem_of_filter. unfold expanded_paths.
    rewrite elem_of_set_omap. split; [by intros ?%elem_of_empty|].
    intros [_ (i & Hi & _)]. by apply elem_of_empty in Hi.
Defined.

(** C9 (as stated) fails: an item whose directory is gone from the disk
    is expanded all the same, but [addPath] turns its path down and
    [_watch_dir] only logs that; the watcher is then not the set of the
    paths of the expanded items. *)
Lemma watcher_counterexample :
  let b' := snd (tree_run (H := sub_deleted) [Expand 2]
                   (new_browser 0 ds_store)) in
  expanded b' = {[2]}
  /\ expanded_paths b' = {["/ds/sub"]}
  /\ _fswatcher b' = ∅
  /\ _fswatcher b' <> expanded_paths b'.
Proof.
  intros b'.
  assert (He : expanded b' = {[2]}) by (vm_compute; reflexivity).
  assert (Hw : _fswatcher b' = ∅) by (vm_compute; reflexivity).
  assert (Hp : expanded_paths b' = {["/ds/sub"]}).
  { unfold expanded_paths. rewrite He. apply set_eq. intros q.
    rewrite elem_of_set_omap, elem_of_singleton. split.
    - intros (i & ->%elem_of_singleton & Hq). vm_compute in Hq. congruence.
    - intros ->. exists 2. split; [by apply elem_of_singleton|].
      vm_compute; reflexivity. }
  split; [exact He|]. split; [exact Hp|]. split; [exact Hw|].
  rewrite Hw, Hp. intros Heq.
  assert (Hin : "/ds/sub" ∈ (∅ : gset string))
    by (rewrite Heq; by apply elem_of_singleton).
  by apply elem_of_empty in Hin.
Qed.

End BrowserFacts.

(** * Further properties *)

(** ** The command executor: one call, and the pool *)

Module CmdExecMore.
Import CmdExec CmdExecFacts Scenes.

Section Calls.
Variable dlapi : string -> option (list argval -> kwargs -> gen).
Variable tid : string.

(** A command the API does not have: [getattr] fails after Started. *)
Lemma cmdexec_thread_unknown cmd args kw evs :
  dlapi cmd = None ->
  _cmdexec_thread dlapi tid cmd args kw evs
  = (Raise AttributeError,
     evs ++ [ExecutionStarted tid (CmdName cmd) args kw]).
Proof.
  intros Hcmd. unfold _cmdexec_thread, getattr_dlapi. rewrite Hcmd.
  reflexivity.
Qed.


Lemma existsb_finished_app l1 l2 :
  existsb is_finished (l1 ++ l2)
  = existsb is_finished l1 || existsb is_finished l2.
Proof. apply existsb_app. Qed.

(** X1: whatever the command, a call emits Started first, with the
    name and arguments it was given; it returns normally exactly when
    it has emitted Finished, which is exactly when the API has the
    command and the command's generator ends without an exception. *)
Theorem call_finishes_iff_backend_completes cmd args kw :
  let run := _cmdexec_thread dlapi tid cmd args kw [] in
  (exists rest,
     snd run = ExecutionStarted tid (CmdName cmd) args kw :: rest)
  /\ (existsb is_finished (snd run) = true <-> fst run = Ok tt)
  /\ (fst run = Ok tt <->
      exists call, dlapi cmd = Some call
                   /\ gen_outcome (call args (generator_kwargs kw)) = None).
Proof.
  cbn zeta. destruct (dlapi cmd) as [call|] eqn:Hcmd.
  - rewrite (cmdexec_thread_run _ _ _ _ _ _ _ Hcmd). cbn zeta.
    destruct (gen_outcome (call args (generator_kwargs kw))) as [e|] eqn:Hg;
      cbn [fst snd app].
    + split; [eauto|]. split.
      * cbn [existsb is_finished orb].
        rewrite existsb_finished_results. split; discriminate.
      * split; [discriminate|]. intros (call' & [= <-] & Hg'). congruence.
    + split; [eauto|]. split.
      * cbn [existsb is_finished orb]. rewrite existsb_finished_app.
        cbn. by rewrite orb_true_r.
      * split; [eauto|done].
  - rewrite (cmdexec_thread_unknown _ _ _ _ Hcmd). cbn [fst snd app].
    split; [eauto|]. split.
    + cbn. split; discriminate.
    + split; [discriminate|]. by intros (call & [=] & _).
Qed.








End Calls.

End CmdExecMore.

(** ** Constraints *)

Module ConstraintFacts.
Import Constraints.

(** *** Splitting a string at the delimiter *)

Lemma append_nil r : String.append "" r = r.
Proof. reflexivity. Qed.

Lemma append_cons a p r :
  String.append (String a p) r = String a (String.append p r).
Proof. reflexivity. Qed.

Lemma drop_prefix_sound p : forall s r,
  drop_prefix p s = Some r -> s = String.append p r.
Proof.
  induction p as [|a p IH]; intros s r; cbn [drop_prefix].
  - by intros [= ->].
  - destruct s as [|b s]; [done|].
    destruct (Ascii.eqb a b) eqn:Hab; [|done].
    apply Ascii.eqb_eq in Hab as ->. intros Hr.
    by rewrite append_cons, (IH _ _ Hr).
Qed.

Lemma drop_prefix_complete p r : drop_prefix p (String.append p r) = Some r.
Proof.
  induction p as [|a p IH].
  - rewrite append_nil. by destruct r.
  - rewrite append_cons. cbn [drop_prefix]. by rewrite Ascii.eqb_refl.
Qed.

Lemma split_first_sound sep : forall s k v,
  split_first sep s = Some (k, v) ->
  s = String.append k (String.append sep v).
Proof.
  induction s as [|c s IH]; intros k v; cbn [split_first].
  - destruct (drop_prefix sep "") as [rest|] eqn:Hd; [|done].
    intros [= <- <-]. by apply drop_prefix_sound in Hd.
  - destruct (drop_prefix sep (String c s)) as [rest|] eqn:Hd.
    + intros [= <- <-]. by apply drop_prefix_sound in Hd.
    + destruct (split_first sep s) as [[k' v']|] eqn:Hs; [|done].
      intros [= <- <-]. by rewrite append_cons, <- (IH _ _ eq_refl).
Qed.

Lemma split_first_complete sep v : forall k,
  exists k' v', split_first sep (String.append k (String.append sep v))
                = Some (k', v').
Proof.
  induction k as [|c k IH].
  - rewrite append_nil.
    assert (Hd : drop_prefix sep (String.append sep v) = Some v)
      by apply drop_prefix_complete.
    destruct (String.append sep v); cbn [split_first]; rewrite Hd; eauto.
  - rewrite append_cons. cbn [split_first].
    destruct (drop_prefix sep _); [eauto|].
    destruct IH as (k' & v' & ->). eauto.
Qed.

(** The text [k] has no character [c]. *)
Fixpoint has_char (c : ascii) (k : string) : bool :=
  match k with
  | EmptyString => false
  | String a k' => Ascii.eqb c a || has_char c k'
  end.

Lemma split_first_char c v : forall k,
  has_char c k = false ->
  split_first (String c "") (String.append k (String c v)) = Some (k, v).
Proof.
  induction k as [|a k IH]; cbn [has_char]; intros Hk.
  - rewrite append_nil. cbn [split_first drop_prefix].
    rewrite Ascii.eqb_refl. by destruct v.
  - apply orb_false_elim in Hk as [Hca Hk]. rewrite append_cons.
    cbn [split_first drop_prefix]. rewrite Hca. by rewrite (IH Hk).
Qed.

Section WithCore.
Context `{DataladCore}.

(** X3: with a one-character delimiter (as the default [":"]), a string
    made of a key text free of the delimiter, the delimiter, and any
    value text is taken apart at the first delimiter: the result is
    that of the two-item list of key text and value text, later
    delimiters staying in the value. *)
Theorem mapping_splits_string_at_first_delimiter kc vc c k v :
  has_char c k = false ->
  call (EnsureMapping kc vc (String c ""))
       (PStr (String.append k (String c v)))
  = call (EnsureMapping kc vc (String c "")) (PList [PStr k; PStr v]).
Proof.
  intros Hk. cbn [call key_and_value]. unfold str_split_once.
  cbn [String.eqb]. by rewrite (split_first_char _ _ _ Hk).
Qed.

(** X4: with pass-through constraints, [EnsureMapping] accepts a string
    exactly when the delimiter is not empty and occurs in it; the
    single item of the dict it returns then gives the string back:
    key, delimiter, value. *)
Theorem mapping_accepts_strings_with_delimiter delim s :
  (forall r,
     call (EnsureMapping NoConstraint NoConstraint delim) (PStr s)
     = Returns r ->
     exists k v, r = PDict [(PStr k, PStr v)]
                 /\ s = String.append k (String.append delim v))
  /\ ((exists r, call (EnsureMapping NoConstraint NoConstraint delim)
                      (PStr s) = Returns r)
      <-> delim <> ""
          /\ exists k v, s = String.append k (String.append delim v)).
Proof.
  cbn [call key_and_value]. unfold str_split_once.
  destruct (String.eqb delim "") eqn:Hd.
  { apply String.eqb_eq in Hd. split; [done|].
    split; [by intros [r Hr]|by intros [Hne _]]. }
  apply String.eqb_neq in Hd.
  destruct (split_first delim s) as [[k v]|] eqn:Hs; cbn.
  - apply split_first_sound in Hs. split.
    + intros r [= <-]. eauto.
    + split; [|eauto]. intros _. eauto.
  - split; [done|]. split; [by intros [r Hr]|].
    intros (_ & k & v & ->).
    destruct (split_first_complete delim v k) as (k' & v' & Hs').
    congruence.
Qed.

(** X5: inputs [EnsureMapping] turns down before it consults its key
    and value constraints: [None], booleans and numbers end in
    [UnboundLocalError], since no branch binds key and value; an empty
    dict, a dict of more than one item, and a list or tuple whose
    length is not two end in [ValueError]. *)
Theorem mapping_rejects_before_constraints kc vc delim :
  (forall value,
     match value with
     | PNone | PBool _ | PInt _ => True
     | _ => False
     end ->
     call (EnsureMapping kc vc delim) value = Raises UnboundLocalError)
  /\ call (EnsureMapping kc vc delim) (PDict []) = Raises ValueError
  /\ (forall i j d,
        call (EnsureMapping kc vc delim) (PDict (i :: j :: d))
        = Raises ValueError)
  /\ (forall l, length l <> 2 ->
        call (EnsureMapping kc vc delim) (PList l) = Raises ValueError
        /\ call (EnsureMapping kc vc delim) (PTuple l) = Raises ValueError).
Proof.
  split; [by intros [] | split; [done|split; [done|]]].
  intros l Hl. cbn [call key_and_value].
  destruct (Nat.eqb_spec (length l) 2) as [|_]; [done|]. by split.
Qed.

(** X6: whatever [EnsureMapping] returns is a dict of exactly one item
    whose key can be hashed; and when the key and value constraints
    accept that key and that value as they are, [EnsureMapping] accepts
    its own result as it is. *)
Theorem mapping_returns_single_item_dict kc vc delim value r :
  call (EnsureMapping kc vc delim) value = Returns r ->
  exists k v,
    r = PDict [(k, v)]
    /\ hashable k = true
    /\ (call kc k = Returns k -> call vc v = Returns v ->
        call (EnsureMapping kc vc delim) r = Returns r).
Proof.
  cbn [call]. destruct (key_and_value delim value) as [[key val]|e]; [|done].
  cbn. destruct (call kc key) as [k|e]; [|done]. cbn.
  destruct (call vc val) as [v|e]; [|done]. cbn. unfold dict_of.
  destruct (hashable k) eqn:Hk; [|done]. intros [= <-].
  exists k, v. split; [done|]. split; [done|].
  intros Hkc Hvc. cbn. rewrite Hkc. cbn. rewrite Hvc. cbn.
  unfold dict_of. by rewrite Hk.
Qed.

(** A constraint that nowhere holds one of the two classes whose
    [for_dataset] looks at the dataset. *)
Fixpoint dataset_free (c : constraint) : bool :=
  match c with
  | EnsureMapping kc vc _ => dataset_free kc && dataset_free vc
  | EnsureDatasetSiblingName _ | EnsureConfigProcedureName _ _ => false
  | _ => true
  end.

(** X7: [for_dataset] gives back an equal constraint, without failing,
    for every constraint when the dataset is not installed, and for
    every dataset when the constraint holds no sibling-name or
    procedure-name constraint, mappings nested to any depth
    included. *)
Theorem for_dataset_returns_same_constraint c dataset :
  is_installed dataset = false \/ dataset_free c = true ->
  for_dataset c dataset = Returns c.
Proof.
  intros Hwhy.
  induction c as [n|a| |kc IHk vc IHv delim|n|allow|allow a|allow];
    cbn [for_dataset]; try reflexivity.
  - rewrite IHk, IHv; [done| |].
    + destruct Hwhy as [?|[_ ?]%andb_prop]; auto.
    + destruct Hwhy as [?|[? _]%andb_prop]; auto.
  - destruct Hwhy as [->|Hfree]; [done|discriminate].
  - destruct Hwhy as [->|Hfree]; [done|discriminate].
Qed.

(** X8: whatever datalad's [EnsureStr] does, what
    [EnsureStrOrNoneWithEmptyIsNone] returns is [None] or a value that
    counts as true, never an empty string; and [None] is returned for
    [None] without [EnsureStr] being asked. *)
Theorem str_or_none_never_returns_empty min_len value :
  call (EnsureStrOrNoneWithEmptyIsNone min_len) PNone = Returns PNone
  /\ forall r,
       call (EnsureStrOrNoneWithEmptyIsNone min_len) value = Returns r ->
       r = PNone \/ truthy r = true.
Proof.
  split; [reflexivity|]. intros r. cbn [call]. unfold str_or_none.
  assert (Hrest : (v ← EnsureStr_call min_len value;
                   Returns (if truthy v then v else PNone)) = Returns r ->
                  r = PNone \/ truthy r = true).
  { destruct (EnsureStr_call min_len value) as [v|e]; [|done]. cbn.
    destruct (truthy v) eqn:Hv; intros [= <-]; auto. }
  destruct value; auto. intros [= <-]. by left.
Qed.

(** [EnsureDatasetSiblingName] never applies the minimal length of
    one it was built with.  Without [allow_none] every call ends in
    [TypeError], whatever the value, because [super()] is called as if
    it were the parent's [__call__]; with [allow_none] the call is that
    of a fresh [EnsureStrOrNoneWithEmptyIsNone], whose minimal length
    is zero. *)
Remark sibling_name_ignores_min_len value :
  call (EnsureDatasetSiblingName false) value = Raises TypeError
  /\ call (EnsureDatasetSiblingName true) value
     = call (EnsureStrOrNoneWithEmptyIsNone 0) value.
Proof. by split. Qed.

Lemma is_str_spec v s : is_str v s = true <-> v = PStr s.
Proof.
  destruct v; cbn; try (split; [discriminate|by intros [=]]).
  rewrite String.eqb_eq. split; [by intros ->|by intros [= ->]].
Qed.

(** X9: for an installed dataset, [EnsureDatasetSiblingName.for_dataset]
    returns an [EnsureChoice] whose choices are exactly the names found
    in the sibling records with status [ok] and type [sibling], except
    the name ["here"], in the order of the records, with [None] put in
    front when [allow_none] is set. *)
Theorem sibling_choices_of_installed_dataset allow_none dataset :
  is_installed dataset = true ->
  exists choices,
    for_dataset (EnsureDatasetSiblingName allow_none) dataset
    = Returns (EnsureChoice
                 ((if allow_none then [PNone] else []) ++ choices))
    /\ (PStr "here" ∉ choices)
    /\ forall v,
         v ∈ choices <->
         exists r, r ∈ siblings dataset
                   /\ r !! "name" = Some v
                   /\ rget r "status" = PStr "ok"
                   /\ rget r "type" = PStr "sibling"
                   /\ v <> PStr "here".
Proof.
  intros Hinst. exists (sibling_choices dataset).
  assert (Hchar : forall v,
             v ∈ sibling_choices dataset <->
             exists r, r ∈ siblings dataset
                       /\ r !! "name" = Some v
                       /\ rget r "status" = PStr "ok"
                       /\ rget r "type" = PStr "sibling"
                       /\ v <> PStr "here").
  { intros v. unfold sibling_choices. rewrite list_elem_of_omap.
    split.
    - intros (r & Hr & Hv). exists r. split; [done|].
      destruct (r !! "name") as [name|]; [|done].
      destruct (is_str (rget r "status") "ok") eqn:Hs; [|done].
      destruct (is_str (rget r "type") "sibling") eqn:Ht; [|done].
      destruct (is_str name "here") eqn:Hh; [done|].
      cbn in Hv. injection Hv as <-.
      apply is_str_spec in Hs, Ht.
      repeat split; auto. intros Heq. apply is_str_spec in Heq. congruence.
    - intros (r & Hr & Hn & Hs & Ht & Hh). exists r. split; [done|].
      rewrite Hn. apply is_str_spec in Hs, Ht. rewrite Hs, Ht.
      destruct (is_str v "here") eqn:Hv; [|done].
      by apply is_str_spec in Hv. }
  split; [|split; [|exact Hchar]].
  - cbn [for_dataset]. rewrite Hinst. by destruct allow_none.
  - intros (r & _ & _ & _ & _ & Hne)%Hchar. done.
Qed.

Lemma prefix_cfg name :
  String.prefix "cfg_" name = true ->
  name = String.append "cfg_" (str_from 4 name).
Proof.
  destruct name as [|a [|b [|c [|d name]]]]; cbn [String.prefix];
    repeat (destruct (Ascii.ascii_dec _ _) as [<-|]; try done); done.
Qed.

Lemma prefix_cfg_append n :
  String.prefix "cfg_" (String.append "cfg_" n) = true.
Proof.
  apply String.prefix_correct. by destruct n.
Qed.

(** A record that stops the loop of [_get_procs_]: its status is [ok]
    and it holds a procedure name that is not a string. *)
Definition stops_get_procs (rs : list Constraints.record) : Prop :=
  exists r v, r ∈ rs
              /\ rget r "status" = PStr "ok"
              /\ r !! "procedure_name" = Some v
              /\ forall s, v <> PStr s.

Lemma procedure_names_spec rs :
  match procedure_names rs with
  | Returns names =>
      forall v,
        v ∈ names <->
        exists r n, r ∈ rs
                    /\ rget r "status" = PStr "ok"
                    /\ r !! "procedure_name"
                       = Some (PStr (String.append "cfg_" n))
                    /\ v = PStr n
  | Raises e =>
      e = AttributeError
      /\ exists r v, r ∈ rs
                     /\ rget r "status" = PStr "ok"
                     /\ r !! "procedure_name" = Some v
                     /\ forall s, v <> PStr s
  end.
Proof.
  induction rs as [|r rs IH]; cbn [procedure_names].
  - intros v. split; [by intros ?%elem_of_nil|].
    by intros (r & n & ?%elem_of_nil & _).
  - assert (Hskip :
      (forall n, rget r "status" = PStr "ok" ->
                 r !! "procedure_name"
                 = Some (PStr (String.append "cfg_" n)) -> False) ->
      match procedure_names rs with
      | Returns names =>
          forall v,
            v ∈ names <->
            exists r0 n, r0 ∈ r :: rs
                         /\ rget r0 "status" = PStr "ok"
                         /\ r0 !! "procedure_name"
                            = Some (PStr (String.append "cfg_" n))
                         /\ v = PStr n
      | Raises e =>
          e = AttributeError
          /\ exists r0 v, r0 ∈ r :: rs
                          /\ rget r0 "status" = PStr "ok"
                          /\ r0 !! "procedure_name" = Some v
                          /\ forall s, v <> PStr s
      end).
    { intros Hnot. destruct (procedure_names rs) as [names|e].
      - intros v. rewrite IH. split.
        + intros (r0 & n & Hr0 & Hrest). exists r0, n.
          split; [by right|done].
        + intros (r0 & n & [->|Hr0]%elem_of_cons & Hs & Hp & Hv).
          * by destruct (Hnot n).
          * by exists r0, n.
      - destruct IH as (-> & r0 & v & Hr0 & Hrest). split; [done|].
        exists r0, v. split; [by right|done]. }
    destruct (is_str (rget r "status") "ok") eqn:Hs; cbn [negb].
    2:{ apply Hskip. intros n Hok _. apply is_str_spec in Hok.
        congruence. }
    apply is_str_spec in Hs.
    destruct (r !! "procedure_name") as [pn|] eqn:Hpn.
    2:{ change (default (PStr "") None) with (PStr "").
        cbn beta iota. change (String.prefix "cfg_" "") with false.
        cbn beta iota. apply Hskip. by intros n _ ?. }
    change (default (PStr "") (Some pn)) with pn.
    destruct pn as [| | |name| | |]; cbn beta iota;
      try (split; [done|]; eexists r, _; split; [by left|];
           split; [done|]; split; [done|]; by intros s).
    destruct (String.prefix "cfg_" name) eqn:Hpre.
    + apply prefix_cfg in Hpre. unfold mbind, outcome_bind.
      destruct (procedure_names rs) as [names|e]; cbn beta iota.
      * intros v. rewrite elem_of_cons, IH. split.
        -- intros [->|(r0 & n & Hr0 & Hrest)].
           ++ exists r, (str_from 4 name). split; [by left|].
              split; [done|]. split; [|done]. by rewrite <- Hpre.
           ++ exists r0, n. split; [by right|done].
        -- intros (r0 & n & [->|Hr0]%elem_of_cons & Hs0 & Hp & Hv).
           ++ left. rewrite Hpn in Hp. injection Hp as ->.
              by rewrite Hv.
           ++ right. by exists r0, n.
      * destruct IH as (-> & r0 & v & Hr0 & Hrest). split; [done|].
        exists r0, v. split; [by right|done].
    + apply Hskip. intros n _ [= ->].
      by rewrite prefix_cfg_append in Hpre.
Qed.

Lemma procedure_names_stops rs :
  stops_get_procs rs -> procedure_names rs = Raises AttributeError.
Proof.
  induction rs as [|r rs IH]; intros (r0 & v & Hin & Hs & Hp & Hv).
  { by apply elem_of_nil in Hin. }
  cbn [procedure_names].
  apply elem_of_cons in Hin as [->|Hin].
  - apply is_str_spec in Hs. rewrite Hs, Hp. cbn [negb].
    change (default (PStr "") (Some v)) with v.
    destruct v as [| | |name| | |]; try reflexivity. by destruct (Hv name).
  - assert (Hrest : procedure_names rs = Raises AttributeError).
    { apply IH. by exists r0, v. }
    rewrite Hrest.
    destruct (negb (is_str (rget r "status") "ok")); [done|].
    destruct (default (PStr "") (r !! "procedure_name")); try reflexivity.
    by destruct (String.prefix "cfg_" s).
Qed.

(** X10: [_get_procs_] ends in [AttributeError] exactly when one of the
    discovered records with status [ok] holds a procedure name that is
    not a string, and in no other exception.  Otherwise it yields
    exactly the procedure names of the records with status [ok] that
    begin with ["cfg_"], that prefix taken off, with [None] last when
    [allow_none] is set. *)
Theorem get_procs_strips_cfg_prefix allow_none dataset :
  (stops_get_procs (discover_procedures dataset) <->
   _get_procs_ allow_none dataset = Raises AttributeError)
  /\ (forall e, _get_procs_ allow_none dataset = Raises e ->
                e = AttributeError)
  /\ (forall procs,
        _get_procs_ allow_none dataset = Returns procs ->
        exists names,
          procs = names ++ (if allow_none then [PNone] else [])
          /\ forall v,
               v ∈ names <->
               exists r n, r ∈ discover_procedures dataset
                           /\ rget r "status" = PStr "ok"
                           /\ r !! "procedure_name"
                              = Some (PStr (String.append "cfg_" n))
                           /\ v = PStr n).
Proof.
  unfold _get_procs_.
  pose proof (procedure_names_spec (discover_procedures dataset)) as Hspec.
  pose proof (procedure_names_stops (discover_procedures dataset)) as Hstop.
  unfold mbind, outcome_bind.
  destruct (procedure_names (discover_procedures dataset)) as [names|e];
    cbn beta iota.
  - split; [|split].
    + split; [intros Hbad; by specialize (Hstop Hbad)|done].
    + done.
    + intros procs [= <-]. by exists names.
  - destruct Hspec as [-> Hbad]. split; [|split].
    + by split.
    + by intros e [= <-].
    + done.
Qed.

(** X11: [EnsureExistingDirectory] returns a value only as it was
    given: a string naming an existing directory, or [None] when
    [allow_none] is set.  A string that names no directory ends in
    [ValueError], but [None] without [allow_none], like any value that
    is not a string, ends in [TypeError]. *)
Theorem existing_directory_returns_input allow_none value :
  (forall r,
     call (EnsureExistingDirectory allow_none) value = Returns r <->
     r = value
     /\ ((value = PNone /\ allow_none = true)
         \/ exists s, value = PStr s /\ is_dir s = true))
  /\ (forall s, is_dir s = false ->
        call (EnsureExistingDirectory allow_none) (PStr s)
        = Raises ValueError)
  /\ call (EnsureExistingDirectory false) PNone = Raises TypeError.
Proof.
  split; [|split; [|reflexivity]].
  - intros r. cbn [call]. unfold existing_directory.
    destruct value as [|b|n|s|l|l|d]; try (split; [done|]);
      try (intros (_ & [[[=] _]|(s' & [=] & _)]); fail).
    + destruct allow_none; split.
      * intros [= <-]. split; [done|]. by left.
      * by intros [-> _].
      * done.
      * intros (_ & [[_ [=]]|(s & [=] & _)]).
    + destruct (is_dir s) eqn:Hs; split.
      * intros [= <-]. split; [done|]. right. eauto.
      * by intros [-> _].
      * done.
      * intros (_ & [[[=] _]|(s' & [= <-] & Hs')]). congruence.
  - intros s Hs. cbn [call]. unfold existing_directory. by rewrite Hs.
Qed.

End WithCore.

(** *** Examples *)

Lemma mapping_splits_string_at_first_delimiter_witness :
  call (H := MoreScenes.plain_core)
       (EnsureMapping NoConstraint NoConstraint ":") (PStr "a:b:c")
  = call (H := MoreScenes.plain_core)
         (EnsureMapping NoConstraint NoConstraint ":")
         (PList [PStr "a"; PStr "b:c"]).
Proof.
  apply (mapping_splits_string_at_first_delimiter
           (H := MoreScenes.plain_core)
           NoConstraint NoConstraint ":"%char "a" "b:c").
  reflexivity.
Defined.

Lemma mapping_returns_single_item_dict_witness :
  exists k v,
    PDict [(PStr "a", PStr "b")] = PDict [(k, v)]
    /\ hashable k = true
    /\ (call (H := MoreScenes.plain_core) (EnsureStr 1) k = Returns k ->
        call (H := MoreScenes.plain_core) NoConstraint v = Returns v ->
        call (H := MoreScenes.plain_core)
             (EnsureMapping (EnsureStr 1) NoConstraint ":")
             (PDict [(PStr "a", PStr "b")])
        = Returns (PDict [(PStr "a", PStr "b")])).
Proof.
  apply (mapping_returns_single_item_dict (H := MoreScenes.plain_core)
           (EnsureStr 1) NoConstraint ":" (PStr "a:b")
           (PDict [(PStr "a", PStr "b")])).
  reflexivity.
Defined.

Lemma for_dataset_returns_same_constraint_witness :
  for_dataset (H := MoreScenes.plain_core)
    (EnsureMapping (EnsureStr 1) (EnsureMapping NoConstraint (EnsureStr 0) "=")
                   ":")
    MoreScenes.sample_dataset
  = Returns (EnsureMapping (EnsureStr 1)
               (EnsureMapping NoConstraint (EnsureStr 0) "=") ":").
Proof.
  apply (for_dataset_returns_same_constraint (H := MoreScenes.plain_core)).
  right. reflexivity.
Defined.

Lemma sibling_choices_of_installed_dataset_witness :
  exists choices,
    for_dataset (H := MoreScenes.plain_core) (EnsureDatasetSiblingName true)
                MoreScenes.sample_dataset
    = Returns (EnsureChoice ([PNone] ++ choices))
    /\ (PStr "here" ∉ choices)
    /\ forall v,
         v ∈ choices <->
         exists r, r ∈ siblings MoreScenes.sample_dataset
                   /\ r !! "name" = Some v
                   /\ rget r "status" = PStr "ok"
                   /\ rget r "type" = PStr "sibling"
                   /\ v <> PStr "here".
Proof.
  apply (sibling_choices_of_installed_dataset (H := MoreScenes.plain_core)
           true MoreScenes.sample_dataset).
  reflexivity.
Defined.

End ConstraintFacts.

(** ** Tree items: listing and status records *)

Module ItemMore.
Import Item ItemFacts Scenes.

(** [m] returns on a live item [i]; all it does is put [g] of the item
    in its place. *)
Definition acts_as (i : handle) (m : M store unit)
    (g : FSBrowserItem -> FSBrowserItem) : Prop :=
  forall st it,
    objs st !! i = Some it ->
    m st = (Ok tt, with_objs (<[i := g it]> (objs st)) st).

Lemma with_objs_id st : with_objs (objs st) st = st.
Proof. by destruct st. Qed.

Lemma acts_as_ret i : acts_as i (ret tt) (fun it => it).
Proof.
  intros st it E. rewrite (insert_id _ _ _ E). by rewrite with_objs_id.
Qed.

Lemma acts_as_update i f : acts_as i (update i f) f.
Proof.
  intros st it E. rewrite (update_ok _ _ _ _ E).
  by rewrite (alter_alt_Some _ _ _ _ E).
Qed.

Lemma acts_as_seq i (m1 m2 : M store unit) g1 g2 :
  acts_as i m1 g1 -> acts_as i m2 g2 ->
  acts_as i (m1 ;; m2) (fun it => g2 (g1 it)).
Proof.
  intros H1 H2 st it E. rewrite (bind_ok _ _ _ _ _ (H1 _ _ E)).
  rewrite (H2 _ (g1 it)) by (cbn; apply lookup_insert_eq).
  cbn. by rewrite insert_insert_eq.
Qed.

Lemma acts_as_when i (c : bool) m g :
  acts_as i m g -> acts_as i (when c m) (fun it => if c then g it else it).
Proof. destruct c; [done|]. intros _. apply acts_as_ret. Qed.

Lemma acts_as_ext i m g g' :
  (forall it, g it = g' it) -> acts_as i m g -> acts_as i m g'.
Proof. intros Hg Hm st it E. rewrite (Hm _ _ E). by rewrite Hg. Qed.

Lemma acts_as_setData i column v :
  acts_as i (setData i column v)
    (match column with
     | 1 => with_type v
     | 2 => with_state v
     | _ => fun it => it
     end).
Proof.
  destruct column as [|[|[|n]]]; cbn [setData];
    try apply acts_as_update;
    intros st it E; rewrite (bind_ok _ _ _ _ _ (load_ok _ _ _ E));
    apply (acts_as_ret i st it E).
Qed.

Lemma acts_as_setIcon i column icon :
  acts_as i (setIcon i column icon)
    (match column with
     | 0 => with_icon0 icon
     | 2 => with_icon2 icon
     | _ => fun it => it
     end).
Proof.
  destruct column as [|[|[|n]]]; cbn [setIcon];
    try apply acts_as_update;
    intros st it E; rewrite (bind_ok _ _ _ _ _ (load_ok _ _ _ E));
    apply (acts_as_ret i st it E).
Qed.

(** *** What the two update methods do to an item *)

(** The state a status record stands for: its [state], or the message
    of an error record without one. *)
Definition status_state (res : result) : pyval :=
  if bool_decide (dict_get res "status" = VStr "error")
     && bool_decide (is_Some (res !! "message"))
     && bool_decide (dict_get res "state" = VNone)
  then dict_get res "message"
  else dict_get res "state".

Definition status_item (res : result) (it : FSBrowserItem) : FSBrowserItem :=
  let state := status_state res in
  let it1 :=
    if truthy state
    then match _getIcon state with
         | Some icon => with_icon2 (Some icon) (with_state state it)
         | None => with_state state it
         end
    else it in
  let it2 :=
    if bool_decide (dict_get res "type" = VStr "file")
    then with_icon0
           (_getIcon (VStr (if truthy (dict_get res "key")
                            then "file-git" else "file-annex"))) it1
    else it1 in
  if truthy (dict_get res "type")
  then with_type (dict_get res "type") it2
  else it2.

Lemma acts_as_icon i column (o : option string) :
  acts_as i
    (match o with
     | Some icon => setIcon i column (Some icon)
     | None => ret tt
     end)
    (match o, column with
     | Some icon, 0 => with_icon0 (Some icon)
     | Some icon, 2 => with_icon2 (Some icon)
     | _, _ => fun it => it
     end).
Proof.
  destruct o as [icon|]; [|apply acts_as_ret].
  eapply acts_as_ext; [|apply acts_as_setIcon].
  by destruct column as [|[|[|n]]].
Qed.

Lemma update_from_status_result_acts self res :
  acts_as self (update_from_status_result self res) (status_item res).
Proof.
  unfold update_from_status_result. fold (status_state res).
  pose proof (acts_as_seq self _ _ _ _
                (acts_as_when self (truthy (status_state res)) _ _
                   (acts_as_seq self _ _ _ _
                      (acts_as_setData self 2 (status_state res))
                      (acts_as_icon self 2 (_getIcon (status_state res)))))
                (acts_as_seq self _ _ _ _
                   (acts_as_when self
                      (bool_decide (dict_get res "type" = VStr "file")) _ _
                      (acts_as_setIcon self 0
                         (_getIcon (VStr (if truthy (dict_get res "key")
                                          then "file-git"
                                          else "file-annex")))))
                   (acts_as_when self (truthy (dict_get res "type")) _ _
                      (acts_as_setData self 1 (dict_get res "type")))))
    as Hacts.
  eapply acts_as_ext; [|exact Hacts].
  intros it. unfold status_item.
  destruct (truthy (status_state res)), (_getIcon (status_state res)),
    (bool_decide (dict_get res "type" = VStr "file")),
    (truthy (dict_get res "type")); reflexivity.
Qed.

Definition permission_denied (res : result) : bool :=
  bool_decide (dict_get res "status" = VStr "error")
  && bool_decide (dict_get res "message" = VStr "Permissions denied").

Definition lsdir_item (res : result) (path_type : pyval)
    (it : FSBrowserItem) : FSBrowserItem :=
  let it1 := with_type path_type it in
  let it2 :=
    if bool_decide (path_type ≠ VStr "file")
    then match _getIcon path_type with
         | Some icon => with_icon0 (Some icon) it1
         | None => it1
         end
    else it1 in
  if permission_denied res
  then let it3 := with_disabled true it2 in
       if Nat.eqb (length (children it3)) 0
       then with_indicator DontShowIndicator it3 else it3
  else let it3 := with_disabled false it2 in
       let it4 :=
         if bool_decide (path_type = VStr "directory")
            || bool_decide (path_type = VStr "dataset")
         then with_indicator ShowIndicator it3 else it3 in
       if bool_decide (path_type = VStr "directory")
       then with_state (VStr "") it4 else it4.

Lemma acts_as_childCount i (k : nat -> M store unit) g :
  (forall n, acts_as i (k n) (g n)) ->
  acts_as i (n ← childCount i; k n)
    (fun it => g (length (children it)) it).
Proof.
  intros Hk st it E. unfold childCount.
  rewrite bind_assoc. rewrite (bind_ok _ _ _ _ _ (load_ok _ _ _ E)).
  unfold ret at 1. unfold mbind, M_bind, bind at 1.
  apply (Hk _ _ _ E).
Qed.

Lemma update_from_lsdir_result_acts self res path_type :
  res !! "type" = Some path_type ->
  acts_as self (update_from_lsdir_result self res) (lsdir_item res path_type).
Proof.
  intros Ht.
  assert (Hicons : acts_as self (_setItemIcons self res)
            (fun it => if bool_decide (path_type ≠ VStr "file")
                       then match _getIcon path_type with
                            | Some icon => with_icon0 (Some icon) it
                            | None => it
                            end
                       else it)).
  { unfold _setItemIcons, dict_item. rewrite Ht.
    intros st it E. unfold mbind at 1, M_bind at 1, bind at 1, ret at 1.
    case_bool_decide; [|apply (acts_as_ret self st it E)].
    rewrite (acts_as_icon self 0 (_getIcon path_type) st it E).
    by destruct (_getIcon path_type). }
  assert (Hdenied : acts_as self
            (setDisabled self true ;;
             n ← childCount self;
             when (Nat.eqb n 0)
               (setChildIndicatorPolicy self DontShowIndicator))
            (fun it =>
               (fun it3 => if Nat.eqb (length (children it3)) 0
                           then with_indicator DontShowIndicator it3
                           else it3) (with_disabled true it))).
  { assert (Hcount : acts_as self
              (n ← childCount self;
               when (Nat.eqb n 0)
                 (setChildIndicatorPolicy self DontShowIndicator))
              (fun it => if Nat.eqb (length (children it)) 0
                         then with_indicator DontShowIndicator it
                         else it)).
    { apply (acts_as_childCount self
               (fun n => when (Nat.eqb n 0)
                           (setChildIndicatorPolicy self DontShowIndicator))
               (fun n it => if Nat.eqb n 0
                            then with_indicator DontShowIndicator it
                            else it)).
      intros n. apply acts_as_when, acts_as_update. }
    exact (acts_as_seq self _ _ _ _
             (acts_as_update self (with_disabled true)) Hcount). }
  pose proof (acts_as_seq self _ _ _ _
                (acts_as_update self (with_disabled false))
                (acts_as_seq self _ _ _ _
                   (acts_as_when self
                      (bool_decide (path_type = VStr "directory")
                       || bool_decide (path_type = VStr "dataset")) _ _
                      (acts_as_update self (with_indicator ShowIndicator)))
                   (acts_as_when self
                      (bool_decide (path_type = VStr "directory")) _ _
                      (acts_as_setData self 2 (VStr ""))))) as Hlisted.
  intros st it E. unfold update_from_lsdir_result, dict_item. rewrite Ht.
  unfold mbind at 1, M_bind at 1, bind at 1, ret at 1.
  fold (permission_denied res).
  destruct (permission_denied res) eqn:Hd.
  - etrans;
      [exact (acts_as_seq self _ _ _ _ (acts_as_setData self 1 path_type)
                (acts_as_seq self _ _ _ _ Hicons Hdenied) st it E)|].
    unfold lsdir_item. rewrite Hd. reflexivity.
  - etrans;
      [exact (acts_as_seq self _ _ _ _ (acts_as_setData self 1 path_type)
                (acts_as_seq self _ _ _ _ Hicons Hlisted) st it E)|].
    unfold lsdir_item. rewrite Hd. reflexivity.
Qed.

Lemma lsdir_item_idemp res path_type it :
  lsdir_item res path_type (lsdir_item res path_type it)
  = lsdir_item res path_type it.
Proof.
  unfold lsdir_item.
  destruct it as [p ty stt i0 i2 dis ind cs par lk].
  destruct (bool_decide (path_type ≠ VStr "file")),
    (_getIcon path_type), (permission_denied res),
    (bool_decide (path_type = VStr "directory")),
    (bool_decide (path_type = VStr "dataset")); cbn;
    try reflexivity; by destruct cs.
Qed.

(** X12: applying the same listing record to a live item twice leaves
    the outcome and the store of the first application: the record is
    turned down twice with [KeyError] when it has no type, and
    otherwise the second application changes nothing. *)
Theorem lsdir_update_is_idempotent self res st it :
  objs st !! self = Some it ->
  (update_from_lsdir_result self res ;; update_from_lsdir_result self res) st
  = update_from_lsdir_result self res st.
Proof.
  intros E. destruct (res !! "type") as [path_type|] eqn:Ht.
  - pose proof (update_from_lsdir_result_acts self res path_type Ht) as Hu.
    rewrite (acts_as_seq self _ _ _ _ Hu Hu st it E), (Hu st it E).
    by rewrite lsdir_item_idemp.
  - assert (Hraise : update_from_lsdir_result self res st
                     = (Raise KeyError, st)).
    { unfold update_from_lsdir_result, dict_item. by rewrite Ht. }
    by rewrite (bind_raise _ _ _ _ _ Hraise), Hraise.
Qed.

(** X13: [update_from_status_result] returns for every record; in the
    store it replaces the one item and nothing else, and of that item
    only type, state and the two icons can differ afterwards: path,
    children, parent, name lookup, disabled flag and expansion
    indicator stay.  A record whose state (or, for an error record
    without state, whose message) is missing or empty and that has no
    type leaves the item as it is. *)
Theorem status_update_keeps_structure self res st it :
  objs st !! self = Some it ->
  exists it',
    update_from_status_result self res st
    = (Ok tt, with_objs (<[self := it']> (objs st)) st)
    /\ pathobj it' = pathobj it
    /\ children it' = children it
    /\ parent it' = parent it
    /\ _child_lookup it' = _child_lookup it
    /\ disabled it' = disabled it
    /\ indicator it' = indicator it
    /\ (truthy (status_state res) = false ->
        truthy (dict_get res "type") = false -> it' = it).
Proof.
  intros E. exists (status_item res it).
  split; [apply (update_from_status_result_acts self res st it E)|].
  unfold status_item.
  destruct (truthy (status_state res)) eqn:Hs,
    (_getIcon (status_state res)),
    (bool_decide (dict_get res "type" = VStr "file")) eqn:Hf,
    (truthy (dict_get res "type")) eqn:Ht;
    repeat split; try reflexivity; try discriminate.
  all: intros _ _; apply bool_decide_eq_true in Hf; rewrite Hf in Ht;
    discriminate.
Qed.

(** *** Making and removing children *)

(** Every handle in use, as an item or as a child, lies below the counter
    that new handles are taken from. *)
Definition fresh (st : store) : Prop :=
  forall i it,
    objs st !! i = Some it ->
    i < next_handle st /\ forall c, c ∈ children it -> c < next_handle st.

(** The item the constructor makes. *)
Definition blank (p : path) (par : option handle) : FSBrowserItem :=
  MkItem p VNone VNone None None false DontShowIndicatorWhenChildless []
         par None.

(** The parent once the child [i] was appended and registered under
    [name]. *)
Definition attach (i : handle) (name : string) (pit : FSBrowserItem)
  : FSBrowserItem :=
  with_lookup (Some (<[name := i]> (default ∅ (_child_lookup pit))))
              (with_children (children pit ++ [i]) pit).

(** The store once the child was made under [q]. *)
Definition attached (q : handle) (p : path) (pit : FSBrowserItem)
    (st : store) : store :=
  MkStore (<[q := attach (next_handle st) (path_name p) pit]>
             (<[next_handle st := blank p (Some q)]> (objs st)))
          (S (next_handle st)) (data_changed st).

Lemma ret_bind {S A B} (a : A) (k : A -> M S B) s :
  (x ← ret a; k x) s = k a s.
Proof. reflexivity. Qed.

Lemma new_item_under q p pit st :
  objs st !! q = Some pit ->
  q <> next_handle st ->
  new_item p (ParentItem q) st
  = (Ok (next_handle st),
     MkStore (<[q := with_children (children pit ++ [next_handle st]) pit]>
                (<[next_handle st := blank p (Some q)]> (objs st)))
             (S (next_handle st)) (data_changed st)).
Proof.
  intros E Hne. unfold new_item.
  rewrite bind_assoc, (bind_ok _ _ _ _ _ (load_ok _ _ _ E)).
  unfold get, modify, ret, mbind, M_bind, bind.
  erewrite (acts_as_update q _ _ pit)
    by (cbn; rewrite lookup_insert_ne by congruence; exact E).
  reflexivity.
Qed.

Lemma register_child_run q name i pit st :
  objs st !! q = Some pit ->
  _register_child q name i st
  = (Ok tt,
     with_objs (<[q := with_lookup
                         (Some (<[name := i]> (default ∅ (_child_lookup pit))))
                         pit]> (objs st)) st).
Proof.
  intros E. unfold _register_child.
  rewrite (bind_ok _ _ _ _ _ (load_ok _ _ _ E)).
  apply (acts_as_update q _ st pit E).
Qed.

(** [from_lsdir_result] under a live parent: the child is made, appended
    and registered before the record is looked at any further. *)
Lemma from_lsdir_result_under res s q pit st :
  objs st !! q = Some pit ->
  q <> next_handle st ->
  res !! "path" = Some (VStr s) ->
  from_lsdir_result res (ParentItem q) st
  = match update_from_lsdir_result (next_handle st) res
            (attached q (Path s) pit st) with
    | (Ok _, st') => (Ok (next_handle st), st')
    | (Raise e, st') => (Raise e, st')
    end.
Proof.
  intros E Hne Hp. unfold from_lsdir_result, dict_item. rewrite Hp.
  rewrite !ret_bind.
  rewrite (bind_ok _ _ _ _ _ (new_item_under q (Path s) pit st E Hne)).
  set (st1 := MkStore _ _ _).
  assert (E1 : objs st1 !! q
               = Some (with_children (children pit ++ [next_handle st]) pit)).
  { subst st1. cbn. by rewrite lookup_insert_eq. }
  rewrite (bind_ok _ _ _ _ _
             (register_child_run q (path_name (Path s)) (next_handle st)
                _ st1 E1)).
  assert (with_objs
            (<[q := with_lookup
                      (Some (<[path_name (Path s) := next_handle st]>
                               (default ∅ (_child_lookup
                                  (with_children
                                     (children pit ++ [next_handle st])
                                     pit)))))
                      (with_children (children pit ++ [next_handle st]) pit)]>
               (objs st1)) st1
          = attached q (Path s) pit st) as ->.
  { subst st1. unfold attached, attach, with_objs. cbn.
    by rewrite insert_insert_eq. }
  unfold mbind, M_bind, bind, ret.
  by destruct (update_from_lsdir_result _ _ _) as [[[]|e] st'].
Qed.

Lemma fresh_parent q pit st :
  fresh st -> objs st !! q = Some pit ->
  q <> next_handle st /\ (next_handle st ∉ children pit)
  /\ objs st !! next_handle st = None.
Proof.
  intros Hf E. destruct (Hf _ _ E) as [Hq Hc]. split; [lia|]. split.
  - intros Hin. specialize (Hc _ Hin). lia.
  - destruct (objs st !! next_handle st) as [it|] eqn:En; [|done].
    destruct (Hf _ _ En). lia.
Qed.

Lemma filter_out_fresh (i : handle) (l : list handle) :
  i ∉ l -> List.filter (fun c => negb (Nat.eqb c i)) (l ++ [i]) = l.
Proof.
  induction l as [|c l IH]; intros Hi; cbn.
  - by rewrite Nat.eqb_refl.
  - apply not_elem_of_cons in Hi as [Hne Hi].
    destruct (Nat.eqb_spec c i) as [->|_]; [done|]. cbn. by rewrite IH.
Qed.

(** X14: a listing record with a path and a type, given to
    [from_lsdir_result] with a live item as parent, makes one new item
    and returns it.  The item is the last child of the parent, has the
    path and the type of the record, the parent as its parent and no
    children; when the record reports denied permissions it is set to
    show no expansion indicator.  No other item changes, and the parent
    finds the new item under its name. *)
Theorem lsdir_child_is_attached_and_found res s t q pit st :
  fresh st ->
  objs st !! q = Some pit ->
  res !! "path" = Some (VStr s) ->
  res !! "type" = Some t ->
  exists st' pit' cit,
    from_lsdir_result res (ParentItem q) st = (Ok (next_handle st), st')
    /\ fresh st'
    /\ objs st' !! q = Some pit'
    /\ children pit' = children pit ++ [next_handle st]
    /\ objs st' !! next_handle st = Some cit
    /\ pathobj cit = Path s /\ col_type cit = t
    /\ parent cit = Some q /\ children cit = []
    /\ (permission_denied res = true -> indicator cit = DontShowIndicator)
    /\ (forall j, j <> q -> j <> next_handle st ->
                  objs st' !! j = objs st !! j)
    /\ fst (getitem q (path_name (Path s)) st') = Ok (Some (next_handle st)).
Proof.
  intros Hf E Hp Ht.
  destruct (fresh_parent _ _ _ Hf E) as (Hne & Hnin & Hnew).
  set (i := next_handle st) in *.
  set (new := lsdir_item res t (blank (Path s) (Some q))).
  set (st1 := attached q (Path s) pit st).
  assert (E1 : objs st1 !! i = Some (blank (Path s) (Some q))).
  { subst st1. unfold attached. cbn. fold i.
    rewrite lookup_insert_ne by done. apply lookup_insert_eq. }
  exists (with_objs (<[i := new]> (objs st1)) st1),
         (attach i (path_name (Path s)) pit), new.
  assert (Eq : objs (with_objs (<[i := new]> (objs st1)) st1) !! q
               = Some (attach i (path_name (Path s)) pit)).
  { cbn. rewrite lookup_insert_ne by done. subst st1. unfold attached. cbn.
    apply lookup_insert_eq. }
  split.
  { rewrite (from_lsdir_result_under res s q pit st E Hne Hp). fold i st1.
    by rewrite (update_from_lsdir_result_acts i res t Ht st1 _ E1). }
  assert (Hnew_fields :
            pathobj new = Path s /\ col_type new = t
            /\ parent new = Some q /\ children new = []
            /\ (permission_denied res = true ->
                indicator new = DontShowIndicator)).
  { subst new. unfold lsdir_item, blank.
    destruct (bool_decide (t ≠ VStr "file")), (_getIcon t),
      (permission_denied res), (bool_decide (t = VStr "directory")),
      (bool_decide (t = VStr "dataset")); cbn; repeat split; done. }
  destruct Hnew_fields as (Hn1 & Hn2 & Hn3 & Hn4 & Hn5).
  split.
  { intros j jt. cbn. fold i.
    destruct (decide (j = i)) as [->|Hji].
    - rewrite lookup_insert_eq. intros [= <-]. rewrite Hn4.
      split; [lia|]. by intros c ?%elem_of_nil.
    - rewrite lookup_insert_ne by done. subst st1. unfold attached. cbn.
      fold i. destruct (decide (j = q)) as [->|Hjq].
      + rewrite lookup_insert_eq. intros [= <-]. cbn.
        destruct (Hf _ _ E) as [Hq Hc]. fold i in Hq, Hc.
        split; [lia|]. intros c [Hc'|Hc']%elem_of_app.
        * specialize (Hc _ Hc'). lia.
        * apply list_elem_of_singleton in Hc'. lia.
      + rewrite !lookup_insert_ne by done. intros Ej.
        destruct (Hf _ _ Ej) as [Hj Hc]. fold i in Hj, Hc.
        split; [lia|]. intros c Hc'. specialize (Hc _ Hc'). lia. }
  split; [exact Eq|]. split; [reflexivity|].
  split; [cbn; apply lookup_insert_eq|].
  do 5 (split; [assumption|]).
  split.
  { intros j Hjq Hji. cbn. rewrite lookup_insert_ne by done.
    subst st1. unfold attached. cbn. fold i.
    by rewrite !lookup_insert_ne. }
  unfold getitem. rewrite (bind_ok _ _ _ _ _ (load_ok _ _ _ Eq)).
  cbn. by rewrite lookup_insert_eq.
Qed.

(** X15: a listing record with a path but without a type makes
    [from_lsdir_result] end with [KeyError] after the new item was
    made: the item stays behind as the last child of the parent,
    registered under its name, without a type. *)
Theorem lsdir_child_without_type_stays_attached res s q pit st :
  fresh st ->
  objs st !! q = Some pit ->
  res !! "path" = Some (VStr s) ->
  res !! "type" = None ->
  exists st' pit' cit lk,
    from_lsdir_result res (ParentItem q) st = (Raise KeyError, st')
    /\ objs st' !! q = Some pit'
    /\ children pit' = children pit ++ [next_handle st]
    /\ _child_lookup pit' = Some lk
    /\ lk !! path_name (Path s) = Some (next_handle st)
    /\ objs st' !! next_handle st = Some cit
    /\ pathobj cit = Path s /\ col_type cit = VNone
    /\ parent cit = Some q.
Proof.
  intros Hf E Hp Ht.
  destruct (fresh_parent _ _ _ Hf E) as (Hne & Hnin & Hnew).
  exists (attached q (Path s) pit st),
         (attach (next_handle st) (path_name (Path s)) pit),
         (blank (Path s) (Some q)),
         (<[path_name (Path s) := next_handle st]>
            (default ∅ (_child_lookup pit))).
  split.
  { rewrite (from_lsdir_result_under res s q pit st E Hne Hp).
    unfold update_from_lsdir_result, dict_item. by rewrite Ht. }
  unfold attached. cbn.
  rewrite (lookup_insert_ne _ q (next_handle st)) by done.
  by rewrite !lookup_insert_eq.
Qed.

(** X16: making a child with [from_lsdir_result] and taking it out again
    with [removeChild] both return, and the parent has the children it
    had before.  Its name lookup has lost the name of the child, whatever
    was registered under that name before, so the parent no longer finds
    anything under it; and taking the child out once more ends with
    [KeyError]. *)
Theorem listed_child_removal_round_trip res s t q pit st :
  fresh st ->
  objs st !! q = Some pit ->
  res !! "path" = Some (VStr s) ->
  res !! "type" = Some t ->
  let i := next_handle st in
  let name := path_name (Path s) in
  exists st1 st2 pit2,
    from_lsdir_result res (ParentItem q) st = (Ok i, st1)
    /\ removeChild q i st1 = (Ok tt, st2)
    /\ objs st2 !! q = Some pit2
    /\ children pit2 = children pit
    /\ _child_lookup pit2
       = Some (delete name (default ∅ (_child_lookup pit)))
    /\ fst (getitem q name st2) = Ok None
    /\ fst (removeChild q i st2) = Raise KeyError.
Proof.
  intros Hf E Hp Ht i name.
  destruct (fresh_parent _ _ _ Hf E) as (Hne & Hnin & Hnew).
  fold i in Hne, Hnin, Hnew.
  set (new := lsdir_item res t (blank (Path s) (Some q))).
  set (st0 := attached q (Path s) pit st).
  assert (E0 : objs st0 !! i = Some (blank (Path s) (Some q))).
  { subst st0. unfold attached. cbn. fold i.
    rewrite lookup_insert_ne by done. apply lookup_insert_eq. }
  set (st1 := with_objs (<[i := new]> (objs st0)) st0).
  assert (Hnewp : pathobj new = Path s).
  { subst new. unfold lsdir_item, blank.
    by destruct (bool_decide (t ≠ VStr "file")), (_getIcon t),
      (permission_denied res), (bool_decide (t = VStr "directory")),
      (bool_decide (t = VStr "dataset")). }
  set (pit1 := attach i name pit).
  assert (Eq1 : objs st1 !! q = Some pit1).
  { subst st1 st0. unfold attached. cbn. fold i name pit1.
    rewrite lookup_insert_ne by done. apply lookup_insert_eq. }
  assert (Ei1 : objs st1 !! i = Some new).
  { subst st1. cbn. apply lookup_insert_eq. }
  (* the removal, step by step *)
  set (f := with_children (List.filter (fun c => negb (Nat.eqb c i))
                                       (children pit1))).
  set (sta := with_objs (<[q := f pit1]> (objs st1)) st1).
  assert (Eia : objs sta !! i = Some new).
  { subst sta. cbn [objs with_objs]. by rewrite lookup_insert_ne. }
  set (stb := with_objs (<[i := with_parent None new]> (objs sta)) sta).
  assert (Hqt : qt_removeChild q i st1 = (Ok tt, stb)).
  { unfold qt_removeChild.
    rewrite (bind_ok _ _ _ _ _ (load_ok _ _ _ Eq1)).
    rewrite bool_decide_true
      by (subst pit1; cbn; apply elem_of_app; right; by left).
    fold f.
    rewrite (bind_ok _ _ _ _ _ (acts_as_update q f st1 pit1 Eq1)).
    fold sta.
    exact (acts_as_update i (with_parent None) sta new Eia). }
  assert (Eqb : objs stb !! q = Some (f pit1)).
  { subst stb sta. cbn [objs with_objs].
    rewrite lookup_insert_ne by done. apply lookup_insert_eq. }
  assert (Eib : objs stb !! i = Some (with_parent None new)).
  { subst stb. cbn [objs with_objs]. apply lookup_insert_eq. }
  set (lk2 := delete name (default ∅ (_child_lookup pit))).
  set (pit2 := with_lookup (Some lk2) (f pit1)).
  set (st2 := with_objs (<[q := pit2]> (objs stb)) stb).
  assert (Hdel : delete name (<[name := i]> (default ∅ (_child_lookup pit)))
                 = lk2).
  { subst lk2. apply delete_insert_eq. }
  assert (Hrm : removeChild q i st1 = (Ok tt, st2)).
  { unfold removeChild. rewrite (bind_ok _ _ _ _ _ Hqt).
    rewrite (bind_ok _ _ _ _ _ (get_pathobj_ok _ _ _ Eib)).
    rewrite (bind_ok _ _ _ _ _ (load_ok _ _ _ Eqb)).
    cbn [_child_lookup with_parent pathobj f with_children pit1 attach
         with_lookup].
    rewrite Hnewp. fold name. rewrite lookup_insert_eq.
    rewrite (acts_as_update q _ stb (f pit1) Eqb).
    subst st2 pit2. unfold with_lookup at 1. cbn [_child_lookup].
    rewrite Hdel. reflexivity. }
  assert (Eq2 : objs st2 !! q = Some pit2).
  { subst st2. cbn [objs with_objs]. apply lookup_insert_eq. }
  assert (Ei2 : objs st2 !! i = Some (with_parent None new)).
  { subst st2. cbn [objs with_objs]. by rewrite lookup_insert_ne. }
  assert (Hcs : children pit2 = children pit).
  { subst pit2 f pit1. cbn. by apply filter_out_fresh. }
  exists st1, st2, pit2.
  split.
  { rewrite (from_lsdir_result_under res s q pit st E Hne Hp). fold i st0.
    by rewrite (update_from_lsdir_result_acts i res t Ht st0 _ E0). }
  split; [exact Hrm|]. split; [exact Eq2|]. split; [exact Hcs|].
  split; [reflexivity|]. split.
  - unfold getitem. rewrite (bind_ok _ _ _ _ _ (load_ok _ _ _ Eq2)).
    cbn. subst lk2. by rewrite lookup_delete_eq.
  - unfold removeChild.
    assert (Hqt2 : qt_removeChild q i st2 = (Ok tt, st2)).
    { unfold qt_removeChild.
      rewrite (bind_ok _ _ _ _ _ (load_ok _ _ _ Eq2)).
      rewrite bool_decide_false by (by rewrite Hcs). reflexivity. }
    rewrite (bind_ok _ _ _ _ _ Hqt2).
    rewrite (bind_ok _ _ _ _ _ (get_pathobj_ok _ _ _ Ei2)).
    rewrite (bind_ok _ _ _ _ _ (load_ok _ _ _ Eq2)).
    cbn [_child_lookup with_parent pathobj pit2 with_lookup].
    rewrite Hnewp. fold name. subst lk2. by rewrite lookup_delete_eq.
Qed.

Lemma lsdir_item_keeps res t it :
  pathobj (lsdir_item res t it) = pathobj it
  /\ children (lsdir_item res t it) = children it
  /\ parent (lsdir_item res t it) = parent it.
Proof.
  unfold lsdir_item. destruct it as [p ty stt i0 i2 dis ind cs par lk].
  by destruct (bool_decide (t ≠ VStr "file")), (_getIcon t),
    (permission_denied res), (bool_decide (t = VStr "directory")),
    (bool_decide (t = VStr "dataset")), cs.
Qed.

(** The store once a child was made under [q] from a record with a
    type. *)
Definition with_child (res : result) (s : string) (t : pyval) (q : handle)
    (pit : FSBrowserItem) (st : store) : store :=
  with_objs (<[next_handle st :=
                 lsdir_item res t (blank (Path s) (Some q))]>
               (objs (attached q (Path s) pit st)))
            (attached q (Path s) pit st).

Lemma from_lsdir_result_typed res s t q pit st :
  objs st !! q = Some pit ->
  q <> next_handle st ->
  res !! "path" = Some (VStr s) ->
  res !! "type" = Some t ->
  from_lsdir_result res (ParentItem q) st
  = (Ok (next_handle st), with_child res s t q pit st).
Proof.
  intros E Hne Hp Ht.
  rewrite (from_lsdir_result_under res s q pit st E Hne Hp).
  erewrite (update_from_lsdir_result_acts (next_handle st) res t Ht);
    [reflexivity|].
  unfold attached. cbn. rewrite lookup_insert_ne by done.
  apply lookup_insert_eq.
Qed.

(** *** Examples *)

Lemma ds_store_fresh : fresh ds_store.
Proof.
  assert (Hn : next_handle ds_store = 3) by (vm_compute; reflexivity).
  intros i it. rewrite BrowserFacts.ds_store_objs, Hn.
  destruct (decide (i = 0)) as [->|H0].
  { rewrite lookup_insert_eq. intros [= <-]. split; [lia|].
    intros c Hc. cbn in Hc. set_unfold. lia. }
  rewrite lookup_insert_ne by done.
  destruct (decide (i = 1)) as [->|H1].
  { rewrite lookup_insert_eq. intros [= <-]. split; [lia|].
    intros c Hc. cbn in Hc. by apply elem_of_nil in Hc. }
  rewrite lookup_insert_ne by done.
  destruct (decide (i = 2)) as [->|H2].
  { rewrite lookup_insert_eq. intros [= <-]. split; [lia|].
    intros c Hc. cbn in Hc. by apply elem_of_nil in Hc. }
  rewrite lookup_insert_ne by done. by rewrite lookup_empty.
Qed.

Lemma lsdir_update_is_idempotent_witness :
  let res := lsdir_result "/ds/a.txt" "file" in
  (update_from_lsdir_result 1 res ;; update_from_lsdir_result 1 res) ds_store
  = update_from_lsdir_result 1 res ds_store.
Proof.
  intros res.
  apply (lsdir_update_is_idempotent 1 res ds_store ds_file).
  vm_compute; reflexivity.
Defined.

Lemma status_update_keeps_structure_witness :
  let res : result :=
    <["state" := VStr "modified"]> {["type" := VStr "file"]} in
  exists it',
    update_from_status_result 1 res ds_store
    = (Ok tt, with_objs (<[1 := it']> (objs ds_store)) ds_store)
    /\ pathobj it' = pathobj ds_file
    /\ children it' = children ds_file
    /\ parent it' = parent ds_file
    /\ _child_lookup it' = _child_lookup ds_file
    /\ disabled it' = disabled ds_file
    /\ indicator it' = indicator ds_file
    /\ (truthy (status_state res) = false ->
        truthy (dict_get res "type") = false -> it' = ds_file).
Proof.
  intros res.
  apply (status_update_keeps_structure 1 res ds_store ds_file).
  vm_compute; reflexivity.
Defined.

Lemma lsdir_child_is_attached_and_found_witness :
  let res := lsdir_result "/ds/sub/x.txt" "file" in
  exists st' pit' cit,
    from_lsdir_result res (ParentItem 2) ds_store
    = (Ok (next_handle ds_store), st')
    /\ fresh st'
    /\ objs st' !! 2 = Some pit'
    /\ children pit' = children ds_sub ++ [next_handle ds_store]
    /\ objs st' !! next_handle ds_store = Some cit
    /\ pathobj cit = Path "/ds/sub/x.txt" /\ col_type cit = VStr "file"
    /\ parent cit = Some 2 /\ children cit = []
    /\ (permission_denied res = true -> indicator cit = DontShowIndicator)
    /\ (forall j, j <> 2 -> j <> next_handle ds_store ->
                  objs st' !! j = objs ds_store !! j)
    /\ fst (getitem 2 (path_name (Path "/ds/sub/x.txt")) st')
       = Ok (Some (next_handle ds_store)).
Proof.
  intros res.
  apply (lsdir_child_is_attached_and_found res "/ds/sub/x.txt" (VStr "file")
           2 ds_sub ds_store ds_store_fresh);
    vm_compute; reflexivity.
Defined.

Lemma lsdir_child_without_type_stays_attached_witness :
  let res : result := {["path" := VStr "/ds/sub/x.txt"]} in
  exists st' pit' cit lk,
    from_lsdir_result res (ParentItem 2) ds_store = (Raise KeyError, st')
    /\ objs st' !! 2 = Some pit'
    /\ children pit' = children ds_sub ++ [next_handle ds_store]
    /\ _child_lookup pit' = Some lk
    /\ lk !! path_name (Path "/ds/sub/x.txt") = Some (next_handle ds_store)
    /\ objs st' !! next_handle ds_store = Some cit
    /\ pathobj cit = Path "/ds/sub/x.txt" /\ col_type cit = VNone
    /\ parent cit = Some 2.
Proof.
  intros res.
  apply (lsdir_child_without_type_stays_attached res "/ds/sub/x.txt"
           2 ds_sub ds_store ds_store_fresh);
    vm_compute; reflexivity.
Defined.

Lemma listed_child_removal_round_trip_witness :
  let res := lsdir_result "/ds/b.txt" "file" in
  let i := next_handle ds_store in
  let name := path_name (Path "/ds/b.txt") in
  exists st1 st2 pit2,
    from_lsdir_result res (ParentItem 0) ds_store = (Ok i, st1)
    /\ removeChild 0 i st1 = (Ok tt, st2)
    /\ objs st2 !! 0 = Some pit2
    /\ children pit2 = children ds_root
    /\ _child_lookup pit2
       = Some (delete name (default ∅ (_child_lookup ds_root)))
    /\ fst (getitem 0 name st2) = Ok None
    /\ fst (removeChild 0 i st2) = Raise KeyError.
Proof.
  intros res.
  apply (listed_child_removal_round_trip res "/ds/b.txt" (VStr "file")
           0 ds_root ds_store ds_store_fresh);
    vm_compute; reflexivity.
Defined.

End ItemMore.

(** ** The browser: lookups, the receiver, the tick *)

Module BrowserMore.
Import Item CmdExec Browser Scenes ItemFacts BrowserFacts ItemMore.

(** *** Two ways to find a child by name *)

(** The name a child is looked up by. *)
Definition item_name (st : store) (c : handle) : option string :=
  (fun it => path_name (pathobj it)) <$> objs st !! c.

Lemma find_child_cons p c cs st :
  find_child p (c :: cs) st
  = match objs st !! c with
    | None => (Raise DanglingHandle, st)
    | Some cit =>
        if bool_decide (p = path_name (pathobj cit)) then (Ok (Some c), st)
        else find_child p cs st
    end.
Proof.
  cbn [find_child]. destruct (objs st !! c) as [cit|] eqn:E.
  - rewrite (bind_ok _ _ _ _ _ (data_ok _ _ 0 _ E)).
    repeat case_bool_decide; try done; congruence.
  - apply bind_raise. unfold data.
    apply bind_raise. by apply load_dangling.
Qed.

Lemma find_child_found p cs st c :
  fst (find_child p cs st) = Ok (Some c) ->
  c ∈ cs /\ item_name st c = Some p.
Proof.
  induction cs as [|c' cs IH]; [done|].
  rewrite find_child_cons. unfold item_name.
  destruct (objs st !! c') as [cit|] eqn:E; [|done].
  case_bool_decide as Hp.
  - intros [= <-]. split; [by left|]. rewrite E. cbn. by rewrite Hp.
  - intros Hf. destruct (IH Hf). split; [by right|done].
Qed.

Lemma build_lookup_scan name st cs : forall acc,
  (forall c, c ∈ cs -> is_Some (objs st !! c)) ->
  NoDup (omap (item_name st) cs) ->
  exists lk r,
    build_lookup cs acc st = (Ok lk, st)
    /\ find_child name cs st = (Ok r, st)
    /\ lk !! name = match r with Some c => Some c | None => acc !! name end.
Proof.
  induction cs as [|c cs IH]; intros acc Hlive Hnd.
  - by exists acc, None.
  - destruct (Hlive c) as [cit E]; [by left|].
    assert (En : item_name st c = Some (path_name (pathobj cit)))
      by (unfold item_name; by rewrite E).
    cbn [omap list_omap] in Hnd. rewrite En in Hnd.
    apply NoDup_cons in Hnd as [Hfirst Hnd].
    destruct (IH (<[path_name (pathobj cit) := c]> acc))
      as (lk & r & Hb & Hs & Hlk); [intros; apply Hlive; by right|done|].
    cbn [build_lookup]. rewrite (bind_ok _ _ _ _ _ (load_ok _ _ _ E)).
    rewrite find_child_cons, E.
    exists lk. case_bool_decide as Hp.
    + exists (Some c). split; [done|]. split; [done|].
      rewrite Hlk. destruct r as [c'|].
      * exfalso. apply Hfirst.
        assert (Hc' : fst (find_child name cs st) = Ok (Some c'))
          by (by rewrite Hs).
        apply find_child_found in Hc' as [Hin Hn].
        apply list_elem_of_omap. exists c'. split; [done|]. by rewrite Hn, Hp.
      * rewrite Hp. apply lookup_insert_eq.
    + exists r. split; [done|]. split; [done|].
      rewrite Hlk. destruct r; [done|].
      by rewrite lookup_insert_ne.
Qed.

(** X17: on an item whose name lookup was not built yet and whose
    children are live and have pairwise different names, [self[name]]
    gives what the scan over the children in [_get_item_from_path]
    gives: the child of that name, or nothing. *)
Theorem getitem_agrees_with_scan self it name st :
  objs st !! self = Some it ->
  _child_lookup it = None ->
  (forall c, c ∈ children it -> is_Some (objs st !! c)) ->
  NoDup (omap (item_name st) (children it)) ->
  fst (getitem self name st) = fst (find_child name (children it) st).
Proof.
  intros E Hlk Hlive Hnd.
  destruct (build_lookup_scan name st (children it) ∅ Hlive Hnd)
    as (lk & r & Hb & Hs & Hr).
  unfold getitem. rewrite (bind_ok _ _ _ _ _ (load_ok _ _ _ E)), Hlk.
  rewrite (bind_ok _ _ _ _ _ (children_ok _ _ _ E)).
  rewrite (bind_ok _ _ _ _ _ Hb).
  rewrite (bind_ok _ _ _ _ _ (update_ok _ _ _ _ E)).
  rewrite Hs. cbn. rewrite Hr. by destruct r.
Qed.

(** *** Items found by path are items of the store *)

Lemma descend_cons p parts item st :
  descend item (p :: parts) st
  = match objs st !! item with
    | None => (Raise DanglingHandle, st)
    | Some it =>
        match fst (find_child p (children it) st) with
        | Ok (Some c) => descend c parts st
        | Ok None => (Raise ValueError, st)
        | Raise e => (Raise e, st)
        end
    end.
Proof.
  cbn [descend]. destruct (objs st !! item) as [it|] eqn:E.
  - rewrite (bind_ok _ _ _ _ _ (children_ok _ _ _ E)).
    pose proof (read_only_run _ st (read_only_find_child p (children it)))
      as Hf.
    destruct (fst (find_child p (children it) st)) as [[c|]|e].
    + by rewrite (bind_ok _ _ _ _ _ Hf).
    + by rewrite (bind_ok _ _ _ _ _ Hf).
    + by rewrite (bind_raise _ _ _ _ _ Hf).
  - apply bind_raise. unfold children_.
    apply bind_raise. by apply load_dangling.
Qed.

Lemma descend_live st parts : forall item i,
  is_Some (objs st !! item) ->
  fst (descend item parts st) = Ok i ->
  is_Some (objs st !! i).
Proof.
  induction parts as [|p parts IH]; intros item i [it E].
  - cbn. intros [= <-]. by exists it.
  - rewrite descend_cons, E.
    destruct (fst (find_child p (children it) st)) as [[c|]|e] eqn:Hf;
      [|done..].
    apply find_child_found in Hf as [_ Hn]. apply IH.
    unfold item_name in Hn. destruct (objs st !! c); [by eexists|done].
Qed.

Lemma get_pathobj_dangling i st :
  objs st !! i = None -> get_pathobj i st = (Raise DanglingHandle, st).
Proof.
  intros E. unfold get_pathobj. apply bind_raise. by apply load_dangling.
Qed.

Lemma get_item_from_path_live p b i :
  fst (_get_item_from_path p b) = Ok i ->
  is_Some (objs (items b) !! i).
Proof.
  unfold _get_item_from_path.
  unfold gets at 1. unfold mbind at 1, M_bind at 1, bind at 1.
  destruct (objs (items b) !! _root_item b) as [rit|] eqn:E.
  - rewrite (bind_ok _ _ _ _ _
               (on_items_run _ _ _ _ (get_pathobj_ok _ _ _ E))).
    rewrite with_items_id. case_bool_decide.
    + cbn. intros [= <-]. by exists rit.
    + unfold relative_to. destruct (strip_prefix (pathobj rit) p) as [r|];
        [|done].
      rewrite ret_bind. unfold on_items, zoom.
      pose proof (descend_live (items b) r (_root_item b) i) as Hd.
      destruct (descend (_root_item b) r (items b)) as [res st'].
      cbn in *. intros Hi. apply Hd; [by exists rit|done].
  - rewrite (bind_raise _ _ _ _ _
               (on_items_run _ _ _ _ (get_pathobj_dangling _ _ E))).
    done.
Qed.

(** *** The receiver of status results *)

(** Two stores with the same items up to their state columns. *)
Definition same_shape (st st' : store) : Prop :=
  forall j,
    with_state VNone <$> objs st' !! j = with_state VNone <$> objs st !! j.

Lemma same_shape_refl st : same_shape st st.
Proof. by intros j. Qed.

Lemma same_shape_trans st1 st2 st3 :
  same_shape st1 st2 -> same_shape st2 st3 -> same_shape st1 st3.
Proof. intros H12 H23 j. by rewrite H23, H12. Qed.

Lemma same_shape_alter st i v dc :
  same_shape st (MkStore (alter (with_state v) i (objs st))
                         (next_handle st) dc).
Proof.
  intros j. cbn. rewrite lookup_alter.
  destruct (decide (i = j)) as [->|]; [|done].
  by destruct (objs st !! j).
Qed.

(** The receiver on a record that has the action [status], a path and a
    state, when the path leads to [item]. *)
Lemma status_receiver_run res p state item it b :
  dict_get res "action" = VStr "status" ->
  dict_get res "path" = VStr p ->
  dict_get res "state" = VStr state ->
  fst (_get_item_from_path (Path p) b) = Ok item ->
  objs (items b) !! item = Some it ->
  _status_result_receiver res b
  = (Ok tt,
     if decide (VStr state = col_state it) then b
     else with_items
            (MkStore (alter (with_state (VStr state)) item (objs (items b)))
                     (next_handle (items b))
                     (data_changed (items b) ++ [item])) b).
Proof.
  intros Ha Hp Hs Hfound E.
  rewrite (status_receiver_applies_on_found_node res p state item b
             Ha Hp Hs Hfound).
  unfold emit_item_annotation_available, slot.
  by rewrite (annotate_item_run _ _ _ _ E).
Qed.

(** X18: a status record with a path and a state, whose path leads to
    an item of the tree, makes that item show the state.  The receiver
    returns; no other item changes, nothing but the items changes, and
    a change is signalled for the item exactly when the state is not
    the one it showed. *)
Theorem status_record_reaches_its_item res p state item b :
  dict_get res "action" = VStr "status" ->
  dict_get res "path" = VStr p ->
  dict_get res "state" = VStr state ->
  fst (_get_item_from_path (Path p) b) = Ok item ->
  exists it,
    objs (items b) !! item = Some it
    /\ fst (_status_result_receiver res b) = Ok tt
    /\ let b' := snd (_status_result_receiver res b) in
       objs (items b') !! item = Some (with_state (VStr state) it)
       /\ (forall j, j <> item ->
                     objs (items b') !! j = objs (items b) !! j)
       /\ data_changed (items b')
          = data_changed (items b)
            ++ (if decide (VStr state = col_state it) then [] else [item])
       /\ with_items (items b) b' = b.
Proof.
  intros Ha Hp Hs Hfound.
  destruct (get_item_from_path_live _ _ _ Hfound) as [it E].
  exists it. split; [done|].
  rewrite (status_receiver_run res p state item it b Ha Hp Hs Hfound E).
  cbn [fst snd]. split; [done|].
  destruct (decide (VStr state = col_state it)) as [Heq|Hne].
  - rewrite Heq, with_state_id, app_nil_r, with_items_id. done.
  - cbn. rewrite lookup_alter_eq, E. split; [done|].
    split; [intros j Hj; by rewrite lookup_alter_ne|].
    split; [done|]. by destruct b.
Qed.

(** X19: whatever record the receiver of status results is given, and
    whether it returns or raises, it neither adds nor removes an item
    and changes no item beyond its state column; the queue, the timer,
    the watcher, the connections and the submitted commands stay as
    they are. *)
Theorem status_receiver_touches_states_only res b :
  let b' := snd (_status_result_receiver res b) in
  with_items (items b) b' = b
  /\ next_handle (items b') = next_handle (items b)
  /\ same_shape (items b) (items b').
Proof.
  assert (Hsame : with_items (items b) b = b
                  /\ next_handle (items b) = next_handle (items b)
                  /\ same_shape (items b) (items b)).
  { rewrite with_items_id. by repeat split. }
  cbn zeta. unfold _status_result_receiver.
  case_bool_decide as Ha; [exact Hsame|].
  destruct (dict_get res "path") as [|p] eqn:Hp; [exact Hsame|].
  destruct (dict_get res "state") as [|state] eqn:Hs; [exact Hsame|].
  pose proof (read_only_run _ b (read_only_get_item_from_path (Path p)))
    as Hrun.
  destruct (fst (_get_item_from_path (Path p) b)) as [item|e] eqn:Hfound.
  - destruct (get_item_from_path_live _ _ _ Hfound) as [it E].
    rewrite (bind_ok _ _ _ _ _ Hrun).
    unfold emit_item_annotation_available, slot.
    rewrite (annotate_item_run _ _ _ _ E). cbn [snd].
    destruct (decide (VStr state = col_state it)); [exact Hsame|].
    split; [by destruct b|]. split; [done|].
    apply same_shape_alter.
  - rewrite (bind_raise _ _ _ _ _ Hrun). exact Hsame.
Qed.

Section Changes.
Context `{Collaborators}.

(** X20: a change notification for a path that has no item in the tree
    is answered by taking the path off the watcher: the slot returns,
    and nothing else changes; in particular nothing is listed. *)
Theorem stale_watch_path_is_dropped path b :
  fst (_get_item_from_path (Path path) b) = Raise ValueError ->
  _inspect_changed_dir path b
  = (Ok tt, with_watcher (_fswatcher b ∖ {[path]}) b).
Proof.
  intros Hlost. unfold _inspect_changed_dir.
  assert (Htry : try_except
                   (item ← _get_item_from_path (Path path); ret (Some item))
                   ValueError (removePath path ;; ret None) b
                 = (Ok None, with_watcher (_fswatcher b ∖ {[path]}) b)).
  { unfold try_except.
    erewrite bind_raise; cycle 1.
    { rewrite (read_only_run _ _ (read_only_get_item_from_path (Path path))).
      by rewrite Hlost. }
    rewrite decide_True by done.
    unfold removePath, gets, modify, ret, mbind, M_bind, bind.
    case_bool_decide as Hin; [done|].
    assert (_fswatcher b ∖ {[path]} = _fswatcher b) as ->.
    { apply set_eq. intros q. rewrite elem_of_difference, elem_of_singleton.
      split; [by intros [? _]|]. intros Hq. split; [done|]. by intros ->. }
    by destruct b. }
  by rewrite (bind_ok _ _ _ _ _ Htry).
Qed.

End Changes.

(** *** The annotation tick *)

Lemma modify_bind {S B} (g : S -> S) (k : M S B) s :
  (modify g ;; k) s = k (g s).
Proof. reflexivity. Qed.

Lemma same_shape_lookup st st' j it :
  same_shape st st' ->
  objs st !! j = Some it ->
  exists it',
    objs st' !! j = Some it'
    /\ pathobj it' = pathobj it /\ children it' = children it
    /\ col_type it' = col_type it.
Proof.
  intros Hs E. specialize (Hs j). rewrite E in Hs.
  destruct (objs st' !! j) as [it'|]; [|done].
  exists it'. split; [done|]. cbn in Hs. injection Hs as Hp Ht _ _ _ _ Hc _ _.
  done.
Qed.

Section Tick.
Context `{Collaborators} `{SetPop}.

(** The paths handed to [status]: for the children that are not
    directories, in their order, the path relative to the dataset
    root. *)
Definition status_paths (st : store) (dsroot : path) (cs : list handle)
  : list path :=
  omap (fun c => cit ← objs st !! c;
                 if decide (col_type cit = VStr "directory") then None
                 else strip_prefix dsroot (pathobj cit)) cs.

(** A child the loop body can handle: it is live, and when the item
    lies in a dataset and the child is no directory, its path lies
    under the root of the dataset. *)
Definition child_ready (st : store) (dsroot : option path) (c : handle)
  : Prop :=
  exists cit,
    objs st !! c = Some cit
    /\ forall r, dsroot = Some r -> col_type cit <> VStr "directory" ->
                 is_Some (strip_prefix r (pathobj cit)).

Definition ready (st : store) (i : handle) : Prop :=
  exists it,
    objs st !! i = Some it
    /\ forall c, c ∈ children it ->
                 child_ready st (get_dataset_root (pathobj it)) c.

Lemma ready_shape st st' i :
  same_shape st st' -> ready st i -> ready st' i.
Proof.
  intros Hs (it & E & Hc).
  destruct (same_shape_lookup _ _ _ _ Hs E) as (it' & E' & Hp & Hcs & _).
  exists it'. split; [done|]. rewrite Hp, Hcs. intros c Hin.
  destruct (Hc c Hin) as (cit & Ec & Hunder).
  destruct (same_shape_lookup _ _ _ _ Hs Ec) as (cit' & Ec' & Hcp & _ & Hct).
  exists cit'. split; [done|]. rewrite Hcp, Hct. exact Hunder.
Qed.

Lemma status_paths_cons st dsroot c cs cit :
  objs st !! c = Some cit ->
  status_paths st dsroot (c :: cs)
  = match (if decide (col_type cit = VStr "directory") then None
           else strip_prefix dsroot (pathobj cit)) with
    | Some r => r :: status_paths st dsroot cs
    | None => status_paths st dsroot cs
    end.
Proof. intros E. unfold status_paths. cbn. by rewrite E. Qed.

Lemma paths_to_investigate_run st dsroot cs :
  (forall c, c ∈ cs -> child_ready st (Some dsroot) c) ->
  paths_to_investigate dsroot cs st = (Ok (status_paths st dsroot cs), st).
Proof.
  induction cs as [|c cs IH]; intros Hr; [done|].
  destruct (Hr c) as (cit & E & Hunder); [by left|].
  assert (IH' : paths_to_investigate dsroot cs st
                = (Ok (status_paths st dsroot cs), st)).
  { apply IH. intros c' Hc'. apply Hr. by right. }
  cbn [paths_to_investigate]. unfold datalad_type.
  rewrite (bind_ok _ _ _ _ _ (data_ok _ _ 1 _ E)).
  rewrite (status_paths_cons _ _ _ _ _ E).
  case_bool_decide as Ht.
  - rewrite decide_False by done.
    destruct (Hunder dsroot eq_refl Ht) as [r Hrel]. rewrite Hrel.
    rewrite (bind_ok _ _ _ _ _ (get_pathobj_ok _ _ _ E)).
    unfold relative_to. rewrite Hrel, ret_bind.
    by rewrite (bind_ok _ _ _ _ _ IH').
  - destruct (decide (col_type cit = VStr "directory")) as [_|Hn];
      [exact IH'|by destruct Ht].
Qed.

(** The loop body for an item inside a dataset. *)
Lemma annotate_queued_dataset_run item it dsroot b :
  objs (items b) !! item = Some it ->
  get_dataset_root (pathobj it) = Some dsroot ->
  (forall c, c ∈ children it -> child_ready (items b) (Some dsroot) c) ->
  annotate_queued item b
  = (Ok tt,
     match status_paths (items b) dsroot (children it) with
     | [] => with_conns (S (result_received_conns b))
                        (S (execution_finished_conns b)) b
     | paths =>
         with_log (log b ++ [Submitted "status"
                               (<["dataset" := APath dsroot]>
                                  {["path" := APaths paths]})])
                  (with_conns (S (result_received_conns b))
                              (S (execution_finished_conns b)) b)
     end).
Proof.
  intros E Hroot Hready. unfold annotate_queued.
  rewrite (bind_ok _ _ _ _ _ (on_items_run _ _ _ _ (get_pathobj_ok _ _ _ E))).
  rewrite with_items_id, Hroot. rewrite !modify_bind.
  set (b1 := with_conns _ _ (with_conns _ _ b)).
  assert (Hb1 : b1 = with_conns (S (result_received_conns b))
                                (S (execution_finished_conns b)) b)
    by (by destruct b).
  assert (E1 : objs (items b1) !! item = Some it) by (by rewrite Hb1).
  rewrite (bind_ok _ _ _ _ _ (on_items_run _ _ _ _ (children_ok _ _ _ E1))).
  rewrite with_items_id.
  assert (Hp : paths_to_investigate dsroot (children it) (items b1)
               = (Ok (status_paths (items b) dsroot (children it)),
                  items b1)).
  { rewrite Hb1. apply paths_to_investigate_run, Hready. }
  rewrite (bind_ok _ _ _ _ _ (on_items_run _ _ _ _ Hp)).
  rewrite with_items_id, Hb1.
  by destruct (status_paths (items b) dsroot (children it)).
Qed.

(** The loop body for an item outside every dataset. *)
Lemma annotate_queued_outside_run item it b :
  objs (items b) !! item = Some it ->
  get_dataset_root (pathobj it) = None ->
  (forall c, c ∈ children it -> is_Some (objs (items b) !! c)) ->
  exists st',
    annotate_queued item b = (Ok tt, with_items st' b)
    /\ same_shape (items b) st'.
Proof.
  intros E Hroot Hlive. unfold annotate_queued.
  rewrite (bind_ok _ _ _ _ _ (on_items_run _ _ _ _ (get_pathobj_ok _ _ _ E))).
  rewrite with_items_id, Hroot.
  rewrite (bind_ok _ _ _ _ _ (on_items_run _ _ _ _ (children_ok _ _ _ E))).
  rewrite with_items_id.
  destruct (annotate_untracked_loop _ _ Hlive) as (st' & Hrun & Hst').
  exists st'. split; [exact Hrun|].
  intros j. rewrite Hst'. destruct (objs (items b) !! j) as [jt|]; [|done].
  cbn. unfold untracked_unless_directory.
  by destruct (decide (j ∈ children it)),
       (decide (col_type jt = VStr "directory")).
Qed.

Lemma annotate_queued_ready item b :
  ready (items b) item ->
  exists b',
    annotate_queued item b = (Ok tt, b')
    /\ same_shape (items b) (items b').
Proof.
  intros (it & E & Hc).
  destruct (get_dataset_root (pathobj it)) as [dsroot|] eqn:Hroot.
  - eexists. split; [by apply (annotate_queued_dataset_run item it dsroot)|].
    destruct (status_paths (items b) dsroot (children it));
      apply same_shape_refl.
  - destruct (annotate_queued_outside_run item it b E Hroot)
      as (st' & Hrun & Hshape).
    { intros c Hin. destruct (Hc c Hin) as (cit & Ec & _). by exists cit. }
    exists (with_items st' b). by split.
Qed.

Lemma queue_size_pop (q : gset handle) item :
  item ∈ q -> size q = S (size (q ∖ {[item]})).
Proof.
  intros Hin.
  rewrite (union_difference_singleton_L item q) at 1 by done.
  rewrite size_union, size_singleton; [done|].
  apply disjoint_singleton_l. intros [_ Hn]%elem_of_difference.
  apply Hn. by apply elem_of_singleton.
Qed.

(** With every queued item ready, the loop returns. *)
Lemma drain_queue_ready fuel : forall b,
  size (_annotation_queue b) <= fuel ->
  (forall i, i ∈ _annotation_queue b -> ready (items b) i) ->
  fst (drain_queue fuel b) = Ok tt
  /\ same_shape (items b) (items (snd (drain_queue fuel b))).
Proof.
  induction fuel as [|fuel IH]; intros b Hsize Hready.
  - rewrite drain_queue_empty; [split; [done|apply same_shape_refl]|].
    apply leibniz_equiv, size_empty_inv. lia.
  - destruct (decide (_annotation_queue b = ∅)) as [Hq|Hq].
    { rewrite drain_queue_empty by done.
      split; [done|apply same_shape_refl]. }
    rewrite (drain_queue_step _ _ Hq).
    destruct (queue_pop_run b Hq) as (item & Hin & Hpop).
    rewrite (bind_ok _ _ _ _ _ Hpop).
    set (b1 := with_log _ _).
    destruct (annotate_queued_ready item b1) as (b2 & Hrun & Hshape).
    { apply Hready, Hin. }
    pose proof (annotate_queued_keeps_queue item b1) as Hkq.
    rewrite Hrun in Hkq. cbn in Hkq.
    rewrite (bind_ok _ _ _ _ _ Hrun).
    destruct (IH b2) as [Hok Hshape2].
    + rewrite Hkq. pose proof (queue_size_pop _ _ Hin). lia.
    + intros i Hi. apply (ready_shape (items b)); [exact Hshape|].
      apply Hready. rewrite Hkq in Hi.
      by apply elem_of_difference in Hi as [? _].
    + split; [exact Hok|].
      exact (same_shape_trans _ _ _ Hshape Hshape2).
Qed.

(** Views of the browser the loop cannot reach. *)
Lemma queue_pop_keeps {X} (f : browser -> X) :
  (forall l b, f (with_log l b) = f b) ->
  (forall q b, f (with_queue q b) = f b) ->
  keeps f queue_pop.
Proof.
  intros Hlog Hq b. unfold queue_pop, gets, modify, record, mbind, M_bind, bind.
  destruct (set_pick (_annotation_queue b)); cbn; [|done].
  by rewrite Hlog, Hq.
Qed.

Lemma drain_queue_keeps {X} (f : browser -> X) fuel :
  (forall st b, f (with_items st b) = f b) ->
  (forall r c b, f (with_conns r c b) = f b) ->
  (forall l b, f (with_log l b) = f b) ->
  (forall q b, f (with_queue q b) = f b) ->
  keeps f (drain_queue fuel).
Proof.
  intros Hitems Hconns Hlog Hq.
  induction fuel as [|fuel IH]; cbn [drain_queue].
  - apply keeps_bind; [apply keeps_gets|]. intros q.
    case_bool_decide; [apply keeps_ret|apply keeps_raise].
  - apply keeps_bind; [apply keeps_gets|]. intros q.
    case_bool_decide; [apply keeps_ret|].
    apply keeps_bind; [by apply queue_pop_keeps|]. intros item.
    apply keeps_bind; [|intros _; exact IH].
    apply annotate_queued_keeps; done.
Qed.

Lemma drain_queue_shrinks fuel : forall b,
  _annotation_queue (snd (drain_queue fuel b)) ⊆ _annotation_queue b.
Proof.
  induction fuel as [|fuel IH]; intros b.
  - cbn [drain_queue]. unfold gets, mbind, M_bind, bind.
    by case_bool_decide.
  - destruct (decide (_annotation_queue b = ∅)) as [Hq|Hq].
    { by rewrite drain_queue_empty. }
    rewrite (drain_queue_step _ _ Hq).
    destruct (queue_pop_run b Hq) as (item & Hin & Hpop).
    rewrite (bind_ok _ _ _ _ _ Hpop).
    set (b1 := with_log _ _).
    pose proof (annotate_queued_keeps_queue item b1) as Hkq.
    unfold mbind, M_bind, bind.
    destruct (annotate_queued item b1) as [[[]|e] b2]; cbn in Hkq.
    + etrans; [apply IH|]. rewrite Hkq. apply subseteq_difference_l. done.
    + cbn. rewrite Hkq. apply subseteq_difference_l. done.
Qed.

Lemma drain_queue_loses_first fuel b e :
  fst (drain_queue fuel b) = Raise e ->
  e <> OutOfFuel ->
  exists item,
    item ∈ _annotation_queue b
    /\ item ∉ _annotation_queue (snd (drain_queue fuel b)).
Proof.
  intros Hraise Hne.
  destruct (decide (_annotation_queue b = ∅)) as [Hq|Hq].
  { by rewrite drain_queue_empty in Hraise. }
  destruct fuel as [|fuel].
  { exfalso. revert Hraise. cbn [drain_queue].
    unfold gets, mbind, M_bind, bind. rewrite bool_decide_false by done.
    cbn. congruence. }
  rewrite (drain_queue_step _ _ Hq) in Hraise |- *.
  destruct (queue_pop_run b Hq) as (item & Hin & Hpop).
  exists item. split; [done|].
  rewrite (bind_ok _ _ _ _ _ Hpop).
  set (b1 := with_log _ _).
  pose proof (annotate_queued_keeps_queue item b1) as Hkq.
  unfold mbind, M_bind, bind.
  assert (Hout : forall q : gset handle,
             q ⊆ _annotation_queue b ∖ {[item]} -> item ∉ q).
  { intros q Hsub Hi. apply Hsub in Hi.
    apply elem_of_difference in Hi as [_ Hn]. apply Hn.
    by apply elem_of_singleton. }
  destruct (annotate_queued item b1) as [[[]|e'] b2]; cbn in Hkq.
  - apply Hout. rewrite <- Hkq. apply drain_queue_shrinks.
  - cbn. apply Hout. by rewrite Hkq.
Qed.

(** X21: when every queued item is ready for annotation (it is live,
    so are its children, and inside a dataset the paths of the children
    that are not directories lie under the dataset root), the tick
    returns.  Afterwards the queue is empty, every queued item was
    taken out exactly once, the timer runs again when there was
    something to do, the watcher and the expanded items are as before,
    and no item changed beyond its state column. *)
Theorem tick_annotates_every_ready_item b :
  (forall i, i ∈ _annotation_queue b -> ready (items b) i) ->
  exists b',
    _process_item_annotation_queue b = (Ok tt, b')
    /\ _annotation_queue b' = ∅
    /\ (exists l, drained b' = drained b ++ l
                  /\ l ≡ₚ elements (_annotation_queue b))
    /\ timer_active b'
       = (if decide (_annotation_queue b = ∅) then timer_active b else true)
    /\ _fswatcher b' = _fswatcher b
    /\ expanded b' = expanded b
    /\ same_shape (items b) (items b').
Proof.
  intros Hready.
  destruct (decide (_annotation_queue b = ∅)) as [Hq|Hq].
  { exists b. rewrite (process_queue_empty _ Hq).
    split; [done|]. split; [done|]. split.
    { exists []. by rewrite app_nil_r, Hq, elements_empty. }
    repeat split; done. }
  set (b0 := with_timer false b).
  destruct (drain_queue_ready (size (_annotation_queue b)) b0)
    as [Hok Hshape]; [done|exact Hready|].
  destruct (drain_queue_run (size (_annotation_queue b)) b0) as [_ Hrun];
    [done|].
  destruct (Hrun Hok) as (Hempty & l & Hl & Hperm).
  pose proof (drain_queue_keeps _fswatcher (size (_annotation_queue b))
                ltac:(done) ltac:(done) ltac:(done) ltac:(done) b0) as Hw.
  pose proof (drain_queue_keeps expanded (size (_annotation_queue b))
                ltac:(done) ltac:(done) ltac:(done) ltac:(done) b0) as He.
  rewrite (process_queue_nonempty _ Hq). fold b0.
  destruct (drain_queue (size (_annotation_queue b)) b0) as [r b1].
  cbn [fst snd] in *. subst r.
  exists (with_timer true b1).
  split; [done|]. split; [exact Hempty|]. split; [by exists l|].
  repeat split; done.
Qed.

(** X22: a tick that ends with an exception ends with one of the code,
    not with the step bound of the loop, and it leaves the timer
    stopped: no further tick will come.  The item whose annotation
    failed is off the queue, and nothing was added to the queue. *)
Theorem failed_tick_leaves_timer_stopped b e :
  fst (_process_item_annotation_queue b) = Raise e ->
  let b' := snd (_process_item_annotation_queue b) in
  e <> OutOfFuel
  /\ timer_active b' = false
  /\ _annotation_queue b' ⊆ _annotation_queue b
  /\ exists item,
       item ∈ _annotation_queue b /\ item ∉ _annotation_queue b'.
Proof.
  intros Hraise. cbn zeta.
  assert (Hne : e <> OutOfFuel).
  { intros ->. by destruct (process_queue_run b) as [Hnf _]. }
  split; [exact Hne|].
  destruct (decide (_annotation_queue b = ∅)) as [Hq|Hq].
  { by rewrite (process_queue_empty _ Hq) in Hraise. }
  set (b0 := with_timer false b).
  pose proof (drain_queue_keeps timer_active (size (_annotation_queue b))
                ltac:(done) ltac:(done) ltac:(done) ltac:(done) b0) as Ht.
  pose proof (drain_queue_shrinks (size (_annotation_queue b)) b0) as Hsub.
  pose proof (drain_queue_loses_first (size (_annotation_queue b)) b0 e)
    as Hlost.
  rewrite (process_queue_nonempty _ Hq) in Hraise |- *. fold b0 in Hraise |- *.
  destruct (drain_queue (size (_annotation_queue b)) b0) as [[[]|e'] b1];
    cbn [fst snd] in *; [done|].
  injection Hraise as ->.
  split; [exact Ht|]. split; [exact Hsub|]. by apply Hlost.
Qed.

(** X23: for a queued item inside a dataset whose children are ready,
    the loop body returns and changes no item.  It connects one more
    receiver to each of the two executor signals, and it asks for one
    [status] run, on the dataset, for the relative paths of the
    children that are not directories; when there is no such child it
    asks for none, yet the two connections are made.  The slot meant
    to disconnect never disconnects anything. *)
Theorem dataset_item_asks_for_one_status item it dsroot b :
  objs (items b) !! item = Some it ->
  get_dataset_root (pathobj it) = Some dsroot ->
  (forall c, c ∈ children it -> child_ready (items b) (Some dsroot) c) ->
  let paths := status_paths (items b) dsroot (children it) in
  let b' := snd (annotate_queued item b) in
  fst (annotate_queued item b) = Ok tt
  /\ items b' = items b
  /\ result_received_conns b' = S (result_received_conns b)
  /\ execution_finished_conns b' = S (execution_finished_conns b)
  /\ log b'
     = log b ++ (if decide (paths = []) then []
                 else [Submitted "status"
                         (<["dataset" := APath dsroot]>
                            {["path" := APaths paths]})])
  /\ forall thread cmdname args b0,
       _disconnect_status_result_receiver thread cmdname args b0
       = (Ok tt, b0).
Proof.
  intros E Hroot Hready paths b'. subst b'.
  rewrite (annotate_queued_dataset_run item it dsroot b E Hroot Hready).
  fold paths. cbn [fst snd]. split; [done|].
  split; [by destruct paths|]. split; [by destruct paths|].
  split; [by destruct paths|]. split.
  - destruct paths; [by rewrite decide_True, app_nil_r|].
    by rewrite decide_False.
  - intros thread cmdname args b0.
    unfold _disconnect_status_result_receiver. by case_bool_decide.
Qed.

(** X24: an expanded item that has children is not listed again.  One
    without children is listed once, with itself as parent, and queued
    for annotation when the listing returns; when the listing raises,
    so does the slot, and the item is not queued. *)
Theorem populate_lists_childless_items item it b :
  objs (items b) !! item = Some it ->
  (children it <> [] -> _populate_item item b = (Ok tt, b))
  /\ (children it = [] ->
      let listing := from_path (pathobj it) (Some false) true (Some true)
                               (ParentItem item) (items b) in
      let b1 := with_log (log b ++ [CalledFromPath (pathobj it)
                                                   (ParentItem item)])
                         (with_items (snd listing) b) in
      _populate_item item b
      = match fst listing with
        | Ok _ =>
            (Ok tt, with_queue ({[item]} ∪ _annotation_queue b) b1)
        | Raise e => (Raise e, b1)
        end).
Proof.
  intros E. unfold _populate_item, childCount.
  assert (Hcount : on_items (it ← load item; ret (length (children it))) b
                   = (Ok (length (children it)), b)).
  { etrans; [apply on_items_run|by rewrite with_items_id].
    by rewrite (bind_ok _ _ _ _ _ (load_ok _ _ _ E)). }
  rewrite (bind_ok _ _ _ _ _ Hcount). split.
  - intros Hne. by destruct (children it).
  - intros Hnil. rewrite Hnil. cbn [length Nat.eqb].
    rewrite (bind_ok _ _ _ _ _
               (on_items_run _ _ _ _ (get_pathobj_ok _ _ _ E))).
    rewrite with_items_id.
    unfold call_from_path, record, _queue_item_for_annotation, on_items, zoom,
      modify, mbind, M_bind, bind.
    cbn [items with_log].
    by destruct (from_path _ _ _ _ _ (items b)) as [[newitem|e] st'].
Qed.

End Tick.

(** *** A listed child is found by its path *)

Lemma strip_prefix_refl base : strip_prefix base base = Some [].
Proof.
  induction base as [|x base IH]; [done|].
  cbn. by rewrite String.eqb_refl.
Qed.

Lemma strip_prefix_app base : forall p r more,
  strip_prefix base p = Some r ->
  strip_prefix base (p ++ more) = Some (r ++ more).
Proof.
  induction base as [|x base IH]; intros p r more; cbn.
  - by intros [= ->].
  - destruct p as [|y p]; [done|]. cbn.
    destruct (String.eqb x y); [apply IH|done].
Qed.

Lemma path_name_snoc (p : path) name :
  p <> [] -> path_name (p ++ [name]) = name.
Proof.
  intros Hne. unfold path_name. rewrite rev_unit.
  destruct (rev p) as [|x rest] eqn:Hr; [|done].
  destruct Hne. by rewrite <- (rev_involutive p), Hr.
Qed.

(** What a successful lookup by path went through. *)
Lemma get_item_from_path_route p b q :
  fst (_get_item_from_path p b) = Ok q ->
  exists rit parts,
    objs (items b) !! _root_item b = Some rit
    /\ strip_prefix (pathobj rit) p = Some parts
    /\ fst (descend (_root_item b) parts (items b)) = Ok q.
Proof.
  unfold _get_item_from_path.
  unfold gets at 1. unfold mbind at 1, M_bind at 1, bind at 1.
  destruct (objs (items b) !! _root_item b) as [rit|] eqn:E.
  - rewrite (bind_ok _ _ _ _ _
               (on_items_run _ _ _ _ (get_pathobj_ok _ _ _ E))).
    rewrite with_items_id. case_bool_decide as Hp.
    + cbn. intros [= <-]. exists rit, []. rewrite Hp.
      by rewrite strip_prefix_refl.
    + unfold relative_to.
      destruct (strip_prefix (pathobj rit) p) as [r|] eqn:Hsp; [|done].
      rewrite ret_bind. unfold on_items, zoom.
      destruct (descend (_root_item b) r (items b)) as [res st'] eqn:Hd.
      cbn. intros ->. exists rit, r. by rewrite Hd.
  - rewrite (bind_raise _ _ _ _ _
               (on_items_run _ _ _ _ (get_pathobj_dangling _ _ E))).
    done.
Qed.

Lemma get_item_from_path_by_route p b q rit parts :
  objs (items b) !! _root_item b = Some rit ->
  strip_prefix (pathobj rit) p = Some parts ->
  fst (descend (_root_item b) parts (items b)) = Ok q ->
  _get_item_from_path p b = (Ok q, b).
Proof.
  intros E Hparts Hd. unfold _get_item_from_path.
  unfold gets at 1. unfold mbind at 1, M_bind at 1, bind at 1.
  rewrite (bind_ok _ _ _ _ _
             (on_items_run _ _ _ _ (get_pathobj_ok _ _ _ E))).
  rewrite with_items_id. case_bool_decide as Hp.
  - rewrite Hp, strip_prefix_refl in Hparts. injection Hparts as <-.
    cbn in Hd. by injection Hd as <-.
  - unfold relative_to. rewrite Hparts, ret_bind.
    etrans; [apply on_items_run, read_only_run, read_only_descend|].
    by rewrite Hd, with_items_id.
Qed.

(** A store that has the items of another, with the same paths and
    with child lists that start as they did. *)
Definition extends (st st1 : store) : Prop :=
  forall j it,
    objs st !! j = Some it ->
    exists it' extra,
      objs st1 !! j = Some it'
      /\ pathobj it' = pathobj it
      /\ children it' = children it ++ extra.

Lemma find_child_extends st st1 p : forall cs c more,
  extends st st1 ->
  fst (find_child p cs st) = Ok (Some c) ->
  fst (find_child p (cs ++ more) st1) = Ok (Some c).
Proof.
  induction cs as [|c' cs IH]; intros c more Hext; [done|].
  cbn [app]. rewrite !find_child_cons.
  destruct (objs st !! c') as [cit|] eqn:E; [|done].
  destruct (Hext _ _ E) as (cit' & extra & -> & -> & _).
  case_bool_decide; [done|]. by apply IH.
Qed.

Lemma descend_extends st st1 parts : forall item q,
  extends st st1 ->
  fst (descend item parts st) = Ok q ->
  fst (descend item parts st1) = Ok q.
Proof.
  induction parts as [|p parts IH]; intros item q Hext; [done|].
  rewrite !descend_cons.
  destruct (objs st !! item) as [it|] eqn:E; [|done].
  destruct (Hext _ _ E) as (it' & extra & -> & _ & ->).
  destruct (fst (find_child p (children it) st)) as [[c|]|e] eqn:Hf;
    [|done..].
  rewrite (find_child_extends st st1 p _ c extra Hext Hf). by apply IH.
Qed.

Lemma descend_app st parts : forall item q more,
  fst (descend item parts st) = Ok q ->
  descend item (parts ++ more) st = descend q more st.
Proof.
  induction parts as [|p parts IH]; intros item q more.
  - cbn. by intros [= ->].
  - cbn [app]. rewrite !descend_cons.
    destruct (objs st !! item) as [it|]; [|done].
    destruct (fst (find_child p (children it) st)) as [[c|]|e]; [|done..].
    apply IH.
Qed.

Lemma find_child_skip st p cs more :
  (forall c, c ∈ cs ->
             exists cit, objs st !! c = Some cit
                         /\ path_name (pathobj cit) <> p) ->
  find_child p (cs ++ more) st = find_child p more st.
Proof.
  induction cs as [|c cs IH]; intros Hno; [done|].
  cbn [app]. rewrite find_child_cons.
  destruct (Hno c) as (cit & -> & Hn); [by left|].
  rewrite bool_decide_false by (by intros ->).
  apply IH. intros c' Hc'. apply Hno. by right.
Qed.

(** X25: when the lookup by path leads to an item, a child made under
    that item with [from_lsdir_result] from a record for a path one
    part longer is found by the lookup under the path of its record,
    provided no child of the item has the name of the new child
    already. *)
Theorem listed_child_is_found_by_path res s t pq name q qit b :
  fresh (items b) ->
  fst (_get_item_from_path pq b) = Ok q ->
  objs (items b) !! q = Some qit ->
  res !! "path" = Some (VStr s) ->
  res !! "type" = Some t ->
  pq <> [] ->
  Path s = pq ++ [name] ->
  (forall c, c ∈ children qit ->
             exists cit, objs (items b) !! c = Some cit
                         /\ path_name (pathobj cit) <> name) ->
  let listing := on_items (from_lsdir_result res (ParentItem q)) b in
  fst listing = Ok (next_handle (items b))
  /\ _get_item_from_path (Path s) (snd listing)
     = (Ok (next_handle (items b)), snd listing).
Proof.
  intros Hf Hfound E Hp Ht Hpq Hs Hsib listing.
  destruct (fresh_parent _ _ _ Hf E) as (Hne & Hnin & Hnew).
  set (st := items b) in *. set (i := next_handle st) in *.
  set (st1 := with_child res s t q qit st).
  assert (Hrun : listing = (Ok i, with_items st1 b)).
  { apply on_items_run.
    exact (from_lsdir_result_typed res s t q qit st E Hne Hp Ht). }
  rewrite Hrun. cbn [fst snd]. split; [done|].
  set (new := lsdir_item res t (blank (Path s) (Some q))).
  destruct (lsdir_item_keeps res t (blank (Path s) (Some q)))
    as (Hnp & _ & _). fold new in Hnp. cbn in Hnp.
  assert (Hname : path_name (Path s) = name)
    by (rewrite Hs; by apply path_name_snoc).
  assert (Ei : objs st1 !! i = Some new).
  { subst st1. unfold with_child. cbn. apply lookup_insert_eq. }
  assert (Eq : objs st1 !! q
               = Some (attach i (path_name (Path s)) qit)).
  { subst st1. unfold with_child, attached. cbn. fold i.
    rewrite lookup_insert_ne by done. apply lookup_insert_eq. }
  assert (Hold : forall j, j <> q -> j <> i -> objs st1 !! j = objs st !! j).
  { intros j Hjq Hji. subst st1. unfold with_child, attached. cbn. fold i.
    by rewrite !lookup_insert_ne. }
  assert (Hext : extends st st1).
  { intros j jt Ej. destruct (decide (j = q)) as [->|Hjq].
    - assert (jt = qit) as -> by congruence.
      exists (attach i (path_name (Path s)) qit), [i]. by rewrite Eq.
    - exists jt, []. rewrite app_nil_r. rewrite Hold; [done..|].
      intros ->. congruence. }
  destruct (get_item_from_path_route _ _ _ Hfound)
    as (rit & parts & Er & Hparts & Hd).
  fold st in Er, Hd.
  destruct (Hext _ _ Er) as (rit' & extra & Er' & Hrp & _).
  apply (get_item_from_path_by_route _ _ _ rit' (parts ++ [name])).
  - exact Er'.
  - rewrite Hrp, Hs. by apply strip_prefix_app.
  - cbn [items with_items _root_item].
    rewrite (descend_app st1 parts (_root_item b) q [name])
      by (by apply (descend_extends st)).
    rewrite descend_cons, Eq. cbn [children attach with_lookup with_children].
    rewrite (find_child_skip st1 name (children qit) [i]).
    + rewrite find_child_cons, Ei, Hnp, Hname.
      by rewrite bool_decide_true.
    + intros c Hc. destruct (Hsib c Hc) as (cit & Ec & Hcn).
      destruct (Hext _ _ Ec) as (cit' & extra' & Ec' & Hcp & _).
      exists cit'. by rewrite Hcp.
Qed.

(** *** A result delivered through several connections *)

Lemma same_shape_extends st st' : same_shape st st' -> extends st st'.
Proof.
  intros Hs j it E.
  destruct (same_shape_lookup _ _ _ _ Hs E) as (it' & E' & Hp & Hc & _).
  exists it', []. by rewrite app_nil_r.
Qed.

(** [result_received.emit(res)], as the browser sees it: the signal
    runs the receiver once for every connection made to it, and what a
    run raises goes no further. *)
Definition emit_result_received (res : result) : M browser unit :=
  n ← gets result_received_conns;
  for_each (replicate n tt) (fun _ => slot (_status_result_receiver res)).

(** A record given to the receiver a second time changes nothing. *)
Lemma status_receiver_settles res b :
  snd (_status_result_receiver res (snd (_status_result_receiver res b)))
  = snd (_status_result_receiver res b).
Proof.
  destruct (decide (dict_get res "action" = VStr "status")) as [Ha|Ha];
    [|by unfold _status_result_receiver; rewrite !bool_decide_true].
  destruct (dict_get res "path") as [|p] eqn:Hp;
    [by unfold _status_result_receiver; rewrite Hp;
       case_bool_decide|].
  destruct (dict_get res "state") as [|state] eqn:Hs;
    [by unfold _status_result_receiver; rewrite Hp, Hs;
       case_bool_decide|].
  destruct (fst (_get_item_from_path (Path p) b)) as [item|e] eqn:Hfound.
  - destruct (get_item_from_path_live _ _ _ Hfound) as [it E].
    rewrite (status_receiver_run res p state item it b Ha Hp Hs Hfound E).
    cbn [snd].
    destruct (decide (VStr state = col_state it)) as [Heq|Hne].
    { rewrite (status_receiver_run res p state item it b Ha Hp Hs Hfound E).
      by rewrite decide_True. }
    set (st1 := MkStore _ _ _). set (b1 := with_items st1 b).
    assert (Hext : extends (items b) st1)
      by apply same_shape_extends, same_shape_alter.
    assert (E1 : objs (items b1) !! item = Some (with_state (VStr state) it)).
    { cbn. by rewrite lookup_alter_eq, E. }
    assert (Hfound1 : fst (_get_item_from_path (Path p) b1) = Ok item).
    { destruct (get_item_from_path_route _ _ _ Hfound)
        as (rit & parts & Er & Hparts & Hd).
      destruct (Hext _ _ Er) as (rit' & extra & Er' & Hrp & _).
      rewrite (get_item_from_path_by_route (Path p) b1 item rit' parts);
        [done|exact Er'|by rewrite Hrp|].
      by apply (descend_extends (items b)). }
    rewrite (status_receiver_run res p state item _ b1 Ha Hp Hs Hfound1 E1).
    by rewrite decide_True.
  - assert (Hrun : forall b0,
              fst (_get_item_from_path (Path p) b0) = Raise e ->
              _status_result_receiver res b0 = (Raise e, b0)).
    { intros b0 Hb0. unfold _status_result_receiver. rewrite Hp, Hs.
      rewrite bool_decide_false by (intros Hn; by apply Hn).
      apply bind_raise.
      rewrite (read_only_run _ _ (read_only_get_item_from_path (Path p))).
      by rewrite Hb0. }
    rewrite (Hrun b Hfound). cbn [snd]. by rewrite (Hrun b Hfound).
Qed.

(** X26: the receivers connected by earlier ticks are never released,
    so a result of the executor reaches the receiver once for every
    connection.  The browser ends as after a single delivery, however
    many connections there are; with none, the result changes
    nothing. *)
Theorem result_through_many_connections res b :
  fst (emit_result_received res b) = Ok tt
  /\ snd (emit_result_received res b)
     = match result_received_conns b with
       | 0 => b
       | S _ => snd (_status_result_receiver res b)
       end.
Proof.
  assert (Hloop : forall n b1,
            snd (_status_result_receiver res b1) = b1 ->
            for_each (replicate n tt)
                     (fun _ => slot (_status_result_receiver res)) b1
            = (Ok tt, b1)).
  { induction n as [|n IH]; intros b1 Hb1; [done|].
    cbn [replicate for_each]. unfold bind, slot at 1. rewrite Hb1.
    by apply IH. }
  assert (Hrun : emit_result_received res b
                 = for_each (replicate (result_received_conns b) tt)
                     (fun _ => slot (_status_result_receiver res)) b)
    by reflexivity.
  rewrite Hrun. destruct (result_received_conns b) as [|n]; [by split|].
  assert (Hfirst : for_each (replicate (S n) tt)
                     (fun _ => slot (_status_result_receiver res)) b
                   = (Ok tt, snd (_status_result_receiver res b))).
  { cbn [replicate for_each]. unfold bind, slot at 1.
    apply Hloop, status_receiver_settles. }
  by rewrite Hfirst.
Qed.

(** *** Examples *)

Lemma getitem_agrees_with_scan_witness :
  fst (getitem 0 "a.txt" bare_store)
  = fst (find_child "a.txt" [1] bare_store).
Proof.
  apply (getitem_agrees_with_scan 0
           (MkItem ["/"; "ds"] VNone VNone None None false
                   DontShowIndicatorWhenChildless [1] None None)
           "a.txt" bare_store).
  - vm_compute; reflexivity.
  - reflexivity.
  - intros c Hc. cbn in Hc. apply list_elem_of_singleton in Hc as ->.
    eexists. vm_compute; reflexivity.
  - vm_compute. apply NoDup_singleton.
Defined.

Lemma status_record_reaches_its_item_witness :
  let b := new_browser 0 ds_store in
  exists it,
    objs (items b) !! 1 = Some it
    /\ fst (_status_result_receiver MoreScenes.clean_record b) = Ok tt
    /\ let b' := snd (_status_result_receiver MoreScenes.clean_record b) in
       objs (items b') !! 1 = Some (with_state (VStr "clean") it)
       /\ (forall j, j <> 1 -> objs (items b') !! j = objs (items b) !! j)
       /\ data_changed (items b')
          = data_changed (items b)
            ++ (if decide (VStr "clean" = col_state it) then [] else [1])
       /\ with_items (items b) b' = b.
Proof.
  intros b.
  apply (status_record_reaches_its_item MoreScenes.clean_record
           "/ds/a.txt" "clean" 1 b);
    vm_compute; reflexivity.
Defined.

Lemma stale_watch_path_is_dropped_witness :
  let b := new_browser 0 ds_store in
  _inspect_changed_dir (H := outside_datasets) "/ds/gone" b
  = (Ok tt, with_watcher (_fswatcher b ∖ {["/ds/gone"]}) b).
Proof.
  intros b.
  apply (stale_watch_path_is_dropped (H := outside_datasets) "/ds/gone" b).
  vm_compute; reflexivity.
Defined.

Lemma root_queued_ready `{Collaborators} i :
  i ∈ _annotation_queue MoreScenes.root_queued ->
  (forall p r, get_dataset_root p = Some r -> r = ["/"; "ds"]) ->
  ready (items MoreScenes.root_queued) i.
Proof.
  intros Hi Hroot.
  assert (Hq : _annotation_queue MoreScenes.root_queued = {[0]})
    by (vm_compute; reflexivity).
  rewrite Hq in Hi. apply elem_of_singleton in Hi as ->.
  exists ds_root. split; [vm_compute; reflexivity|].
  intros c Hc. cbn in Hc. set_unfold.
  destruct Hc as [->|[->|[]]].
  - exists ds_file. split; [vm_compute; reflexivity|].
    intros r Hr _. apply Hroot in Hr as ->. by eexists.
  - exists ds_sub. split; [vm_compute; reflexivity|].
    intros r Hr _. apply Hroot in Hr as ->. by eexists.
Qed.

Lemma tick_annotates_every_ready_item_witness :
  let b := MoreScenes.root_queued in
  exists b',
    _process_item_annotation_queue (H := MoreScenes.inside_ds)
      (H0 := table_pop (fun i => i)) b = (Ok tt, b')
    /\ _annotation_queue b' = ∅
    /\ (exists l, drained b' = drained b ++ l
                  /\ l ≡ₚ elements (_annotation_queue b))
    /\ timer_active b'
       = (if decide (_annotation_queue b = ∅) then timer_active b else true)
    /\ _fswatcher b' = _fswatcher b
    /\ expanded b' = expanded b
    /\ same_shape (items b) (items b').
Proof.
  intros b.
  apply (tick_annotates_every_ready_item (H := MoreScenes.inside_ds)
           (H0 := table_pop (fun i => i)) b).
  intros i Hi. apply (root_queued_ready (H := MoreScenes.inside_ds) i Hi).
  by intros p r [= <-].
Defined.

Lemma failed_tick_leaves_timer_stopped_witness :
  let tick := _process_item_annotation_queue
                (H := MoreScenes.resolved_elsewhere)
                (H0 := table_pop (fun i => i)) in
  let b := MoreScenes.root_queued in
  fst (tick b) = Raise ValueError
  /\ ValueError <> OutOfFuel
  /\ timer_active (snd (tick b)) = false
  /\ _annotation_queue (snd (tick b)) ⊆ _annotation_queue b
  /\ exists item,
       item ∈ _annotation_queue b /\ item ∉ _annotation_queue (snd (tick b)).
Proof.
  intros tick b. split; [vm_compute; reflexivity|].
  apply (failed_tick_leaves_timer_stopped
           (H := MoreScenes.resolved_elsewhere)
           (H0 := table_pop (fun i => i)) b ValueError).
  vm_compute; reflexivity.
Defined.

Lemma dataset_item_asks_for_one_status_witness :
  let b := new_browser 0 ds_store in
  let paths := status_paths (items b) ["/"; "ds"] (children ds_root) in
  let b' := snd (annotate_queued (H := MoreScenes.inside_ds) 0 b) in
  paths = [["a.txt"]]
  /\ fst (annotate_queued (H := MoreScenes.inside_ds) 0 b) = Ok tt
  /\ items b' = items b
  /\ result_received_conns b' = S (result_received_conns b)
  /\ execution_finished_conns b' = S (execution_finished_conns b)
  /\ log b'
     = log b ++ (if decide (paths = []) then []
                 else [Submitted "status"
                         (<["dataset" := APath ["/"; "ds"]]>
                            {["path" := APaths paths]})])
  /\ forall thread cmdname args b0,
       _disconnect_status_result_receiver thread cmdname args b0
       = (Ok tt, b0).
Proof.
  intros b paths b'. split; [vm_compute; reflexivity|].
  apply (dataset_item_asks_for_one_status (H := MoreScenes.inside_ds)
           0 ds_root ["/"; "ds"] b).
  - vm_compute; reflexivity.
  - reflexivity.
  - intros c Hc. cbn in Hc. set_unfold.
    destruct Hc as [->|[->|[]]].
    + exists ds_file. split; [vm_compute; reflexivity|].
      intros r [= <-] _. by eexists.
    + exists ds_sub. split; [vm_compute; reflexivity|].
      intros r [= <-] _. by eexists.
Defined.

Lemma populate_lists_childless_items_witness :
  let b := new_browser 0 ds_store in
  (children ds_sub <> [] ->
   _populate_item (H := sub_deleted) 2 b = (Ok tt, b))
  /\ (children ds_sub = [] ->
      let listing := from_path (Collaborators := sub_deleted)
                       (pathobj ds_sub) (Some false) true (Some true)
                       (ParentItem 2) (items b) in
      let b1 := with_log (log b ++ [CalledFromPath (pathobj ds_sub)
                                                   (ParentItem 2)])
                         (with_items (snd listing) b) in
      _populate_item (H := sub_deleted) 2 b
      = match fst listing with
        | Ok _ =>
            (Ok tt, with_queue ({[2]} ∪ _annotation_queue b) b1)
        | Raise e => (Raise e, b1)
        end).
Proof.
  intros b.
  apply (populate_lists_childless_items (H := sub_deleted) 2 ds_sub b).
  vm_compute; reflexivity.
Defined.

Lemma listed_child_is_found_by_path_witness :
  let b := new_browser 0 ds_store in
  let res := lsdir_result "/ds/sub/x.txt" "file" in
  let listing := on_items (from_lsdir_result res (ParentItem 2)) b in
  fst listing = Ok (next_handle (items b))
  /\ _get_item_from_path (Path "/ds/sub/x.txt") (snd listing)
     = (Ok (next_handle (items b)), snd listing).
Proof.
  intros b res.
  apply (listed_child_is_found_by_path res "/ds/sub/x.txt" (VStr "file")
           ["/"; "ds"; "sub"] "x.txt" 2 ds_sub b).
  - exact ds_store_fresh.
  - vm_compute; reflexivity.
  - vm_compute; reflexivity.
  - vm_compute; reflexivity.
  - vm_compute; reflexivity.
  - discriminate.
  - vm_compute; reflexivity.
  - intros c Hc. cbn in Hc. by apply elem_of_nil in Hc.
Defined.

End BrowserMore.

(** ** The application: looking up widgets *)

Module AppFacts.
Import App.

Section Ui.
Variables window widget : Type.
Variable load_ui : string -> window.
Variable findChild : window -> widget_class -> string -> option widget.

#[local] Abbreviation app := (App.app window).
#[local] Abbreviation get_widget :=
  (App.get_widget window widget load_ui findChild).

(** The application has no window yet, or the one window built. *)
Definition window_cached (a : app) : Prop :=
  match _main_window window a with
  | None => ui_loads window a = 0
  | Some w => w = load_ui "main_window" /\ ui_loads window a = 1
  end.

(** Any number of widget lookups, one after the other, each left to
    fail on its own. *)
Definition lookups (names : list string) : M app unit :=
  for_each names (fun name => Browser.slot (get_widget name)).

Lemma get_widget_unknown name a :
  _main_window_widgets name = None ->
  get_widget name a = (Raise ValueError, a).
Proof. intros Hn. unfold App.get_widget. by rewrite Hn. Qed.

Lemma get_widget_known name cls a :
  _main_window_widgets name = Some cls ->
  window_cached a ->
  get_widget name a
  = (match findChild (load_ui "main_window") cls name with
     | Some w => Ok w
     | None => Raise RuntimeError
     end,
     MkApp window (Some (load_ui "main_window")) 1).
Proof.
  intros Hn Hc. unfold App.get_widget, main_window. rewrite Hn.
  unfold get, modify, ret, raise, mbind, M_bind, bind.
  unfold window_cached in Hc. destruct a as [[w|] n]; cbn in *.
  - destruct Hc as [-> ->].
    by destruct (findChild (load_ui "main_window") cls name).
  - subst n. by destruct (findChild (load_ui "main_window") cls name).
Qed.

(** X27: however many widgets are looked up, and whether the lookups
    succeed, the main window is built at most once: it is built by the
    first lookup of a name the application knows and kept from then on,
    and a lookup of an unknown name ends in [ValueError] without
    building it. *)
Theorem main_window_is_built_once names :
  let a := snd (lookups names (MkApp window None 0)) in
  (forall name b, _main_window_widgets name = None ->
                  get_widget name b = (Raise ValueError, b))
  /\ ui_loads window a
     = (if existsb (fun n => bool_decide
                               (is_Some (_main_window_widgets n))) names
        then 1 else 0)
  /\ _main_window window a
     = (if existsb (fun n => bool_decide
                               (is_Some (_main_window_widgets n))) names
        then Some (load_ui "main_window") else None).
Proof.
  cbn zeta. split; [intros name b; apply get_widget_unknown|].
  set (known := fun n => bool_decide (is_Some (_main_window_widgets n))).
  set (loaded := MkApp window (Some (load_ui "main_window")) 1).
  assert (Hstep : forall n ns a,
            lookups (n :: ns) a = lookups ns (snd (get_widget n a)))
    by reflexivity.
  assert (Hloaded : forall l, lookups l loaded = (Ok tt, loaded)).
  { intros l. induction l as [|n ns IH]; [done|].
    rewrite Hstep. destruct (_main_window_widgets n) as [cls|] eqn:Hn.
    - by rewrite (get_widget_known n cls _ Hn).
    - by rewrite (get_widget_unknown n _ Hn). }
  induction names as [|n ns IH]; [done|].
  rewrite Hstep. cbn [existsb]. unfold known at 1 3.
  destruct (_main_window_widgets n) as [cls|] eqn:Hn.
  - rewrite (get_widget_known n cls _ Hn) by done. cbn [snd].
    rewrite bool_decide_true by eauto. cbn [orb].
    fold loaded. by rewrite Hloaded.
  - rewrite (get_widget_unknown n _ Hn). cbn [snd].
    rewrite bool_decide_false by (by intros [? ?]). cbn [orb].
    exact IH.
Qed.

End Ui.

End AppFacts.
